(** * Test-scenario recommendation and de-duplication core

    A shallow embedding of [src/ai/similarity.py],
    [src/ai/duplicate_detector.py] and [src/ai/recommender.py], and the
    properties of its scoring, ranking and clustering functions.

    Conventions of the embedding.
    - A Python [float] that holds a number is a real number ([R]); the one
      non-number the code can produce, NaN, is the separate value [NaN] of
      [pyfloat].
    - Where a float decides something (a comparison with a threshold, the
      maximum of a loop, the key of a sort) it is computed with the
      operations of a [py_ops]: the sum, product and quotient of two floats
      and the value of a decimal literal, which round in the interpreter,
      and [str.lower] and [str.split], which know all of Unicode there.
      [exact_ops] is the [py_ops] of exact real arithmetic and ASCII text.
      A statement that names no [py_ops] is about [exact_ops]; the
      statements about what is flagged, chosen or ordered hold for every
      [py_ops].
      Elsewhere [+], [*] and [/] are the operations on reals and a decimal
      literal ([0.3]) is its exact decimal value.
    - A Python exception is the [Raise] outcome of the [result] monad.
    - A dictionary with a fixed schema is a record; a key read with
      [.get(key, default)] is a field that holds the default when the key
      is absent, and a key whose presence is tested is an [option] field.
      A scenario dictionary carries the keys ['scenario_id'] and
      ['test_name'], which the detector reads with [s['scenario_id']] and
      [s['test_name']]: a dictionary without them, on which such a read
      raises [KeyError], is not a value of the record type.
    - [set(...)] values are [gset string]; dictionaries whose iteration
      order is observable are association lists. *)

From Stdlib Require Import Reals Lra Lia ZArith.
From stdpp Require Import gmap strings list sorting pretty.

Open Scope R_scope.
Open Scope string_scope.
Open Scope list_scope.

(** ** Python values and outcomes *)

Inductive exn := ValueError | IndexError | KeyError.

Inductive result (A : Type) :=
  | Ok (a : A)
  | Raise (e : exn).
Arguments Ok {A} a.
Arguments Raise {A} e.

#[global] Instance result_ret : MRet result := fun A a => Ok a.
#[global] Instance result_bind : MBind result := fun A B f m =>
  match m with
  | Ok a => f a
  | Raise e => Raise e
  end.

(** [mapM]-like traversal of a list, left to right, stopping at the first
    exception: the shape of a Python loop whose body can raise. *)
Fixpoint traverse {A B} (f : A -> result B) (l : list A) : result (list B) :=
  match l with
  | [] => Ok []
  | x :: l' => y ← f x; ys ← traverse f l'; Ok (y :: ys)
  end.

Inductive pyfloat :=
  | Num (r : R)
  | NaN.

Definition is_num (x : pyfloat) : Prop :=
  match x with Num _ => True | NaN => False end.

#[global] Instance R_eq_dec : EqDecision R := Req_dec_T.
#[global] Instance pyfloat_eq_dec : EqDecision pyfloat.
Proof. solve_decision. Defined.

Definition py_add (x y : pyfloat) : pyfloat :=
  match x, y with Num a, Num b => Num (a + b) | _, _ => NaN end.
Definition py_sub (x y : pyfloat) : pyfloat :=
  match x, y with Num a, Num b => Num (a - b) | _, _ => NaN end.
Definition py_mul (x y : pyfloat) : pyfloat :=
  match x, y with Num a, Num b => Num (a * b) | _, _ => NaN end.

Definition Rgtb (x y : R) : bool := if Rlt_dec y x then true else false.
Definition Rgeb (x y : R) : bool := if Rle_dec y x then true else false.

(** [x > y] and [x < y] on floats: every comparison with NaN is false. *)
Definition py_gt (x y : pyfloat) : bool :=
  match x, y with Num a, Num b => Rgtb a b | _, _ => false end.
Definition py_lt (x y : pyfloat) : bool := py_gt y x.

(** The operations taken from the interpreter: [x + y], [x * y] and [x / y]
    on floats that hold numbers, the float a decimal literal denotes,
    [str.lower] and [str.split] (a text is the string of its UTF-8
    bytes).  What is known of the float operations, rounding or not, is
    that they keep the sign: the sum, the product and the quotient of
    numbers that are not negative (the divisor positive) are not negative,
    and neither is a literal that is not. *)
Class py_ops := {
  fadd : R -> R -> R;
  fmul : R -> R -> R;
  fdiv : R -> R -> R;
  flit : R -> R;
  str_lower : string -> string;
  str_split : string -> list string;
  fadd_nonneg : forall a b, 0 <= a -> 0 <= b -> 0 <= fadd a b;
  fmul_nonneg : forall a b, 0 <= a -> 0 <= b -> 0 <= fmul a b;
  fdiv_nonneg : forall a b, 0 <= a -> 0 < b -> 0 <= fdiv a b;
  flit_nonneg : forall a, 0 <= a -> 0 <= flit a
}.

(** [str.lower] and [str.split] on ASCII text. *)
Definition lower_char (c : Ascii.ascii) : Ascii.ascii :=
  let n := Ascii.nat_of_ascii c in
  if Nat.leb 65 n && Nat.leb n 90 then Ascii.ascii_of_nat (n + 32) else c.

Fixpoint lower (s : string) : string :=
  match s with
  | EmptyString => EmptyString
  | String c s' => String (lower_char c) (lower s')
  end.

Definition is_whitespace (c : Ascii.ascii) : bool :=
  let n := Ascii.nat_of_ascii c in
  (Nat.leb 9 n && Nat.leb n 13) || (Nat.leb 28 n && Nat.leb n 32).

Fixpoint split_go (cur : string) (s : string) : list string :=
  match s with
  | EmptyString => if bool_decide (cur = "") then [] else [cur]
  | String c s' =>
      if is_whitespace c then
        if bool_decide (cur = "") then split_go "" s'
        else cur :: split_go "" s'
      else split_go (cur +:+ String c "") s'
  end.

Definition split (s : string) : list string := split_go "" s.

(** Exact arithmetic on reals, and ASCII text. *)
#[global] Instance exact_ops : py_ops :=
  {| fadd := Rplus; fmul := Rmult; fdiv := Rdiv; flit := fun x => x;
     str_lower := lower; str_split := split;
     fadd_nonneg := Rplus_le_le_0_compat;
     fmul_nonneg := Rmult_le_pos;
     fdiv_nonneg := fun a b Ha Hb =>
       Rmult_le_pos a (/ b) Ha (Rlt_le 0 (/ b) (Rinv_0_lt_compat b Hb));
     flit_nonneg := fun a Ha => Ha |}.

(** [+] and [*] on floats that may be NaN. *)
Definition py_fadd {o : py_ops} (x y : pyfloat) : pyfloat :=
  match x, y with Num a, Num b => Num (fadd a b) | _, _ => NaN end.
Definition py_fmul {o : py_ops} (x y : pyfloat) : pyfloat :=
  match x, y with Num a, Num b => Num (fmul a b) | _, _ => NaN end.

(** [max(l)] for a non-empty list: the first element, replaced by each
    later one that compares greater. *)
Definition py_max (first : pyfloat) (rest : list pyfloat) : pyfloat :=
  fold_left (fun cur item => if py_gt item cur then item else cur) rest first.

(** [l[:k]] for an integer [k] (a negative [k] counts from the end). *)
Definition py_slice_to {A} (l : list A) (k : Z) : list A :=
  if (k <? 0)%Z then firstn (length l - Z.to_nat (- k)) l
  else firstn (Z.to_nat k) l.

(** [l.remove(x)]: drops the first occurrence ([x] is in the list wherever
    the code calls it). *)
Fixpoint list_remove (x : nat) (l : list nat) : list nat :=
  match l with
  | [] => []
  | y :: l' => if decide (y = x) then l' else y :: list_remove x l'
  end.

(** [l.sort(key=key, reverse=True)]: a stable sort, descending in the key.
    The builtin compares keys with [<] only; on keys that are numbers any
    stable sort yields the same list, and that list is what this insertion
    sort computes.  (With a NaN among the keys [<] is not an ordering and
    the builtin's result depends on its merge strategy; nothing is stated
    about that case.) *)
Section Sort.
Context {A : Type} (key : A -> pyfloat).

Fixpoint insert_desc (x : A) (l : list A) : list A :=
  match l with
  | [] => [x]
  | y :: l' =>
      if py_lt (key x) (key y) then y :: insert_desc x l' else x :: y :: l'
  end.

Fixpoint sort_desc (l : list A) : list A :=
  match l with
  | [] => []
  | x :: l' => insert_desc x (sort_desc l')
  end.
End Sort.

(** ** similarity.py *)

Module similarity.

(** [np.dot] of two 1-D arrays of one length. *)
Fixpoint dot (u v : list R) : R :=
  match u, v with
  | a :: u', b :: v' => a * b + dot u' v'
  | _, _ => 0
  end.

(** [scipy.spatial.distance.cosine]: [1 - u.v / sqrt((u.u) * (v.v))].
    Arrays of different lengths are rejected with [ValueError]; with a
    zero norm the quotient is [0/0], which is NaN. *)
Definition cosine_distance (u v : list R) : result pyfloat :=
  if decide (length u = length v) then
    let uv := dot u v in
    let uu := dot u u in
    let vv := dot v v in
    if Req_dec_T (uu * vv) 0 then Ok NaN
    else Ok (Num (1 - uv / sqrt (uu * vv)))
  else Raise ValueError.

Definition cosine_similarity (vec1 vec2 : list R) : result pyfloat :=
  d ← cosine_distance vec1 vec2;
  Ok (py_sub (Num 1) d).

(** An elementwise operation on two 1-D arrays under the array library's
    broadcasting: the lengths are equal, or one of them is 1; other shapes
    are rejected with [ValueError]. *)
Definition np_broadcast (f : R -> R -> R) (u v : list R) : result (list R) :=
  if decide (length u = length v) then Ok (zip_with f u v)
  else
    match u, v with
    | [a], _ => Ok (map (f a) v)
    | _, [b] => Ok (map (fun x => f x b) u)
    | _, _ => Raise ValueError
    end.

(** [np.sum] *)
Definition np_sum (l : list R) : R := fold_right Rplus 0 l.

(** [np.linalg.norm] of a 1-D array. *)
Definition np_norm (v : list R) : R := sqrt (dot v v).

Definition euclidean_distance (vec1 vec2 : list R) : result R :=
  d ← np_broadcast Rminus vec1 vec2;
  Ok (np_norm d).

Definition manhattan_distance (vec1 vec2 : list R) : result R :=
  d ← np_broadcast Rminus vec1 vec2;
  Ok (np_sum (map Rabs d)).

Definition normalize_vector (vector : list R) : list R :=
  let norm := np_norm vector in
  if Req_dec_T norm 0 then vector
  else map (fun x => x / norm) vector.

Definition weighted_similarity (vec1 vec2 weights : list R) : result pyfloat :=
  vec1_weighted ← np_broadcast Rmult vec1 weights;
  vec2_weighted ← np_broadcast Rmult vec2 weights;
  cosine_similarity vec1_weighted vec2_weighted.

(** [sklearn.preprocessing.normalize] of one row: division by the L2 norm,
    a zero norm being replaced by 1. *)
Definition l2_normalize (row : list R) : list R :=
  let norm := np_norm row in
  let scale := if Req_dec_T norm 0 then 1 else norm in
  map (fun x => x / scale) row.

(** [sklearn.metrics.pairwise.cosine_similarity(X, Y)]: the products of the
    normalized rows.  Both arguments are 2-D arrays with at least one row
    and one column and the same number of columns; anything else is
    rejected with [ValueError]. *)
Definition sklearn_cosine_similarity (X Y : list (list R))
  : result (list (list R)) :=
  match X, Y with
  | x0 :: _, _ :: _ =>
      if bool_decide (0 < length x0)%nat
         && forallb (fun r => Nat.eqb (length r) (length x0)) X
         && forallb (fun r => Nat.eqb (length r) (length x0)) Y
      then Ok (map (fun x => map (fun y => dot (l2_normalize x) (l2_normalize y)) Y) X)
      else Raise ValueError
  | _, _ => Raise ValueError
  end.

(** [query_vector] is 1-D and is reshaped to one row. *)
Definition batch_cosine_similarity (query_vector : list R)
    (vectors : list (list R)) : result (list R) :=
  K ← sklearn_cosine_similarity [query_vector] vectors;
  match K with
  | similarities :: _ => Ok similarities
  | [] => Raise IndexError
  end.

Definition compute_similarity_matrix (vectors : list (list R))
  : result (list (list R)) :=
  sklearn_cosine_similarity vectors vectors.

Section Rank.
Context {A : Type}.
(** [candidate.get(embedding_key)] *)
Variable embedding_of : A -> option (list R).
Variable query_vector : list R.

(** The loop of [rank_by_similarity]: candidates without an embedding are
    skipped. *)
Fixpoint rank_results (candidates : list A) : result (list (A * pyfloat)) :=
  match candidates with
  | [] => Ok []
  | candidate :: rest =>
      match embedding_of candidate with
      | None => rank_results rest
      | Some e =>
          sim ← cosine_similarity query_vector e;
          results ← rank_results rest;
          Ok ((candidate, sim) :: results)
      end
  end.

Definition rank_by_similarity (candidates : list A)
  : result (list (A * pyfloat)) :=
  results ← rank_results candidates;
  Ok (sort_desc snd results).
End Rank.

Section Rerank.
Context {A : Type}.
Variable candidates : list (A * R).
Variable embeddings : list (list R).
Variable lambda_param : R.
Variable k : Z.

(** [embeddings[i]] *)
Definition row (i : nat) : result (list R) :=
  match embeddings !! i with
  | Some e => Ok e
  | None => Raise IndexError
  end.

(** Body of [for idx in remaining]: the combined score of [idx] against
    the items selected so far. *)
Definition mmr_score (selected_indices : list nat) (idx : nat)
  : result pyfloat :=
  match candidates !! idx with
  | None => Raise IndexError
  | Some (_, relevance) =>
      diversities ← traverse (fun sel_idx =>
                       e1 ← row idx; e2 ← row sel_idx;
                       cosine_similarity e1 e2) selected_indices;
      let diversity :=
        match diversities with
        | [] => Num 1
        | d :: ds => py_sub (Num 1) (py_max d ds)
        end in
      Ok (py_add (py_mul (Num lambda_param) (Num relevance))
                 (py_mul (Num (1 - lambda_param)) diversity))
  end.

(** The scan over [remaining].  [best] is [None] while [best_score] is
    still [-inf] (and [best_idx] is [None]); afterwards it holds
    [(best_idx, best_score)].  A NaN score never compares greater. *)
Fixpoint scan (selected_indices remaining : list nat)
    (best : option (nat * R)) : result (option (nat * R)) :=
  match remaining with
  | [] => Ok best
  | idx :: rest =>
      score ← mmr_score selected_indices idx;
      let best' :=
        match score, best with
        | Num s, None => Some (idx, s)
        | Num s, Some (_, b) => if Rgtb s b then Some (idx, s) else best
        | NaN, _ => best
        end in
      scan selected_indices rest best'
  end.

(** The [while len(selected) < k and remaining] loop.  One unit of
    [fuel] is one iteration; [None] is fuel exhausted.  An iteration
    whose scan finds no index leaves the state as it was. *)
Fixpoint mmr_loop (fuel : nat) (selected : list (A * R))
    (selected_indices remaining : list nat)
  : option (result (list (A * R))) :=
  if bool_decide ((Z.of_nat (length selected) < k)%Z ∧ remaining ≠ []) then
    match fuel with
    | O => None
    | S fuel' =>
        match scan selected_indices remaining None with
        | Raise e => Some (Raise e)
        | Ok None => mmr_loop fuel' selected selected_indices remaining
        | Ok (Some (best_idx, _)) =>
            match candidates !! best_idx with
            | None => Some (Raise IndexError)
            | Some c =>
                mmr_loop fuel' (selected ++ [c])
                         (selected_indices ++ [best_idx])
                         (list_remove best_idx remaining)
            end
        end
    end
  else Some (Ok selected).

Definition diversity_reranking (fuel : nat)
  : option (result (list (A * R))) :=
  if bool_decide (Z.of_nat (length candidates) <= k)%Z then
    Some (Ok (py_slice_to candidates k))
  else
    match candidates with
    | [] => Some (Raise IndexError)
    | c0 :: _ =>
        mmr_loop fuel [c0] [0%nat]
                 (list_remove 0%nat (seq 0 (length candidates)))
    end.
End Rerank.

End similarity.

(** ** Scenario records

    The dictionaries both the detector and the recommender read.  A list
    field holds [[]] when its key is absent; [test_type] and [embedding]
    are [None] when theirs is. *)

Record execution := { passed : bool }.

Record scenario := {
  scenario_id : string;
  test_name : string;
  test_type : option string;
  target_components : list string;
  target_systems : list string;
  applicable_platforms : list string;
  regulatory_standards : list string;
  embedding : option (list R);
  historical_results : list execution;
  complexity_score : option Z;
  risk_level : option string;
  estimated_duration_hours : option R;
  estimated_cost_gbp : option R
}.

(** [sum(1 for h in historical if h.get('passed', False))] *)
Definition passed_count (historical : list execution) : nat :=
  length (List.filter passed historical).

(** ** duplicate_detector.py *)

Module duplicate_detector.

Definition jaccard_similarity {o : py_ops} (set1 set2 : gset string) : R :=
  if Nat.eqb (size set1) 0 && Nat.eqb (size set2) 0 then 1
  else
    let intersection := size (set1 ∩ set2) in
    let union := size (set1 ∪ set2) in
    if bool_decide (0 < union)%nat then fdiv (INR intersection) (INR union)
    else 0.

Section Interpreter.
Context {o : py_ops}.

Definition text_jaccard_similarity (text1 text2 : string) : R :=
  let tokens1 : gset string := list_to_set (str_split (str_lower text1)) in
  let tokens2 : gset string := list_to_set (str_split (str_lower text2)) in
  jaccard_similarity tokens1 tokens2.

Record DuplicateDetector := {
  min_cluster_size : Z;
  min_samples : Z;
  similarity_threshold : R
}.

(** [create_duplicate_detector] with its defaults. *)
Definition create_duplicate_detector : DuplicateDetector :=
  {| min_cluster_size := 2; min_samples := 1;
     similarity_threshold := flit 0.85 |}.

(** The [similarities] dictionary of [_compute_detailed_similarity]. *)
Record similarities := {
  sim_name : R;
  sim_components : R;
  sim_systems : R;
  sim_test_type : R;
  sim_platforms : R;
  sim_standards : R;
  overall : R
}.

Definition set_of (l : list string) : gset string := list_to_set l.

Definition _compute_detailed_similarity (scenario1 scenario2 : scenario)
  : similarities :=
  let name := text_jaccard_similarity (test_name scenario1) (test_name scenario2) in
  let components :=
    jaccard_similarity (set_of (target_components scenario1))
                       (set_of (target_components scenario2)) in
  let systems :=
    jaccard_similarity (set_of (target_systems scenario1))
                       (set_of (target_systems scenario2)) in
  let ttype :=
    if bool_decide (test_type scenario1 = test_type scenario2) then 1 else 0 in
  let platforms :=
    jaccard_similarity (set_of (applicable_platforms scenario1))
                       (set_of (applicable_platforms scenario2)) in
  let standards :=
    jaccard_similarity (set_of (regulatory_standards scenario1))
                       (set_of (regulatory_standards scenario2)) in
  {| sim_name := name;
     sim_components := components;
     sim_systems := systems;
     sim_test_type := ttype;
     sim_platforms := platforms;
     sim_standards := standards;
     overall :=
       fadd (fadd (fadd (fadd (fadd (fmul name (flit 0.15))
                                    (fmul components (flit 0.25)))
                              (fmul systems (flit 0.20)))
                        (fmul ttype (flit 0.15)))
                  (fmul platforms (flit 0.10)))
            (fmul standards (flit 0.15)) |}.

(** The score computed in the loop of [_select_canonical]. *)
Definition canonical_score (s : scenario) : R :=
  let historical := historical_results s in
  let execution_count := length historical in
  let pass_rate :=
    match historical with
    | [] => 0.5
    | _ => fdiv (INR (passed_count historical)) (INR (length historical))
    end in
  let component_count := length (target_components s) in
  fadd (fadd (fmul (INR execution_count) (flit 0.4))
             (fmul pass_rate (flit 0.3)))
       (fmul (INR component_count) (flit 0.3)).

(** One iteration of the loop: [(best_scenario, best_score)] updated. *)
Definition canonical_step (best : scenario * R) (s : scenario) : scenario * R :=
  let score := canonical_score s in
  if Rgtb score (snd best) then (s, score) else best.

(** [None] stands for the empty dictionary returned on an empty cluster. *)
Definition _select_canonical (scenarios : list scenario) : option scenario :=
  match scenarios with
  | [] => None
  | s0 :: _ => Some (fst (fold_left canonical_step scenarios (s0, -1)))
  end.

Record savings := {
  time_saved_hours : R;
  cost_saved_gbp : R;
  tests_eliminated : nat;
  reduction_percent : R
}.

Record duplicate := {
  dup_scenario_id : string;
  dup_test_name : string;
  similarity_to_canonical : R;
  similarity_breakdown : similarities;
  recommendation : string
}.

Definition _estimate_savings (canonical : scenario) (duplicates : list duplicate)
  : savings :=
  let reduction_factor := 0.8 in
  let avg_duration := 10 in
  let avg_cost := 5000 in
  let duplicate_duration := INR (length duplicates) * avg_duration in
  let duplicate_cost := INR (length duplicates) * avg_cost in
  {| time_saved_hours := duplicate_duration * reduction_factor;
     cost_saved_gbp := duplicate_cost * reduction_factor;
     tests_eliminated := length duplicates;
     reduction_percent :=
       INR (length duplicates) / (INR (length duplicates) + 1) * 100 |}.

Record cluster := {
  cluster_id : Z;
  cluster_size : nat;
  cluster_scenarios : list scenario;
  cluster_canonical : option scenario
}.

Record duplicate_group := {
  group_cluster_id : Z;
  canonical_id : string;
  canonical_name : string;
  duplicates : list duplicate;
  potential_savings : savings
}.

(** The entry appended for a member at or above the threshold. *)
Definition mk_duplicate (canonical scenario0 : scenario) : duplicate :=
  let similarity := _compute_detailed_similarity canonical scenario0 in
  {| dup_scenario_id := scenario_id scenario0;
     dup_test_name := test_name scenario0;
     similarity_to_canonical := overall similarity;
     similarity_breakdown := similarity;
     recommendation :=
       if Rgtb (overall similarity) (flit 0.95) then "consolidate"
       else "review" |}.

Section Detector.
Variable self : DuplicateDetector.

(** The inner loop over a cluster's scenarios. *)
Fixpoint cluster_duplicates (canonical : scenario) (scenarios : list scenario)
  : list duplicate :=
  match scenarios with
  | [] => []
  | s :: rest =>
      if bool_decide (scenario_id s = scenario_id canonical) then
        cluster_duplicates canonical rest
      else if Rgeb (overall (_compute_detailed_similarity canonical s))
                   (similarity_threshold self)
      then mk_duplicate canonical s :: cluster_duplicates canonical rest
      else cluster_duplicates canonical rest
  end.

(** [_identify_duplicates_in_clusters].  Reading [scenario_id] of the
    empty dictionary raises [KeyError]. *)
Fixpoint _identify_duplicates_in_clusters (clusters : list cluster)
  : result (list duplicate_group) :=
  match clusters with
  | [] => Ok []
  | c :: rest =>
      if bool_decide (length (cluster_scenarios c) < 2)%nat then
        _identify_duplicates_in_clusters rest
      else
        match cluster_canonical c with
        | None => Raise KeyError
        | Some canonical =>
            let cd := cluster_duplicates canonical (cluster_scenarios c) in
            groups ← _identify_duplicates_in_clusters rest;
            match cd with
            | [] => Ok groups
            | _ =>
                Ok ({| group_cluster_id := cluster_id c;
                       canonical_id := scenario_id canonical;
                       canonical_name := test_name canonical;
                       duplicates := cd;
                       potential_savings := _estimate_savings canonical cd |}
                    :: groups)
            end
        end
  end.
End Detector.

(** The dictionary returned by [detect_duplicates_by_embedding].  The
    last three keys are [None] when the dictionary does not have them. *)
Record detection := {
  clusters : list cluster;
  detected_duplicates : list duplicate_group;
  noise_points : option (list scenario);
  n_clusters : option nat;
  n_noise : option nat
}.

(** [np.array(rows)]: rows of unequal length are rejected
    ([ValueError]: inhomogeneous shape). *)
Definition np_array (rows : list (list R)) : result (list (list R)) :=
  match rows with
  | [] => Ok []
  | r :: rest =>
      if forallb (fun r' => Nat.eqb (length r') (length r)) rest then Ok rows
      else Raise ValueError
  end.

(** [clusters_dict[label].append(s)] on a [defaultdict(list)], which
    iterates in the order its keys were first inserted. *)
Fixpoint dict_append (label : Z) (s : scenario)
    (d : list (Z * list scenario)) : list (Z * list scenario) :=
  match d with
  | [] => [(label, [s])]
  | (l, members) :: d' =>
      if bool_decide (l = label) then (l, (members ++ [s])%list) :: d'
      else (l, members) :: dict_append label s d'
  end.

(** [for idx, label in enumerate(cluster_labels)] *)
Fixpoint organize (idx : nat) (cluster_labels : list Z)
    (valid_scenarios : list scenario)
    (clusters_dict : list (Z * list scenario)) (noise : list scenario)
  : result (list (Z * list scenario) * list scenario) :=
  match cluster_labels with
  | [] => Ok (clusters_dict, noise)
  | label :: rest =>
      match valid_scenarios !! idx with
      | None => Raise IndexError
      | Some s =>
          if bool_decide (label = (-1)%Z) then
            organize (S idx) rest valid_scenarios clusters_dict (noise ++ [s])
          else
            organize (S idx) rest valid_scenarios
                     (dict_append label s clusters_dict) noise
      end
  end.

Definition mk_cluster (item : Z * list scenario) : cluster :=
  {| cluster_id := fst item;
     cluster_size := length (snd item);
     cluster_scenarios := snd item;
     cluster_canonical := _select_canonical (snd item) |}.

Definition empty_detection : detection :=
  {| clusters := []; detected_duplicates := [];
     noise_points := None; n_clusters := None; n_noise := None |}.

Section Clustering.
(** [hdbscan.HDBSCAN(min_cluster_size, min_samples, metric='euclidean',
    cluster_selection_method='eom').fit_predict(embeddings)]: the
    clustering library, external to the repository.  It yields one
    label per row, [-1] for noise, or raises. *)
Variable fit_predict : Z -> Z -> list (list R) -> result (list Z).
Variable self : DuplicateDetector.

Definition detect_duplicates_by_embedding (scenarios : list scenario)
  : result detection :=
  match scenarios with
  | [] => Ok empty_detection
  | _ =>
      let valid_scenarios :=
        List.filter (fun s => bool_decide (is_Some (embedding s))) scenarios in
      let embeddings := omap embedding scenarios in
      if (Z.of_nat (length embeddings) <? min_cluster_size self)%Z then
        Ok empty_detection
      else
        embeddings ← np_array embeddings;
        cluster_labels ←
          fit_predict (min_cluster_size self) (min_samples self) embeddings;
        '(clusters_dict, noise) ←
          organize 0 cluster_labels valid_scenarios [] [];
        let clusters :=
          sort_desc (fun c => Num (INR (cluster_size c)))
                    (map mk_cluster clusters_dict) in
        duplicates ← _identify_duplicates_in_clusters self clusters;
        Ok {| clusters := clusters;
              detected_duplicates := duplicates;
              noise_points := Some noise;
              n_clusters := Some (length clusters);
              n_noise := Some (length noise) |}
  end.
End Clustering.

Record similar_pair := {
  scenario1_id : string;
  scenario1_name : string;
  scenario2_id : string;
  scenario2_name : string;
  similarity : R;
  pair_breakdown : similarities
}.

Definition mk_pair (scenario1 scenario2 : scenario) : similar_pair :=
  let sim := _compute_detailed_similarity scenario1 scenario2 in
  {| scenario1_id := scenario_id scenario1;
     scenario1_name := test_name scenario1;
     scenario2_id := scenario_id scenario2;
     scenario2_name := test_name scenario2;
     similarity := overall sim;
     pair_breakdown := sim |}.

(** [for j, scenario2 in enumerate(scenarios[i+1:], i+1)] *)
Fixpoint pairs_with (threshold : R) (scenario1 : scenario)
    (later : list scenario) : list similar_pair :=
  match later with
  | [] => []
  | scenario2 :: rest =>
      if Rgeb (overall (_compute_detailed_similarity scenario1 scenario2))
              threshold
      then mk_pair scenario1 scenario2 :: pairs_with threshold scenario1 rest
      else pairs_with threshold scenario1 rest
  end.

(** [for i, scenario1 in enumerate(scenarios)] *)
Fixpoint all_pairs (threshold : R) (scenarios : list scenario)
  : list similar_pair :=
  match scenarios with
  | [] => []
  | scenario1 :: rest =>
      pairs_with threshold scenario1 rest ++ all_pairs threshold rest
  end.

Definition find_similar_pairs (scenarios : list scenario) (threshold : R)
  : list similar_pair :=
  sort_desc (fun p => Num (similarity p)) (all_pairs threshold scenarios).

(** The default of [find_similar_pairs]'s [threshold] parameter. *)
Definition default_threshold : R := flit 0.85.
End Interpreter.

(** The entries of the two result lists as the dictionaries they are:
    [entry.get(key)], [None] for a key the dictionary literal does not
    have. *)
Inductive entry_value :=
  | Text (s : string)
  | Number (x : R)
  | Breakdown (b : similarities).

Definition duplicate_get (d : duplicate) (key : string) : option entry_value :=
  if bool_decide (key = "scenario_id") then Some (Text (dup_scenario_id d))
  else if bool_decide (key = "test_name") then Some (Text (dup_test_name d))
  else if bool_decide (key = "similarity_to_canonical") then
    Some (Number (similarity_to_canonical d))
  else if bool_decide (key = "similarity_breakdown") then
    Some (Breakdown (similarity_breakdown d))
  else if bool_decide (key = "recommendation") then
    Some (Text (recommendation d))
  else None.

Definition similar_pair_get (p : similar_pair) (key : string)
  : option entry_value :=
  if bool_decide (key = "scenario1_id") then Some (Text (scenario1_id p))
  else if bool_decide (key = "scenario1_name") then Some (Text (scenario1_name p))
  else if bool_decide (key = "scenario2_id") then Some (Text (scenario2_id p))
  else if bool_decide (key = "scenario2_name") then Some (Text (scenario2_name p))
  else if bool_decide (key = "similarity") then Some (Number (similarity p))
  else if bool_decide (key = "similarity_breakdown") then
    Some (Breakdown (pair_breakdown p))
  else None.

End duplicate_detector.

(** ** recommender.py *)

Module recommender.

Record weights_t := {
  semantic : R;
  graph : R;
  rules : R;
  historical : R
}.

Record TestRecommender := {
  embedding_pipeline : option (string -> list R);
  weights : weights_t;
  platform_rules : gmap string (gmap string (list string))
}.

(** [TestRecommender.__init__]; [encode_text] of the pipeline, when there
    is one, is the function held in [embedding_pipeline]. *)
Definition create_recommender {o : py_ops}
    (embedding_pipeline : option (string -> list R)) : TestRecommender :=
  {| embedding_pipeline := embedding_pipeline;
     weights := {| semantic := flit 0.4; graph := flit 0.3;
                   rules := flit 0.2; historical := flit 0.1 |};
     platform_rules :=
       {[ "EV" := {[ "Battery" := ["UNECE_R100"; "ISO_6469"; "SAE_J2929"];
                     "Powertrain" := ["ISO_8854"; "SAE_J1772"];
                     "ADAS" := ["UNECE_R157"; "ISO_26262"] ]};
          "HEV" := {[ "Battery" := ["UNECE_R100"; "ISO_6469"];
                      "Powertrain" := ["WLTP_Class3b"; "EPA_FTP75"; "EURO_6E"] ]};
          "ICE" := {[ "Powertrain" := ["WLTP_Class3b"; "EPA_FTP75"; "EURO_6E"];
                      "Chassis" := ["UNECE_R13H"; "FMVSS_135"] ]} ]} |}.

(** The query dictionary.  [platform] is [""] and the lists are [[]] when
    their keys are absent. *)
Record query_spec := {
  platform : string;
  systems : list string;
  components : list string;
  description : option string;
  name : option string;
  vehicle_model : option string;
  query_embedding_key : option (list R)
}.

(** Per-scenario graph metrics; [None] when the key is absent. *)
Record graph_metrics := { shortest_path_length : option R }.

Definition compute_semantic_score (query_embedding candidate_embedding : list R)
  : result pyfloat :=
  similarity.cosine_similarity query_embedding candidate_embedding.

(** [len(set(a) & set(b))] and [len(set(a) | set(b))] *)
Definition inter_size (a b : list string) : nat :=
  size ((list_to_set a : gset string) ∩ list_to_set b).
Definition union_size (a b : list string) : nat :=
  size ((list_to_set a : gset string) ∪ list_to_set b).

Definition is_empty {A} (l : list A) : bool :=
  match l with [] => true | _ => false end.

(** [np.mean] *)
Definition mean (l : list R) : R := fold_right Rplus 0 l / INR (length l).

Definition compute_graph_proximity
    (query_components candidate_components : list string)
    (query_systems candidate_systems : list string)
    (graph_data : option graph_metrics) : R :=
  let scores := [] in
  let scores :=
    if negb (is_empty query_components) && negb (is_empty candidate_components) then
      let intersection := inter_size query_components candidate_components in
      let union := union_size query_components candidate_components in
      let component_jaccard :=
        if bool_decide (0 < union)%nat then INR intersection / INR union else 0 in
      scores ++ [component_jaccard]
    else scores in
  let scores :=
    if negb (is_empty query_systems) && negb (is_empty candidate_systems) then
      let intersection := inter_size query_systems candidate_systems in
      let union := union_size query_systems candidate_systems in
      let system_jaccard :=
        if bool_decide (0 < union)%nat then INR intersection / INR union else 0 in
      scores ++ [system_jaccard]
    else scores in
  let scores :=
    match graph_data ≫= shortest_path_length with
    | Some spl => scores ++ [1 - Rmin (spl / 5) 1]
    | None => scores
    end in
  if is_empty scores then 0.5 else mean scores.

(** [', '.join(l)] *)
Fixpoint join (l : list string) : string :=
  match l with
  | [] => ""
  | [s] => s
  | s :: l' => s +:+ ", " +:+ join l'
  end.

Definition mem (s : string) (l : list string) : bool := bool_decide (s ∈ l).

Section Rules.
Variable self : TestRecommender.

(** Body of [for system in query_systems] in rule 2. *)
Definition regulatory_step (table : gmap string (list string))
    (candidate_standards : list string)
    (acc : R * list string) (system : string) : R * list string :=
  match table !! system with
  | None => acc
  | Some expected_standards =>
      let matched := List.filter (fun s => mem s candidate_standards)
                                 expected_standards in
      if is_empty matched then acc
      else (fst acc + 0.4 * (INR (length matched) / INR (length expected_standards)),
            (snd acc ++ ["Regulatory match for " +:+ system +:+ ": "
                         +:+ join matched])%list)
  end.

(** [compute_rules_score] up to, and without, its last statement
    [score = min(score, 1.0)]. *)
Definition rules_before_clipping (query : query_spec) (candidate : scenario)
  : R * list string :=
  let score := 0 in
  let rules_fired : list string := [] in
  let query_platform := platform query in
  let query_systems := systems query in
  let query_components := components query in
  let candidate_platforms := applicable_platforms candidate in
  let candidate_systems := target_systems candidate in
  let candidate_standards := regulatory_standards candidate in
  (* Rule 1 *)
  let '(score, rules_fired) :=
    if mem query_platform candidate_platforms then
      (score + 0.3, (rules_fired ++ ["Platform match: " +:+ query_platform])%list)
    else (score, rules_fired) in
  (* Rule 2 *)
  let '(score, rules_fired) :=
    match platform_rules self !! query_platform with
    | Some table =>
        fold_left (regulatory_step table candidate_standards)
                  query_systems (score, rules_fired)
    | None => (score, rules_fired)
    end in
  (* Rule 3 *)
  let '(score, rules_fired) :=
    if negb (is_empty query_systems) && negb (is_empty candidate_systems) then
      let overlap := inter_size query_systems candidate_systems in
      if bool_decide (0 < overlap)%nat then
        (score + 0.2 * (INR overlap / INR (length query_systems)),
         (rules_fired ++ ["System overlap: " +:+ pretty overlap +:+ "/"
                          +:+ pretty (length query_systems) +:+ " systems"])%list)
      else (score, rules_fired)
    else (score, rules_fired) in
  (* Rule 4 *)
  let '(score, rules_fired) :=
    if negb (is_empty query_components) then
      let candidate_components := target_components candidate in
      let overlap := inter_size query_components candidate_components in
      if bool_decide (0 < overlap)%nat then
        (score + 0.1,
         (rules_fired ++ ["Component coverage: " +:+ pretty overlap
                          +:+ " components"])%list)
      else (score, rules_fired)
    else (score, rules_fired) in
  (score, rules_fired).

Definition compute_rules_score (query : query_spec) (candidate : scenario)
  : R * list string :=
  let '(score, rules_fired) := rules_before_clipping query candidate in
  (Rmin score 1, rules_fired).
End Rules.

Definition compute_historical_score (candidate : scenario) : R :=
  let historical := historical_results candidate in
  match historical with
  | [] => 0.5
  | _ =>
      let passed := passed_count historical in
      let pass_rate := INR passed / INR (length historical) in
      let confidence := Rmin (INR (length historical) / 10) 1 in
      pass_rate * confidence + 0.5 * (1 - confidence)
  end.

Record scores_t := {
  scores_semantic : option pyfloat;
  scores_graph : R;
  scores_rules : R;
  scores_historical : R
}.

Record explain_t := {
  neighbors : list string;
  kg_paths : list string;
  rules_fired : list string;
  scores : scores_t;
  notes : list string
}.

Record metadata_t := {
  meta_complexity_score : option Z;
  meta_risk_level : option string;
  meta_estimated_duration_hours : option R;
  meta_estimated_cost_gbp : option R
}.

Record recommendation := {
  rec_scenario_id : string;
  rec_test_name : string;
  rec_test_type : option string;
  score : pyfloat;
  explain : explain_t;
  metadata : metadata_t
}.

Section Recommend.
Context {o : py_ops}.
Variable self : TestRecommender.
Variable query : query_spec.
Variable graph_data : option (gmap string graph_metrics).

(** The query embedding: computed only with a pipeline and a
    ['description'] key. *)
Definition query_embedding : option (list R) :=
  match embedding_pipeline self, description query with
  | Some encode_text, Some d =>
      let query_text :=
        match name query with
        | Some n => n +:+ " " +:+ d
        | None => d
        end in
      Some (encode_text query_text)
  | _, _ => None
  end.

(** The local [semantic_score] of the loop body, with the entry written
    to [explain['scores']['semantic']] (none unless it is computed). *)
Definition semantic_of (candidate : scenario)
  : result (pyfloat * option pyfloat) :=
  match query_embedding, embedding candidate with
  | Some qe, Some candidate_emb =>
      s ← compute_semantic_score qe candidate_emb; Ok (s, Some s)
  | _, _ => Ok (Num 0, None)
  end.

Definition note_if (b : bool) (note : string) : list string :=
  if b then [note] else [].

(** Body of [for candidate in candidates]. *)
Definition score_candidate (candidate : scenario) : result recommendation :=
  '(semantic_score, semantic_entry) ← semantic_of candidate;
  let graph_score :=
    compute_graph_proximity
      (components query) (target_components candidate)
      (systems query) (target_systems candidate)
      (graph_data ≫= (fun g => g !! scenario_id candidate)) in
  let '(rules_score, fired) := compute_rules_score self query candidate in
  let historical_score := compute_historical_score candidate in
  let final_score :=
    py_fadd
      (py_fadd
         (py_fadd (py_fmul (Num (semantic (weights self))) semantic_score)
                  (Num (fmul (graph (weights self)) graph_score)))
         (Num (fmul (rules (weights self)) rules_score)))
      (Num (fmul (historical (weights self)) historical_score)) in
  let notes :=
    (note_if (py_gt semantic_score (Num 0.8)) "High semantic similarity"
     ++ note_if (Rgtb graph_score 0.7) "Strong graph connectivity"
     ++ note_if (Rgtb rules_score 0.7) "Matches multiple rules"
     ++ note_if (Rgtb historical_score 0.8) "High historical success rate")%list in
  Ok {| rec_scenario_id := scenario_id candidate;
        rec_test_name := test_name candidate;
        rec_test_type := test_type candidate;
        score := final_score;
        explain := {| neighbors := []; kg_paths := [];
                      rules_fired := fired;
                      scores := {| scores_semantic := semantic_entry;
                                   scores_graph := graph_score;
                                   scores_rules := rules_score;
                                   scores_historical := historical_score |};
                      notes := notes |};
        metadata := {| meta_complexity_score := complexity_score candidate;
                       meta_risk_level := risk_level candidate;
                       meta_estimated_duration_hours :=
                         estimated_duration_hours candidate;
                       meta_estimated_cost_gbp := estimated_cost_gbp candidate |} |}.

Definition recommend (candidates : list scenario) (top_k : Z)
  : result (list recommendation) :=
  recommendations ← traverse score_candidate candidates;
  Ok (py_slice_to (sort_desc score recommendations) top_k).
End Recommend.

(** The default of [recommend]'s [top_k] parameter. *)
Definition default_top_k : Z := 10.

(** [recommend_for_vehicle]: the query it builds, and the call. *)
Definition vehicle_query (vehicle_model platform : string)
    (systems components : list string) : query_spec :=
  {| platform := platform;
     systems := systems;
     components := components;
     description := Some ("Test scenarios for " +:+ vehicle_model +:+ " "
                          +:+ platform +:+ " covering " +:+ join systems);
     name := Some (vehicle_model +:+ " Testing");
     vehicle_model := Some vehicle_model;
     query_embedding_key := None |}.

Definition recommend_for_vehicle {o : py_ops} (self : TestRecommender)
    (vehicle_model platform : string) (systems components : list string)
    (candidates : list scenario) (top_k : Z) : result (list recommendation) :=
  recommend self (vehicle_query vehicle_model platform systems components)
            None candidates top_k.

(** The [cosine_similarity] defined in this module when the import of
    [src.ai.similarity] fails. *)
Definition fallback_cosine_similarity (v1 v2 : list R) : result R :=
  if decide (length v1 = length v2) then
    let dot := similarity.dot v1 v2 in
    let norm1 := similarity.np_norm v1 in
    let norm2 := similarity.np_norm v2 in
    if Rgtb norm1 0 && Rgtb norm2 0 then Ok (dot / (norm1 * norm2)) else Ok 0
  else Raise ValueError.

End recommender.

(** ** Vocabulary of the properties *)

(** [a] may stand before [b] in a descending list: both keys are numbers
    and the key of [a] is at least the key of [b]. *)
Definition key_ge {A} (key : A -> pyfloat) (a b : A) : Prop :=
  exists x y, key a = Num x /\ key b = Num y /\ y <= x.

(** Every key is a number. *)
Definition numeric {A} (key : A -> pyfloat) (l : list A) : Prop :=
  Forall (fun a => is_num (key a)) l.

(** The records of key value [s], in the order of the list. *)
Definition with_key {A} (key : A -> pyfloat) (s : pyfloat) (l : list A) : list A :=
  List.filter (fun a => bool_decide (key a = s)) l.

(** Every embedding in the batch has the same dimension. *)
Definition consistent_dimension (rows : list (list R)) : Prop :=
  forall r1 r2, In r1 rows -> In r2 rows -> length r1 = length r2.

(** [valid_scenarios]: the scenarios that carry an embedding, in order. *)
Definition valid_of (scenarios : list scenario) : list scenario :=
  List.filter (fun s => bool_decide (is_Some (embedding s))) scenarios.

(** The duplicate group of cluster [c], when one is formed. *)
Definition group_of {o : py_ops} (self : duplicate_detector.DuplicateDetector)
    (c : duplicate_detector.cluster) (cn : scenario)
    (g : duplicate_detector.duplicate_group) : Prop :=
  duplicate_detector.group_cluster_id g = duplicate_detector.cluster_id c
  /\ duplicate_detector.canonical_id g = scenario_id cn
  /\ duplicate_detector.canonical_name g = test_name cn
  /\ duplicate_detector.duplicates g
     = duplicate_detector.cluster_duplicates self cn
         (duplicate_detector.cluster_scenarios c).

(** A graph-metrics entry is well formed when its path length, if there is
    one, is not negative. *)
Definition path_length_ok (g : option recommender.graph_metrics) : Prop :=
  match g ≫= recommender.shortest_path_length with
  | Some spl => 0 <= spl
  | None => True
  end.

(** Every path length in the graph data is non-negative. *)
Definition graph_data_ok (gd : option (gmap string recommender.graph_metrics))
  : Prop :=
  forall sid, path_length_ok (gd ≫= (fun g => g !! sid)).

(** The query with a precomputed embedding put under its ['embedding'] key. *)
Definition with_embedding (q : recommender.query_spec) (e : option (list R))
  : recommender.query_spec :=
  {| recommender.platform := recommender.platform q;
     recommender.systems := recommender.systems q;
     recommender.components := recommender.components q;
     recommender.description := recommender.description q;
     recommender.name := recommender.name q;
     recommender.vehicle_model := recommender.vehicle_model q;
     recommender.query_embedding_key := e |}.

(** The embeddings that are compared have the dimension of the query
    embedding and, like it, a non-zero norm. *)
Definition comparable (qe : list R) (c : scenario) : Prop :=
  match embedding c with
  | Some e => length qe = length e /\ similarity.dot qe qe <> 0
              /\ similarity.dot e e <> 0
  | None => True
  end.

Definition embeddings_comparable (self : recommender.TestRecommender)
    (q : recommender.query_spec) (candidates : list scenario) : Prop :=
  match recommender.query_embedding self q with
  | Some qe => Forall (comparable qe) candidates
  | None => True
  end.

(** There is a row for every candidate, the rows have one dimension, and
    none has zero norm. *)
Definition rows_well_formed {A} (candidates : list (A * R))
    (embeddings : list (list R)) : Prop :=
  (length candidates <= length embeddings)%nat
  /\ (forall e1 e2, In e1 embeddings -> In e2 embeddings -> length e1 = length e2)
  /\ (forall e, In e embeddings -> similarity.dot e e <> 0).

(** The candidates come in descending order of relevance. *)
Definition descending_relevance {A} (candidates : list (A * R)) : Prop :=
  forall i j ci cj, (i <= j)%nat ->
    candidates !! i = Some ci -> candidates !! j = Some cj -> snd cj <= snd ci.

(** The invariant of the rules: the score is 0 as long as no rule has
    fired and positive afterwards. *)
Definition fired_iff_positive (acc : R * list string) : Prop :=
  (fst acc = 0 /\ snd acc = []) \/ (0 < fst acc /\ snd acc <> []).

(** ** Sample inputs *)

Module samples.
Import recommender.

(** A scenario with every optional key absent. *)
Definition blank (id : string) : scenario :=
  {| scenario_id := id; test_name := ""; test_type := None;
     target_components := []; target_systems := [];
     applicable_platforms := []; regulatory_standards := [];
     embedding := None; historical_results := [];
     complexity_score := None; risk_level := None;
     estimated_duration_hours := None; estimated_cost_gbp := None |}.

Definition blank_query : query_spec :=
  {| platform := ""; systems := []; components := [];
     description := None; name := None; vehicle_model := None;
     query_embedding_key := None |}.

(** [{platform: 'EV', systems: ['Battery']}] *)
Definition ev_battery_query : query_spec :=
  {| platform := "EV"; systems := ["Battery"]; components := [];
     description := None; name := None; vehicle_model := None;
     query_embedding_key := None |}.

(** A candidate for EV, systems Battery and Thermal, standard UNECE_R100. *)
Definition battery_thermal : scenario :=
  {| scenario_id := "TEST-001"; test_name := "Battery Thermal Test";
     test_type := Some "performance";
     target_components := []; target_systems := ["Battery"; "Thermal"];
     applicable_platforms := ["EV"]; regulatory_standards := ["UNECE_R100"];
     embedding := None; historical_results := [];
     complexity_score := None; risk_level := None;
     estimated_duration_hours := None; estimated_cost_gbp := None |}.

(** A clusterer that puts every row into cluster 0. *)
Definition single_cluster (min_cluster_size min_samples : Z)
    (rows : list (list R)) : result (list Z) :=
  Ok (map (fun _ => 0%Z) rows).

(** Two scenarios whose embeddings have dimensions 1 and 2. *)
Definition dim1 : scenario :=
  {| scenario_id := "D1"; test_name := "one"; test_type := None;
     target_components := []; target_systems := [];
     applicable_platforms := []; regulatory_standards := [];
     embedding := Some [1]; historical_results := [];
     complexity_score := None; risk_level := None;
     estimated_duration_hours := None; estimated_cost_gbp := None |}.

Definition dim2 : scenario :=
  {| scenario_id := "D2"; test_name := "two"; test_type := None;
     target_components := []; target_systems := [];
     applicable_platforms := []; regulatory_standards := [];
     embedding := Some [1; 2]; historical_results := [];
     complexity_score := None; risk_level := None;
     estimated_duration_hours := None; estimated_cost_gbp := None |}.

(** Two scenarios that differ in identifier and name only, and a third
    one unlike them. *)
Definition twin_a : scenario :=
  {| scenario_id := "TWIN-A"; test_name := "Battery Thermal Test";
     test_type := Some "performance";
     target_components := ["A"; "B"]; target_systems := ["S1"];
     applicable_platforms := ["EV"]; regulatory_standards := ["R100"];
     embedding := Some [1; 0]; historical_results := [];
     complexity_score := None; risk_level := None;
     estimated_duration_hours := None; estimated_cost_gbp := None |}.

Definition twin_b : scenario :=
  {| scenario_id := "TWIN-B"; test_name := "Battery Thermal Validation";
     test_type := Some "performance";
     target_components := ["A"; "B"]; target_systems := ["S1"];
     applicable_platforms := ["EV"]; regulatory_standards := ["R100"];
     embedding := Some [1; 0]; historical_results := [];
     complexity_score := None; risk_level := None;
     estimated_duration_hours := None; estimated_cost_gbp := None |}.

(** A second dictionary with the identifier of [twin_a]. *)
Definition twin_a_rerun : scenario :=
  {| scenario_id := "TWIN-A"; test_name := "Battery Thermal Validation";
     test_type := Some "performance";
     target_components := ["A"; "B"]; target_systems := ["S1"];
     applicable_platforms := ["EV"]; regulatory_standards := ["R100"];
     embedding := Some [1; 0]; historical_results := [];
     complexity_score := None; risk_level := None;
     estimated_duration_hours := None; estimated_cost_gbp := None |}.

(** A scenario of the twins' coverage that has been executed twice and
    passed once. *)
Definition seasoned : scenario :=
  {| scenario_id := "SEASONED"; test_name := "Battery Thermal Validation";
     test_type := Some "performance";
     target_components := ["A"; "B"]; target_systems := ["S1"];
     applicable_platforms := ["EV"]; regulatory_standards := ["R100"];
     embedding := Some [1; 0];
     historical_results := [{| passed := true |}; {| passed := false |}];
     complexity_score := None; risk_level := None;
     estimated_duration_hours := None; estimated_cost_gbp := None |}.

Definition loner : scenario :=
  {| scenario_id := "LONER"; test_name := "Brake Test";
     test_type := Some "safety";
     target_components := ["C"]; target_systems := ["S2"];
     applicable_platforms := ["ICE"]; regulatory_standards := [];
     embedding := Some [0; 1]; historical_results := [];
     complexity_score := None; risk_level := None;
     estimated_duration_hours := None; estimated_cost_gbp := None |}.

(** A clusterer that puts the first two rows into cluster 0 and leaves
    every other row as noise. *)
Definition pair_then_noise (min_cluster_size min_samples : Z)
    (rows : list (list R)) : result (list Z) :=
  Ok (map (fun i => if Nat.ltb i 2 then 0%Z else (-1)%Z) (seq 0 (length rows))).

(** Three items in descending order of relevance, and their embeddings. *)
Definition ranked : list (string * R) := [("a", 0.9); ("b", 0.8); ("c", 0.7)].
Definition ranked_rows : list (list R) := [[1; 0]; [0; 1]; [1; 1]].

(** A detector asking for clusters of at least three. *)
Definition detector_of_three : duplicate_detector.DuplicateDetector :=
  {| duplicate_detector.min_cluster_size := 3;
     duplicate_detector.min_samples := 1;
     duplicate_detector.similarity_threshold := 0.85 |}.

(** A pipeline that encodes every text as the one-dimensional unit vector. *)
Definition unit_encoder (text : string) : list R := [1].

(** [{'description': 'q'}] *)
Definition described_query : query_spec :=
  {| platform := ""; systems := []; components := [];
     description := Some "q"; name := None; vehicle_model := None;
     query_embedding_key := None |}.

(** A candidate whose only key, besides its identifier, is an embedding
    of norm zero. *)
Definition null_vector : scenario :=
  {| scenario_id := "TEST-NULL"; test_name := ""; test_type := None;
     target_components := []; target_systems := [];
     applicable_platforms := []; regulatory_standards := [];
     embedding := Some [0]; historical_results := [];
     complexity_score := None; risk_level := None;
     estimated_duration_hours := None; estimated_cost_gbp := None |}.

(** Graph data that hold, for scenario ["A"], a path length of -10. *)
Definition negative_path : gmap string graph_metrics :=
  {[ "A" := {| shortest_path_length := Some (-10) |} ]}.

(** A candidate whose only key, besides its identifier, is an embedding
    opposite to the encoder's. *)
Definition opposed : scenario :=
  {| scenario_id := "TEST-OPP"; test_name := ""; test_type := None;
     target_components := []; target_systems := [];
     applicable_platforms := []; regulatory_standards := [];
     embedding := Some [-1]; historical_results := [];
     complexity_score := None; risk_level := None;
     estimated_duration_hours := None; estimated_cost_gbp := None |}.
End samples.

(** ** Proof tools *)

(** Closed tests on strings, sets and tables are evaluated on their own, so
    that the real-number expressions around them stay as written. *)
Ltac eval_closed t :=
  let v := eval vm_compute in t in
  replace t with v by (vm_compute; reflexivity).

Ltac eval_tests :=
  repeat match goal with
  | |- context [bool_decide ?P] => progress eval_closed (bool_decide P)
  | |- context [recommender.mem ?s ?l] => eval_closed (recommender.mem s l)
  | |- context [recommender.inter_size ?a ?b] =>
      eval_closed (recommender.inter_size a b)
  | |- context [recommender.union_size ?a ?b] =>
      eval_closed (recommender.union_size a b)
  | |- context [List.filter ?f ?l] => eval_closed (List.filter f l)
  | |- context [@lookup ?K ?V ?M ?I ?k ?m] => eval_closed (@lookup K V M I k m)
  end.

Ltac eval_steps := repeat (progress (eval_tests; cbn)).

(** The operations of [exact_ops], written out. *)
Ltac exact_arith :=
  cbn [fadd fmul fdiv flit str_lower str_split exact_ops] in *.

Lemma Rgtb_true x y : y < x -> Rgtb x y = true.
Proof. intros H. unfold Rgtb. destruct (Rlt_dec y x); [reflexivity | lra]. Qed.

Lemma Rgtb_false x y : x <= y -> Rgtb x y = false.
Proof. intros H. unfold Rgtb. destruct (Rlt_dec y x); [lra | reflexivity]. Qed.

Lemma Rgeb_true x y : y <= x -> Rgeb x y = true.
Proof. intros H. unfold Rgeb. destruct (Rle_dec y x); [reflexivity | lra]. Qed.

Lemma Rgeb_false x y : x < y -> Rgeb x y = false.
Proof. intros H. unfold Rgeb. destruct (Rle_dec y x); [lra | reflexivity]. Qed.

Lemma Rgtb_spec x y : Rgtb x y = true <-> y < x.
Proof. unfold Rgtb. destruct (Rlt_dec y x); split; intros; (lra || done). Qed.

Lemma Rgeb_spec x y : Rgeb x y = true <-> y <= x.
Proof. unfold Rgeb. destruct (Rle_dec y x); split; intros; (lra || done). Qed.

(** ** Cosine similarity *)

Section Cosine.
Import similarity.

Lemma dot_self_nonneg v : 0 <= dot v v.
Proof. induction v as [|a v IH]; cbn; [lra | nra]. Qed.

(** For a vector of non-zero norm the similarity with itself is 1. *)
Lemma cosine_similarity_self v :
  dot v v <> 0 -> cosine_similarity v v = Ok (Num 1).
Proof.
  intros Hv. unfold cosine_similarity, cosine_distance.
  destruct (decide (length v = length v)) as [_|]; [|done].
  pose proof (dot_self_nonneg v) as Hpos.
  destruct (Req_dec_T (dot v v * dot v v) 0) as [H0|_]; [nra|].
  cbn. rewrite sqrt_square by assumption. do 2 f_equal. field. assumption.
Qed.

(** With a zero norm on either side the similarity is NaN. *)
Lemma cosine_similarity_zero_norm u v :
  length u = length v -> dot u u = 0 \/ dot v v = 0 ->
  cosine_similarity u v = Ok NaN.
Proof.
  intros Hlen Hz. unfold cosine_similarity, cosine_distance.
  destruct (decide (length u = length v)); [|done].
  destruct (Req_dec_T (dot u u * dot v v) 0) as [_|Hne]; [reflexivity|].
  exfalso. apply Hne. destruct Hz as [-> | ->]; lra.
Qed.

(** Vectors of different dimensions are rejected. *)
Lemma cosine_similarity_shape u v :
  length u <> length v -> cosine_similarity u v = Raise ValueError.
Proof.
  intros Hlen. unfold cosine_similarity, cosine_distance.
  destruct (decide (length u = length v)); done.
Qed.

Lemma cauchy_schwarz u : forall v,
  length u = length v -> dot u v * dot u v <= dot u u * dot v v.
Proof.
  induction u as [|a u IH]; intros [|b v] Hlen; try discriminate; cbn; [lra|].
  injection Hlen as Hlen. specialize (IH v Hlen).
  pose proof (dot_self_nonneg u) as Hu. pose proof (dot_self_nonneg v) as Hv.
  set (s := dot u v) in *. set (p := dot u u) in *. set (q := dot v v) in *.
  assert (Hcross : 2 * (a * b) * s <= a * a * q + b * b * p).
  { destruct (Req_dec_T p 0) as [Hp|Hp].
    - assert (s = 0) by nra. nra.
    - assert (0 < p) by lra.
      assert (0 <= p * (a * a * q + b * b * p - 2 * (a * b) * s)).
      { pose proof (Rle_0_sqr (a * s - b * p)) as Hsq. unfold Rsqr in Hsq. nra. }
      nra. }
  nra.
Qed.

(** Whenever the similarity is a number it lies between -1 and 1. *)
Lemma cosine_similarity_range u v x :
  cosine_similarity u v = Ok (Num x) -> -1 <= x <= 1.
Proof.
  unfold cosine_similarity, cosine_distance.
  destruct (decide (length u = length v)) as [Hlen|]; [|discriminate].
  destruct (Req_dec_T _ _) as [|Hne]; [discriminate|]. cbn.
  intros [= <-].
  pose proof (cauchy_schwarz u v Hlen) as Hcs.
  pose proof (dot_self_nonneg u) as Hu. pose proof (dot_self_nonneg v) as Hv.
  assert (Hpos : 0 < dot u u * dot v v) by nra.
  pose proof (sqrt_lt_R0 _ Hpos) as Hd.
  pose proof (sqrt_sqrt (dot u u * dot v v) ltac:(lra)) as Hdd.
  set (d := sqrt (dot u u * dot v v)) in *. set (s := dot u v) in *.
  assert (Hs : - d <= s <= d) by nra.
  assert (Hq : -1 <= s / d <= 1).
  { assert (0 < / d) by (apply Rinv_0_lt_compat; exact Hd).
    assert (d * / d = 1) by (apply Rinv_r; lra).
    unfold Rdiv. split; nra. }
  lra.
Qed.

(** C3: [cosine_similarity] with a zero-norm argument.  The specification
    asks for exactly 0 whenever either vector has zero norm; the function
    in [similarity.py] hands the vectors to the cosine distance, whose
    quotient is [0/0] there, and yields NaN.  Evaluated at the zero vector
    against a unit vector. *)
Theorem cosine_similarity_zero_vector_is_nan :
  cosine_similarity [0; 0] [1; 0] = Ok NaN
  /\ cosine_similarity [0; 0] [1; 0] <> Ok (Num 0)
  /\ cosine_similarity [0; 0] [0; 0] = Ok NaN.
Proof.
  assert (H1 : cosine_similarity [0; 0] [1; 0] = Ok NaN).
  { apply cosine_similarity_zero_norm; [reflexivity | left; cbn; lra]. }
  split; [exact H1 | split].
  - rewrite H1. discriminate.
  - apply cosine_similarity_zero_norm; [reflexivity | left; cbn; lra].
Qed.
End Cosine.

(** ** The rules signal *)

Section RulesScore.
Import recommender samples.

Lemma ev_battery_rules_value :
  rules_before_clipping (create_recommender None) ev_battery_query battery_thermal
  = (0 + 0.3 + 0.4 * (1 / (1 + 1 + 1)) + 0.2 * (1 / 1),
     ["Platform match: EV";
      "Regulatory match for Battery: UNECE_R100";
      "System overlap: 1/1 systems"]).
Proof.
  unfold rules_before_clipping. cbn. eval_steps.
  unfold regulatory_step. eval_steps. reflexivity.
Qed.

(** C2, as the code computes it: for the query [{platform: 'EV', systems:
    ['Battery']}] and the candidate with platforms [['EV']], systems
    [['Battery', 'Thermal']] and standards [['UNECE_R100']], the rules
    signal is 0.3 (platform match) + 0.4 * (1/3) (one of the three
    standards the table expects for EV Battery) + 0.2 (system overlap, 1
    of 1), that is 19/30, before clipping; clipping leaves it unchanged. *)
Theorem rules_score_ev_battery :
  fst (rules_before_clipping (create_recommender None)
         ev_battery_query battery_thermal)
    = 0.3 + 0.4 * (1 / 3) + 0.2
  /\ platform_rules (create_recommender None) !! "EV"
       ≫= (fun table => table !! "Battery")
     = Some ["UNECE_R100"; "ISO_6469"; "SAE_J2929"]
  /\ fst (compute_rules_score (create_recommender None)
            ev_battery_query battery_thermal) = 19 / 30.
Proof.
  split; [|split].
  - rewrite ev_battery_rules_value. cbn. lra.
  - vm_compute. reflexivity.
  - unfold compute_rules_score. rewrite ev_battery_rules_value. cbn.
    unfold Rmin. destruct (Rle_dec _ _); lra.
Qed.

(** C2, as stated (a total of 0.7), does not hold on the code. *)
Lemma ev_battery_rules_not_0_7 :
  fst (rules_before_clipping (create_recommender None)
         ev_battery_query battery_thermal) <> 0.7.
Proof. rewrite ev_battery_rules_value. cbn. lra. Qed.
End RulesScore.

(** ** Too few embeddings, and embeddings of unequal dimension *)

Section EarlyReturns.
Import duplicate_detector samples.
Variable fit_predict : Z -> Z -> list (list R) -> result (list Z).
Variable self : DuplicateDetector.

Lemma np_array_consistent rows :
  consistent_dimension rows -> np_array rows = Ok rows.
Proof.
  intros H. destruct rows as [|r rest]; [reflexivity|]. cbn.
  replace (forallb _ rest) with true; [reflexivity|].
  symmetry. apply forallb_forall. intros r' Hin.
  apply Nat.eqb_eq. apply H; cbn; auto.
Qed.

Lemma np_array_inconsistent rows :
  ~ consistent_dimension rows -> np_array rows = Raise ValueError.
Proof.
  intros H. destruct rows as [|r rest].
  - exfalso. apply H. intros r1 r2 [].
  - cbn. destruct (forallb _ rest) eqn:E; [|reflexivity].
    exfalso. apply H. rewrite forallb_forall in E.
    assert (Hr : forall x, In x (r :: rest) -> length x = length r).
    { intros x [<-|Hx]; [reflexivity|]. apply Nat.eqb_eq, E, Hx. }
    intros r1 r2 H1 H2. rewrite (Hr _ H1), (Hr _ H2). reflexivity.
Qed.

(** With fewer embeddings than [min_cluster_size] the two-key dictionary
    is returned, whatever the embeddings are. *)
Lemma detect_below_min_cluster_size scenarios :
  (Z.of_nat (length (omap embedding scenarios)) < min_cluster_size self)%Z ->
  detect_duplicates_by_embedding fit_predict self scenarios = Ok empty_detection.
Proof.
  intros H. unfold detect_duplicates_by_embedding.
  destruct scenarios as [|s rest]; [reflexivity|].
  apply Z.ltb_lt in H. rewrite H. reflexivity.
Qed.

(** C9, as the code behaves: when at least [min_cluster_size] scenarios
    carry an embedding and the embeddings are not all of one dimension,
    [detect_duplicates_by_embedding] fails, with the [ValueError] raised
    while the embeddings are stacked into one array and before the
    clusterer is called. *)
Theorem detect_inconsistent_dimension_raises scenarios :
  (min_cluster_size self <= Z.of_nat (length (omap embedding scenarios)))%Z ->
  ~ consistent_dimension (omap embedding scenarios) ->
  detect_duplicates_by_embedding fit_predict self scenarios = Raise ValueError.
Proof.
  intros Hmin Hdim. unfold detect_duplicates_by_embedding.
  destruct scenarios as [|s rest].
  - exfalso. apply Hdim. intros r1 r2 [].
  - replace (_ <? _)%Z with false by (symmetry; apply Z.ltb_ge; exact Hmin).
    rewrite (np_array_inconsistent _ Hdim). reflexivity.
Qed.
End EarlyReturns.

Section EarlyReturnsAtInputs.
Import duplicate_detector samples.

Lemma dim1_dim2_inconsistent :
  ~ consistent_dimension (omap embedding [dim1; dim2]).
Proof.
  intros H. specialize (H [1] [1; 2]). cbn in H.
  assert (1 = 2)%nat by (apply H; auto). discriminate.
Qed.

Lemma detect_inconsistent_dimension_raises_witness :
  (min_cluster_size create_duplicate_detector
     <= Z.of_nat (length (omap embedding [dim1; dim2])))%Z
  /\ ~ consistent_dimension (omap embedding [dim1; dim2])
  /\ detect_duplicates_by_embedding single_cluster create_duplicate_detector
       [dim1; dim2] = Raise ValueError.
Proof.
  split; [cbn; lia | split; [exact dim1_dim2_inconsistent |]].
  apply (detect_inconsistent_dimension_raises single_cluster
           create_duplicate_detector [dim1; dim2]).
  - cbn; lia.
  - exact dim1_dim2_inconsistent.
Defined.

(** C9, as stated, does not hold: a batch with one embedding of dimension
    1 and one of dimension 2, given to a detector whose [min_cluster_size]
    is 3, is answered with the empty result and no error. *)
Lemma detect_inconsistent_dimension_returns :
  ~ consistent_dimension (omap embedding [dim1; dim2])
  /\ detect_duplicates_by_embedding single_cluster detector_of_three
       [dim1; dim2] = Ok empty_detection
  /\ forall e, detect_duplicates_by_embedding single_cluster detector_of_three
                 [dim1; dim2] <> Raise e.
Proof.
  assert (H : detect_duplicates_by_embedding single_cluster detector_of_three
                [dim1; dim2] = Ok empty_detection).
  { apply detect_below_min_cluster_size. cbn. lia. }
  split; [exact dim1_dim2_inconsistent | split; [exact H |]].
  intros e. rewrite H. discriminate.
Qed.

(** C8: the result for too few embeddings.  On the empty list, and on a
    list with fewer embeddings than [min_cluster_size], the function
    returns without raising and with empty [clusters] and [duplicates], but
    the dictionary has only those two keys: [noise_points] (with
    [n_clusters] and [n_noise]), which the full return path provides, is
    absent. *)
Theorem detect_too_few_has_no_noise_points :
  (forall fit_predict self,
      detect_duplicates_by_embedding fit_predict self []
      = Ok {| clusters := []; detected_duplicates := [];
              noise_points := None; n_clusters := None; n_noise := None |})
  /\ detect_duplicates_by_embedding single_cluster create_duplicate_detector
       [dim1]
     = Ok {| clusters := []; detected_duplicates := [];
             noise_points := None; n_clusters := None; n_noise := None |}.
Proof.
  split; [reflexivity|].
  apply detect_below_min_cluster_size. cbn. lia.
Qed.
End EarlyReturnsAtInputs.

(** ** The stable descending sort *)

Section SortFacts.
Context {A : Type} (key : A -> pyfloat).

Lemma insert_desc_perm x l : insert_desc key x l ≡ₚ x :: l.
Proof.
  induction l as [|y l IH]; cbn; [reflexivity|].
  destruct (py_lt (key x) (key y)); [|reflexivity].
  rewrite IH. apply Permutation_swap.
Qed.

Lemma sort_desc_perm l : sort_desc key l ≡ₚ l.
Proof.
  induction l as [|x l IH]; cbn; [reflexivity|].
  rewrite insert_desc_perm, IH. reflexivity.
Qed.

Lemma sort_desc_length l : length (sort_desc key l) = length l.
Proof. apply Permutation_length, sort_desc_perm. Qed.

Lemma sort_desc_In x l : In x (sort_desc key l) <-> In x l.
Proof.
  split; apply Permutation_in; [|symmetry]; apply sort_desc_perm.
Qed.

Lemma py_lt_spec a b :
  py_lt a b = true <-> exists x y, a = Num x /\ b = Num y /\ x < y.
Proof.
  unfold py_lt, py_gt. destruct a as [x|], b as [y|]; split;
    try (intros H; discriminate H);
    try (intros (x' & y' & H1 & H2 & _); discriminate).
  - intros H. apply Rgtb_spec in H. eauto.
  - intros (x' & y' & [= <-] & [= <-] & H). apply Rgtb_spec. exact H.
Qed.

Lemma key_ge_trans a b c : key_ge key a b -> key_ge key b c -> key_ge key a c.
Proof.
  intros (x & y & Hx & Hy & Hxy) (y' & z & Hy' & Hz & Hyz).
  rewrite Hy in Hy'. injection Hy' as <-.
  exists x, z. repeat split; try assumption. lra.
Qed.

Lemma insert_desc_sorted x l :
  is_num (key x) -> numeric key l ->
  StronglySorted (key_ge key) l -> StronglySorted (key_ge key) (insert_desc key x l).
Proof.
  intros Hx Hnum Hs. induction Hs as [|y l Hs IH Hy]; cbn.
  - repeat constructor.
  - inversion Hnum as [|? ? Hny Hnl]; subst.
    destruct (py_lt (key x) (key y)) eqn:E.
    + constructor; [apply IH; assumption|].
      apply (Permutation_Forall (x := x :: l)).
      * symmetry. apply insert_desc_perm.
      * constructor; [|exact Hy].
        apply py_lt_spec in E as (a & b & Ha & Hb & Hab).
        exists b, a. repeat split; try assumption. lra.
    + assert (Hxy : key_ge key x y).
      { destruct (key x) as [a|] eqn:Ea; [|destruct Hx].
        destruct (key y) as [b|] eqn:Eb; [|destruct Hny].
        exists a, b. split; [exact Ea | split; [exact Eb|]].
        destruct (Rle_dec b a) as [|Hn]; [assumption|].
        exfalso. assert (py_lt (Num a) (Num b) = true) as Ht.
        { apply py_lt_spec. exists a, b. split; [|split]; [reflexivity..|lra]. }
        rewrite Ht in E. discriminate. }
      constructor; [constructor; assumption|].
      constructor; [exact Hxy|].
      eapply Forall_impl; [exact Hy|].
      intros z Hz. eapply key_ge_trans; eassumption.
Qed.

(** On numeric keys the result is in descending order. *)
Lemma sort_desc_sorted l :
  numeric key l -> StronglySorted (key_ge key) (sort_desc key l).
Proof.
  induction l as [|x l IH]; intros Hnum; cbn; [constructor|].
  inversion Hnum; subst. apply insert_desc_sorted; auto.
  apply (Permutation_Forall (x := l)); [symmetry; apply sort_desc_perm | assumption].
Qed.

Lemma insert_desc_with_key s x l :
  with_key key s (insert_desc key x l) = with_key key s (x :: l).
Proof.
  induction l as [|y l IH]; [reflexivity|]. cbn [insert_desc].
  destruct (py_lt (key x) (key y)) eqn:E; [|reflexivity].
  unfold with_key in *. cbn [List.filter] in *. rewrite IH.
  apply py_lt_spec in E as (a & b & Ha & Hb & Hab).
  destruct (bool_decide (key x = s)) eqn:Ex; [|reflexivity].
  apply bool_decide_eq_true in Ex.
  replace (bool_decide (key y = s)) with false; [reflexivity|].
  symmetry. apply bool_decide_eq_false. intros Ey.
  rewrite <- Ex, Ha, Hb in Ey. injection Ey as ->. lra.
Qed.

Lemma sort_desc_stable s l : with_key key s (sort_desc key l) = with_key key s l.
Proof.
  induction l as [|x l IH]; [reflexivity|]. cbn [sort_desc].
  rewrite insert_desc_with_key. unfold with_key in *. cbn [List.filter].
  rewrite IH. reflexivity.
Qed.
End SortFacts.

Lemma py_slice_to_all {A} (l : list A) (k : Z) :
  (Z.of_nat (length l) <= k)%Z -> py_slice_to l k = l.
Proof.
  intros H. unfold py_slice_to.
  replace (k <? 0)%Z with false by (symmetry; apply Z.ltb_ge; lia).
  apply firstn_all2. lia.
Qed.

Lemma py_slice_to_prefix {A} (l : list A) (k : Z) :
  exists rest, l = py_slice_to l k ++ rest.
Proof.
  unfold py_slice_to. destruct (k <? 0)%Z;
    eexists; symmetry; apply firstn_skipn.
Qed.

(** ** Ranges of the signals *)

Section Signals.
Import recommender.

Lemma inter_size_le_union a b : (inter_size a b <= union_size a b)%nat.
Proof.
  unfold inter_size, union_size. apply subseteq_size.
  intros x Hx. apply elem_of_intersection in Hx as [Hx _].
  apply elem_of_union. left. exact Hx.
Qed.

Lemma Rinv_INR_nonneg (n : nat) : 0 <= / INR n.
Proof.
  destruct n as [|n]; [cbn; rewrite Rinv_0; lra|].
  left. apply Rinv_0_lt_compat. apply lt_0_INR. lia.
Qed.

Lemma ratio_range (i u : nat) :
  (i <= u)%nat ->
  0 <= (if bool_decide (0 < u)%nat then INR i / INR u else 0) <= 1.
Proof.
  intros Hiu. destruct (bool_decide (0 < u)%nat) eqn:Hu; [|lra].
  apply bool_decide_eq_true in Hu.
  assert (0 < INR u) by (apply lt_0_INR; exact Hu).
  assert (0 <= INR i) by apply pos_INR.
  assert (INR i <= INR u) by (apply le_INR; exact Hiu).
  assert (0 < / INR u) by (apply Rinv_0_lt_compat; assumption).
  assert (INR u * / INR u = 1) by (apply Rinv_r; lra).
  unfold Rdiv. split; nra.
Qed.

Lemma compute_graph_proximity_range qc cc qs cs g :
  path_length_ok g ->
  0 <= compute_graph_proximity qc cc qs cs g <= 1.
Proof.
  intros Hg. unfold compute_graph_proximity, path_length_ok in *.
  pose proof (ratio_range _ _ (inter_size_le_union qc cc)) as Hc.
  pose proof (ratio_range _ _ (inter_size_le_union qs cs)) as Hs.
  set (jc := if bool_decide (0 < union_size qc cc)%nat then _ else _) in *.
  set (js := if bool_decide (0 < union_size qs cs)%nat then _ else _) in *.
  assert (Hp : forall spl, 0 <= spl -> 0 <= 1 - Rmin (spl / 5) 1 <= 1).
  { intros spl Hspl. unfold Rmin. destruct (Rle_dec _ _); lra. }
  destruct (negb (is_empty qc) && negb (is_empty cc));
    destruct (negb (is_empty qs) && negb (is_empty cs));
    destruct (g ≫= shortest_path_length) as [spl|];
    try specialize (Hp spl Hg); unfold mean; cbn; lra.
Qed.

Lemma passed_count_le historical : (passed_count historical <= length historical)%nat.
Proof. unfold passed_count. apply filter_length_le. Qed.

Lemma pass_rate_range historical :
  historical <> [] ->
  0 <= INR (passed_count historical) / INR (length historical) <= 1.
Proof.
  intros Hne.
  assert (0 < length historical)%nat as Hlen.
  { destruct historical; [done | cbn; lia]. }
  pose proof (ratio_range _ _ (passed_count_le historical)) as H.
  rewrite bool_decide_eq_true_2 in H by exact Hlen. exact H.
Qed.

Lemma compute_historical_score_range c :
  0 <= compute_historical_score c <= 1.
Proof.
  unfold compute_historical_score.
  destruct (historical_results c) as [|h hs] eqn:E; [lra|].
  pose proof (pass_rate_range (h :: hs) ltac:(done)) as Hp.
  set (p := INR (passed_count (h :: hs)) / INR (length (h :: hs))) in *.
  assert (0 < INR (length (h :: hs))) by (apply lt_0_INR; cbn; lia).
  set (n := INR (length (h :: hs))) in *.
  unfold Rmin. destruct (Rle_dec (n / 10) 1); nra.
Qed.

Lemma regulatory_step_nonneg table standards acc system :
  0 <= fst acc -> 0 <= fst (regulatory_step table standards acc system).
Proof.
  intros H. unfold regulatory_step.
  destruct (table !! system) as [expected|]; [|exact H].
  destruct (is_empty _) eqn:E; [exact H|]. cbn.
  pose proof (ratio_range _ _
    (filter_length_le (fun s => mem s standards) expected)) as Hr.
  case_bool_decide as Hpos.
  - lra.
  - destruct expected; [discriminate E | cbn in Hpos; lia].
Qed.

Lemma rules_before_clipping_nonneg self q c :
  0 <= fst (rules_before_clipping self q c).
Proof.
  unfold rules_before_clipping.
  set (r1 := if mem _ _ then _ else _).
  assert (H1 : 0 <= fst r1) by (subst r1; destruct (mem _ _); cbn; lra).
  destruct r1 as [s1 f1].
  set (r2 := match platform_rules self !! platform q with
             | Some _ => _ | None => _ end).
  assert (H2 : 0 <= fst r2).
  { subst r2. destruct (platform_rules self !! platform q) as [table|]; [|exact H1].
    generalize (s1, f1) H1. induction (systems q) as [|x l IH]; intros acc Hacc;
      [exact Hacc|]. cbn. apply IH. apply regulatory_step_nonneg. exact Hacc. }
  destruct r2 as [s2 f2]. cbn in H2.
  set (r3 := if negb (is_empty (systems q)) && _ then _ else _).
  assert (H3 : 0 <= fst r3).
  { subst r3. destruct (_ && _); [|exact H2].
    case_bool_decide as Hov; [|exact H2]. cbn.
    assert (0 <= INR (inter_size (systems q) (target_systems c))
                 / INR (length (systems q))).
    { apply Rmult_le_pos; [apply pos_INR | apply Rinv_INR_nonneg]. }
    lra. }
  destruct r3 as [s3 f3]. cbn in H3.
  destruct (negb (is_empty (components q))); [|exact H3].
  case_bool_decide; cbn; lra.
Qed.

Lemma compute_rules_score_range self q c :
  0 <= fst (compute_rules_score self q c) <= 1.
Proof.
  unfold compute_rules_score.
  pose proof (rules_before_clipping_nonneg self q c) as H.
  destruct (rules_before_clipping self q c) as [s f]. cbn in *.
  unfold Rmin. destruct (Rle_dec s 1); lra.
Qed.
End Signals.

(** ** The final score *)

Section FinalScore.
Import recommender samples.

(** The weights of the ensemble, and their sum. *)
Lemma ensemble_weights p :
  weights (create_recommender p)
  = {| semantic := 0.4; graph := 0.3; rules := 0.2; historical := 0.1 |}
  /\ semantic (weights (create_recommender p))
     + graph (weights (create_recommender p))
     + rules (weights (create_recommender p))
     + historical (weights (create_recommender p)) = 1.
Proof. split; [reflexivity | cbn; lra]. Qed.

(** The score of one candidate, given its semantic signal. *)
Lemma score_candidate_value self q gd c s e :
  semantic_of self q c = Ok (Num s, e) ->
  exists r,
    score_candidate self q gd c = Ok r
    /\ score r
       = Num (semantic (weights self) * s
              + graph (weights self)
                * compute_graph_proximity (components q) (target_components c)
                    (systems q) (target_systems c)
                    (gd ≫= (fun g => g !! scenario_id c))
              + rules (weights self) * fst (compute_rules_score self q c)
              + historical (weights self) * compute_historical_score c)
    /\ scores_semantic (scores (explain r)) = e
    /\ rec_scenario_id r = scenario_id c.
Proof.
  intros Hs. unfold score_candidate. rewrite Hs. cbn.
  destruct (compute_rules_score self q c) as [rs fired]. cbn.
  eexists. split; [reflexivity|]. cbn. repeat split.
Qed.

(** With the graph data well formed, a final score that is a number lies
    between -0.4 and 1, and is not negative when the semantic signal is
    not. *)
Lemma final_score_range p q gd c r x :
  graph_data_ok gd ->
  score_candidate (create_recommender p) q gd c = Ok r ->
  score r = Num x ->
  -0.4 <= x <= 1
  /\ (scores_semantic (scores (explain r)) = None -> 0 <= x).
Proof.
  intros Hgd Hr Hx.
  pose proof (compute_graph_proximity_range (components q) (target_components c)
                (systems q) (target_systems c) _ (Hgd (scenario_id c))) as Hg.
  pose proof (compute_rules_score_range (create_recommender p) q c) as Hrules.
  pose proof (compute_historical_score_range c) as Hh.
  destruct (semantic_of (create_recommender p) q c) as [[sem e]|err] eqn:Es;
    [|unfold score_candidate in Hr; rewrite Es in Hr; discriminate].
  destruct sem as [s|].
  - destruct (score_candidate_value _ _ gd _ _ _ Es) as (r' & Hr' & Hs & He & _).
    rewrite Hr in Hr'. injection Hr' as <-. rewrite Hs in Hx.
    injection Hx as <-. cbn.
    assert (Hsem : -1 <= s <= 1 /\ (e = None -> s = 0)).
    { unfold semantic_of in Es.
      destruct (query_embedding _ q) as [qe|];
        [destruct (embedding c) as [ce|]|];
        try (injection Es as <- <-; split; [lra | reflexivity]).
      unfold compute_semantic_score in Es.
      destruct (similarity.cosine_similarity qe ce) as [[y|]|] eqn:Ec;
        cbn in Es; try discriminate.
      injection Es as <- <-. split; [|discriminate].
      apply (cosine_similarity_range _ _ _ Ec). }
    destruct Hsem as [Hs1 Hs0]. split; [lra|].
    rewrite He. intros Hnone. rewrite (Hs0 Hnone). lra.
  - exfalso. unfold score_candidate in Hr. rewrite Es in Hr. cbn in Hr.
    destruct (compute_rules_score _ q c). injection Hr as <-.
    cbn in Hx. discriminate.
Qed.

Lemma cosine_opposed :
  similarity.cosine_similarity [1] [-1] = Ok (Num (-1)).
Proof.
  unfold similarity.cosine_similarity, similarity.cosine_distance. cbn.
  destruct (decide _) as [_|]; [|done].
  destruct (Req_dec_T _ _) as [H|_]; [exfalso; lra|]. cbn.
  replace ((1 * 1 + 0) * (-1 * -1 + 0)) with (1 * 1) by lra.
  rewrite sqrt_square by lra. do 2 f_equal. lra.
Qed.

(** C1: the final score on a query embedding opposite to the candidate's.
    The weights are 0.4, 0.3, 0.2, 0.1 and add up to 1, but the semantic
    signal is a cosine and is -1 here, so that the final score,
    0.4 * (-1) + 0.3 * 0.5 + 0.2 * 0 + 0.1 * 0.5, is -0.2 and not in
    [[0, 1]]. *)
Theorem recommend_final_score_negative :
  exists r,
    recommend (create_recommender (Some unit_encoder)) described_query None
              [opposed] default_top_k = Ok [r]
    /\ scores_semantic (scores (explain r)) = Some (Num (-1))
    /\ score r = Num (-0.2)
    /\ ~ (exists x, score r = Num x /\ 0 <= x <= 1).
Proof.
  assert (Hsem : semantic_of (create_recommender (Some unit_encoder))
                   described_query opposed = Ok (Num (-1), Some (Num (-1)))).
  { unfold semantic_of, query_embedding, compute_semantic_score. cbn.
    unfold unit_encoder. rewrite cosine_opposed. reflexivity. }
  destruct (score_candidate_value _ _ None _ _ _ Hsem) as (r & Hr & Hscore & He & _).
  assert (Hval : score r = Num (-0.2)).
  { rewrite Hscore. f_equal. unfold compute_rules_score, rules_before_clipping.
    cbn. eval_steps. unfold Rmin. destruct (Rle_dec 0 1); lra. }
  exists r. repeat split.
  - unfold recommend. cbn [traverse]. rewrite Hr. reflexivity.
  - exact He.
  - exact Hval.
  - intros (x & Hx & Hrange). rewrite Hval in Hx. injection Hx as <-. lra.
Qed.
End FinalScore.

(** ** Loops whose body can raise *)

Lemma traverse_inv {A B} (f : A -> result B) l ys :
  traverse f l = Ok ys -> Forall2 (fun x y => f x = Ok y) l ys.
Proof.
  revert ys. induction l as [|x l IH]; intros ys H; cbn in H.
  - injection H as <-. constructor.
  - destruct (f x) as [y|e] eqn:Ex; cbn in H; [|discriminate].
    destruct (traverse f l) as [ys'|e] eqn:El; cbn in H; [|discriminate].
    injection H as <-. constructor; [exact Ex | apply IH; reflexivity].
Qed.

Lemma traverse_ok {A B} (f : A -> result B) l :
  Forall (fun x => exists y, f x = Ok y) l -> exists ys, traverse f l = Ok ys.
Proof.
  induction 1 as [|x l [y Hy] _ [ys Hys]]; cbn.
  - eexists; reflexivity.
  - rewrite Hy, Hys. eexists; reflexivity.
Qed.

(** ** recommend *)

Section RecommendOrder.
Import recommender samples.
Context {o : py_ops}.

Lemma cosine_similarity_number u v :
  length u = length v -> similarity.dot u u <> 0 -> similarity.dot v v <> 0 ->
  exists x, similarity.cosine_similarity u v = Ok (Num x).
Proof.
  intros Hlen Hu Hv. unfold similarity.cosine_similarity, similarity.cosine_distance.
  destruct (decide (length u = length v)); [|done].
  destruct (Req_dec_T _ _) as [H0|_].
  - apply Rmult_integral in H0 as [|]; contradiction.
  - cbn. eexists. reflexivity.
Qed.

Lemma semantic_of_number self q c :
  match query_embedding self q with
  | Some qe => comparable qe c
  | None => True
  end ->
  exists s e, semantic_of self q c = Ok (Num s, e).
Proof.
  unfold semantic_of, comparable, compute_semantic_score.
  destruct (query_embedding self q) as [qe|]; [|intros _; eauto].
  destruct (embedding c) as [e|]; [|intros _; eauto].
  intros (Hlen & Hq & He).
  destruct (cosine_similarity_number qe e Hlen Hq He) as [x Hx].
  rewrite Hx. cbn. eauto.
Qed.

Lemma score_candidate_number self q gd c :
  match query_embedding self q with
  | Some qe => comparable qe c
  | None => True
  end ->
  exists r, score_candidate self q gd c = Ok r /\ is_num (score r).
Proof.
  intros H. destruct (semantic_of_number self q c H) as (s & e & Hs).
  unfold score_candidate. rewrite Hs. cbn.
  destruct (compute_rules_score self q c) as [rs fired]. cbn.
  eexists. split; [reflexivity|]. exact I.
Qed.

Lemma recommend_empty self q gd top_k : recommend self q gd [] top_k = Ok [].
Proof.
  unfold recommend. cbn. unfold py_slice_to.
  destruct (top_k <? 0)%Z; rewrite firstn_nil; reflexivity.
Qed.

(** C6, as the code behaves, for every arithmetic of the interpreter.
    When the embeddings that are compared have the dimension of the query
    embedding and, like it, a norm that is not zero (so whenever there is
    no query embedding), [recommend] returns, without an error, the first
    [top_k] entries of a list that holds one recommendation per candidate,
    is in descending order of final score, and keeps recommendations of
    equal score in the order of their candidates; with [top_k] at least
    the number of candidates that whole list is returned, with as many
    entries as there are candidates; and an empty candidate list gives the
    empty list. *)
Theorem recommend_sorted_stable self q gd candidates top_k :
  embeddings_comparable self q candidates ->
  exists recs ranked,
    Forall2 (fun c r => score_candidate self q gd c = Ok r) candidates recs
    /\ ranked = sort_desc score recs
    /\ recommend self q gd candidates top_k = Ok (py_slice_to ranked top_k)
    /\ (exists rest, ranked = py_slice_to ranked top_k ++ rest)
    /\ StronglySorted (key_ge score) ranked
    /\ ranked ≡ₚ recs
    /\ (forall s, with_key score s ranked = with_key score s recs)
    /\ ((Z.of_nat (length candidates) <= top_k)%Z ->
        recommend self q gd candidates top_k = Ok ranked
        /\ length ranked = length candidates)
    /\ recommend self q gd [] top_k = Ok [].
Proof.
  intros Hwf.
  assert (Hall : Forall (fun c => exists r, score_candidate self q gd c = Ok r
                                            /\ is_num (score r)) candidates).
  { unfold embeddings_comparable in Hwf. apply Forall_forall. intros c Hc.
    apply score_candidate_number.
    destruct (query_embedding self q); [|exact I].
    rewrite Forall_forall in Hwf. apply Hwf, Hc. }
  destruct (traverse_ok (score_candidate self q gd) candidates) as [recs Hrecs].
  { eapply Forall_impl; [exact Hall|]. intros c (r & Hr & _). eauto. }
  pose proof (traverse_inv _ _ _ Hrecs) as Hrel.
  assert (Hnum : numeric score recs).
  { clear Hrecs Hwf. induction Hrel as [|c r cs rs Hcr _ IH]; [constructor|].
    inversion Hall as [|? ? (r' & Hr' & Hn) Hall']; subst.
    constructor; [|apply IH; exact Hall'].
    rewrite Hcr in Hr'. injection Hr' as <-. exact Hn. }
  assert (Hlen : length recs = length candidates).
  { symmetry. eapply Forall2_length. exact Hrel. }
  exists recs, (sort_desc score recs).
  assert (Hrun : recommend self q gd candidates top_k
                 = Ok (py_slice_to (sort_desc score recs) top_k)).
  { unfold recommend. rewrite Hrecs. reflexivity. }
  split; [exact Hrel|]. split; [reflexivity|]. split; [exact Hrun|].
  split; [apply py_slice_to_prefix|].
  split; [apply sort_desc_sorted; exact Hnum|].
  split; [apply sort_desc_perm|].
  split; [intros s; apply sort_desc_stable|].
  split; [|apply recommend_empty].
  intros Hk. rewrite sort_desc_length, Hlen. split; [|reflexivity].
  rewrite Hrun. f_equal. apply py_slice_to_all.
  rewrite sort_desc_length, Hlen. exact Hk.
Qed.
End RecommendOrder.

Section Recommend.
Import recommender samples.

(** Without a pipeline or without a ['description'] key there is no query
    embedding. *)
Lemma query_embedding_absent p q :
  p = None \/ description q = None ->
  query_embedding (create_recommender p) q = None.
Proof.
  unfold query_embedding. cbn. intros [-> | ->]; [reflexivity|].
  destruct p; reflexivity.
Qed.

Lemma opposed_comparable :
  embeddings_comparable (create_recommender (Some unit_encoder)) described_query
    [opposed; blank "A"].
Proof.
  unfold embeddings_comparable, query_embedding. cbn.
  constructor; [|constructor; [exact I | constructor]].
  unfold comparable, unit_encoder. cbn. repeat split; lra.
Qed.

Lemma recommend_sorted_stable_witness :
  embeddings_comparable (create_recommender (Some unit_encoder)) described_query
    [opposed; blank "A"]
  /\ exists recs ranked,
    Forall2 (fun c r => score_candidate (create_recommender (Some unit_encoder))
                          described_query None c = Ok r)
            [opposed; blank "A"] recs
    /\ ranked = sort_desc score recs
    /\ recommend (create_recommender (Some unit_encoder)) described_query None
         [opposed; blank "A"] 10 = Ok ranked
    /\ length ranked = 2%nat
    /\ StronglySorted (key_ge score) ranked
    /\ ranked ≡ₚ recs
    /\ (forall s, with_key score s ranked = with_key score s recs).
Proof.
  split; [exact opposed_comparable|].
  destruct (recommend_sorted_stable (create_recommender (Some unit_encoder))
              described_query None [opposed; blank "A"] 10 opposed_comparable)
    as (recs & ranked & Hrel & Hranked & _ & _ & Hsorted & Hperm & Hstable & Hall & _).
  destruct (Hall ltac:(cbn; lia)) as [Hrun Hlen].
  exists recs, ranked. repeat split; assumption.
Defined.

(** The scores of three candidates on a query whose embedding is [[1]]:
    an opposite embedding, an embedding of norm zero, no embedding. *)
Lemma scores_of_three :
  exists r1 r2 r3,
    score_candidate (create_recommender (Some unit_encoder)) described_query
      None opposed = Ok r1
    /\ score_candidate (create_recommender (Some unit_encoder)) described_query
         None null_vector = Ok r2
    /\ score_candidate (create_recommender (Some unit_encoder)) described_query
         None (blank "A") = Ok r3
    /\ score r1 = Num (-0.2) /\ score r2 = NaN /\ score r3 = Num 0.2.
Proof.
  assert (Hnull : similarity.cosine_similarity [1] [0] = Ok NaN).
  { unfold similarity.cosine_similarity, similarity.cosine_distance. cbn.
    destruct (decide _) as [_|]; [|done].
    destruct (Req_dec_T _ _) as [_|H]; [reflexivity | exfalso; apply H; lra]. }
  assert (H1 : semantic_of (create_recommender (Some unit_encoder))
                 described_query opposed = Ok (Num (-1), Some (Num (-1)))).
  { unfold semantic_of, query_embedding, compute_semantic_score. cbn.
    unfold unit_encoder. rewrite cosine_opposed. reflexivity. }
  assert (H3 : semantic_of (create_recommender (Some unit_encoder))
                 described_query (blank "A") = Ok (Num 0, None)) by reflexivity.
  destruct (score_candidate_value _ _ None _ _ _ H1) as (r1 & Hr1 & Hs1 & _).
  destruct (score_candidate_value _ _ None _ _ _ H3) as (r3 & Hr3 & Hs3 & _).
  assert (Hr2 : exists r2,
             score_candidate (create_recommender (Some unit_encoder))
               described_query None null_vector = Ok r2 /\ score r2 = NaN).
  { unfold score_candidate, semantic_of, query_embedding, compute_semantic_score.
    cbn [create_recommender embedding_pipeline description described_query
         name embedding null_vector].
    change (unit_encoder "q") with [1]. rewrite Hnull. cbn.
    destruct (compute_rules_score _ described_query null_vector). cbn.
    eexists. split; reflexivity. }
  destruct Hr2 as (r2 & Hr2 & Hs2).
  exists r1, r2, r3. split; [exact Hr1|]. split; [exact Hr2|]. split; [exact Hr3|].
  split; [|split; [exact Hs2|]].
  - rewrite Hs1. f_equal. unfold compute_rules_score, rules_before_clipping.
    cbn. eval_steps. unfold Rmin. destruct (Rle_dec 0 1); lra.
  - rewrite Hs3. f_equal. unfold compute_rules_score, rules_before_clipping.
    cbn. eval_steps. unfold Rmin. destruct (Rle_dec 0 1); lra.
Qed.

(** C6, as stated, does not hold.  With a query embedding of dimension 1
    and a candidate embedding of dimension 2, [recommend] raises a
    ValueError, [top_k] being larger than the number of candidates.  And
    when the second of three candidates has an embedding of norm zero, the
    list returned carries the final scores -0.2, NaN, 0.2 in this order,
    which is not descending. *)
Lemma recommend_raises_and_returns_unsorted :
  recommend (create_recommender (Some unit_encoder)) described_query None
    [dim2] 10 = Raise ValueError
  /\ exists r1 r2 r3,
       recommend (create_recommender (Some unit_encoder)) described_query None
         [opposed; null_vector; blank "A"] 10 = Ok [r1; r2; r3]
       /\ score r1 = Num (-0.2) /\ score r2 = NaN /\ score r3 = Num 0.2
       /\ ~ StronglySorted (key_ge score) [r1; r2; r3].
Proof.
  split.
  - unfold recommend, score_candidate, semantic_of, query_embedding,
      compute_semantic_score.
    cbn [traverse create_recommender embedding_pipeline description
         described_query name embedding dim2 unit_encoder].
    unfold similarity.cosine_similarity, similarity.cosine_distance.
    destruct (decide _) as [Hlen|_]; [cbn in Hlen; lia | reflexivity].
  - destruct scores_of_three as (r1 & r2 & r3 & H1 & H2 & H3 & Hs1 & Hs2 & Hs3).
    exists r1, r2, r3. split; [|split; [exact Hs1 | split; [exact Hs2|]]].
    + unfold recommend. cbn [traverse]. rewrite H1, H2, H3.
      cbn [mbind result_bind sort_desc insert_desc].
      rewrite Hs2, Hs3. unfold py_lt at 1. cbn [py_gt insert_desc].
      rewrite Hs1, Hs2. unfold py_lt. cbn [py_gt]. reflexivity.
    + split; [exact Hs3|]. intros Hsorted.
      inversion Hsorted as [|? ? _ Hhead]; subst.
      inversion Hhead as [|? ? (x & y & _ & Hy & _) _]; subst.
      rewrite Hs2 in Hy. discriminate.
Qed.

(** The score of the candidate ["A"] on the empty query, when the graph
    data give it a path length of -10. *)
Lemma negative_path_score :
  exists r,
    score_candidate (create_recommender None) blank_query (Some negative_path)
      (blank "A") = Ok r
    /\ scores_semantic (scores (explain r)) = None
    /\ scores_graph (scores (explain r)) = 3
    /\ score r = Num 0.95.
Proof.
  assert (Hs : semantic_of (create_recommender None) blank_query (blank "A")
               = Ok (Num 0, None)) by reflexivity.
  destruct (score_candidate_value _ _ (Some negative_path) _ _ _ Hs)
    as (r & Hr & Hscore & He & _).
  assert (Hg : compute_graph_proximity (components blank_query)
                 (target_components (blank "A")) (systems blank_query)
                 (target_systems (blank "A"))
                 (Some negative_path ≫= (fun g => g !! scenario_id (blank "A")))
               = 3).
  { unfold compute_graph_proximity, negative_path. cbn. eval_steps.
    unfold mean, Rmin. cbn. destruct (Rle_dec _ _); lra. }
  exists r. split; [exact Hr|]. split; [exact He|]. split.
  - unfold score_candidate in Hr. rewrite Hs in Hr. cbn in Hr.
    destruct (compute_rules_score _ blank_query (blank "A")).
    injection Hr as <-. cbn [scores_graph scores explain]. exact Hg.
  - rewrite Hscore, Hg. f_equal.
    unfold compute_rules_score, rules_before_clipping.
    cbn. eval_steps. unfold Rmin. destruct (Rle_dec 0 1); lra.
Qed.

(** C10: no query embedding.  When the recommender has no pipeline, or the
    query has no ['description'] key, every candidate gets the semantic
    score 0 (and no ['semantic'] entry is written), and the result does
    not depend on an embedding placed in the query.  [recommend] then
    returns, without an error, the first [top_k] entries of the sorted
    list of one recommendation per candidate, each with the final score
    0.4 * 0 + 0.3 * graph + 0.2 * rules + 0.1 * historical of its
    candidate's signals.  And, when the path lengths in the graph data are
    not negative, each final score returned is at most
    0.3 + 0.2 + 0.1 = 0.6. *)
Theorem recommend_without_query_embedding p q gd candidates top_k :
  p = None \/ description q = None ->
  (forall c, semantic_of (create_recommender p) q c = Ok (Num 0, None))
  /\ (forall e,
        recommend (create_recommender p) (with_embedding q e) gd candidates top_k
        = recommend (create_recommender p) q gd candidates top_k)
  /\ (exists recs,
        Forall2 (fun c r =>
                   score_candidate (create_recommender p) q gd c = Ok r
                   /\ rec_scenario_id r = scenario_id c
                   /\ scores_semantic (scores (explain r)) = None
                   /\ score r
                      = Num (0.4 * 0
                             + 0.3 * compute_graph_proximity
                                       (components q) (target_components c)
                                       (systems q) (target_systems c)
                                       (gd ≫= (fun g => g !! scenario_id c))
                             + 0.2 * fst (compute_rules_score
                                            (create_recommender p) q c)
                             + 0.1 * compute_historical_score c)
                   /\ (graph_data_ok gd ->
                       exists x, score r = Num x /\ x <= 0.6))
                candidates recs
        /\ recommend (create_recommender p) q gd candidates top_k
           = Ok (py_slice_to (sort_desc score recs) top_k)
        /\ ((Z.of_nat (length candidates) <= top_k)%Z ->
            recommend (create_recommender p) q gd candidates top_k
            = Ok (sort_desc score recs)
            /\ sort_desc score recs ≡ₚ recs
            /\ length (sort_desc score recs) = length candidates))
  /\ (graph_data_ok gd ->
      exists out,
        recommend (create_recommender p) q gd candidates top_k = Ok out
        /\ Forall (fun r => scores_semantic (scores (explain r)) = None
                            /\ exists x, score r = Num x /\ x <= 0.3 + 0.2 + 0.1
                                         /\ x <= 0.6) out).
Proof.
  intros Hp. pose proof (query_embedding_absent p q Hp) as Hq.
  assert (Hsem : forall c, semantic_of (create_recommender p) q c
                           = Ok (Num 0, None)).
  { intros c. unfold semantic_of. rewrite Hq. reflexivity. }
  split; [exact Hsem|]. split; [intros e; reflexivity|].
  assert (Hone : forall c, exists r,
             score_candidate (create_recommender p) q gd c = Ok r
             /\ rec_scenario_id r = scenario_id c
             /\ scores_semantic (scores (explain r)) = None
             /\ score r
                = Num (0.4 * 0
                       + 0.3 * compute_graph_proximity
                                 (components q) (target_components c)
                                 (systems q) (target_systems c)
                                 (gd ≫= (fun g => g !! scenario_id c))
                       + 0.2 * fst (compute_rules_score (create_recommender p) q c)
                       + 0.1 * compute_historical_score c)
             /\ (graph_data_ok gd ->
                 exists x, score r = Num x /\ x <= 0.3 + 0.2 + 0.1 /\ x <= 0.6)).
  { intros c.
    destruct (score_candidate_value _ _ gd _ _ _ (Hsem c))
      as (r & Hr & Hs & He & Hid).
    exists r. split; [exact Hr|]. split; [exact Hid|]. split; [exact He|].
    split; [exact Hs|]. intros Hgd.
    eexists. split; [exact Hs|]. cbn.
    pose proof (compute_graph_proximity_range (components q) (target_components c)
                  (systems q) (target_systems c) _ (Hgd (scenario_id c))).
    pose proof (compute_rules_score_range (create_recommender p) q c).
    pose proof (compute_historical_score_range c).
    split; lra. }
  destruct (traverse_ok (score_candidate (create_recommender p) q gd) candidates)
    as [recs Hrecs].
  { apply Forall_forall. intros c _. destruct (Hone c) as (r & Hr & _). eauto. }
  assert (Hrun : recommend (create_recommender p) q gd candidates top_k
                 = Ok (py_slice_to (sort_desc score recs) top_k))
    by (unfold recommend; rewrite Hrecs; reflexivity).
  pose proof (traverse_inv _ _ _ Hrecs) as Hrel.
  assert (Hlen : length recs = length candidates)
    by (symmetry; eapply Forall2_length; exact Hrel).
  split.
  { exists recs. split; [|split; [exact Hrun|]].
    - clear Hrecs Hrun Hlen.
      induction Hrel as [|c r cs rs Hcr _ IH]; constructor; [|exact IH].
      destruct (Hone c) as (r' & Hr' & Hid & He & Hs & Hbound).
      rewrite Hcr in Hr'. injection Hr' as <-.
      split; [exact Hcr|]. split; [exact Hid|]. split; [exact He|].
      split; [exact Hs|]. intros Hgd.
      destruct (Hbound Hgd) as (x & Hx & _ & Hle).
      exists x. split; [exact Hx | exact Hle].
    - intros Hk. rewrite sort_desc_length, Hlen.
      split; [|split; [apply sort_desc_perm | reflexivity]].
      rewrite Hrun. f_equal. apply py_slice_to_all.
      rewrite sort_desc_length, Hlen. exact Hk. }
  intros Hgd.
  exists (py_slice_to (sort_desc score recs) top_k).
  split; [exact Hrun|].
  assert (Hrecs_ok : Forall (fun r => scores_semantic (scores (explain r)) = None
             /\ exists x, score r = Num x /\ x <= 0.3 + 0.2 + 0.1 /\ x <= 0.6) recs).
  { clear Hrecs Hrun Hlen.
    induction Hrel as [|c r cs rs Hcr _ IH]; constructor; [|exact IH].
    destruct (Hone c) as (r' & Hr' & _ & He & _ & Hprop). rewrite Hcr in Hr'.
    injection Hr' as <-. split; [exact He | exact (Hprop Hgd)]. }
  assert (Hsorted : Forall (fun r => scores_semantic (scores (explain r)) = None
             /\ exists x, score r = Num x /\ x <= 0.3 + 0.2 + 0.1 /\ x <= 0.6)
             (sort_desc score recs)).
  { eapply Permutation_Forall; [symmetry; apply sort_desc_perm | exact Hrecs_ok]. }
  destruct (py_slice_to_prefix (sort_desc score recs) top_k) as [rest Hrest].
  rewrite Hrest in Hsorted. apply Forall_app in Hsorted as [H _]. exact H.
Qed.

Lemma recommend_without_query_embedding_witness :
  (@None (string -> list R) = None \/ description ev_battery_query = None)
  /\ graph_data_ok None
  /\ exists r,
       recommend (create_recommender None) ev_battery_query None
                 [battery_thermal] 10 = Ok [r]
       /\ rec_scenario_id r = "TEST-001"
       /\ scores_semantic (scores (explain r)) = None
       /\ (exists x, score r = Num x /\ x <= 0.6)
       /\ forall e,
            recommend (create_recommender None)
                      (with_embedding ev_battery_query e) None
                      [battery_thermal] 10 = Ok [r].
Proof.
  split; [left; reflexivity|]. split; [intros sid; exact I|].
  destruct (recommend_without_query_embedding None ev_battery_query None
              [battery_thermal] 10 (or_introl eq_refl))
    as (_ & Hsame & (recs & Hrel & _ & Hall) & _).
  destruct (Hall ltac:(cbn; lia)) as (Hrun & _ & _).
  inversion Hrel as [|c r cs rs (Hr & Hid & He & _ & Hx) Hrest]; subst.
  inversion Hrest; subst. cbn [sort_desc insert_desc] in Hrun.
  exists r. split; [exact Hrun|]. split; [exact Hid|]. split; [exact He|].
  split; [exact (Hx (fun sid => I))|]. intros e. rewrite Hsame. exact Hrun.
Defined.

(** C10, as stated, does not hold.  Without a pipeline, a candidate for
    which the graph data give the path length -10 has the graph signal
    1 - min(-10 / 5, 1) = 3, and [recommend] returns it with the semantic
    score 0 and the final score 0.3 * 3 + 0.2 * 0 + 0.1 * 0.5 = 0.95,
    above 0.6. *)
Lemma negative_path_length_exceeds_bound :
  exists r,
    recommend (create_recommender None) blank_query (Some negative_path)
      [blank "A"] 10 = Ok [r]
    /\ scores_semantic (scores (explain r)) = None
    /\ scores_graph (scores (explain r)) = 3
    /\ score r = Num 0.95
    /\ ~ (exists x, score r = Num x /\ x <= 0.6).
Proof.
  destruct negative_path_score as (r & Hr & He & Hg & Hs).
  exists r. split; [|split; [exact He | split; [exact Hg | split; [exact Hs|]]]].
  - unfold recommend. cbn [traverse]. rewrite Hr. reflexivity.
  - intros (x & Hx & Hle). rewrite Hs in Hx. injection Hx as <-. lra.
Qed.
End Recommend.

(** ** The canonical member of a cluster *)

Section Canonical.
Import duplicate_detector.
Context {o : py_ops}.

Lemma canonical_score_nonneg s : 0 <= canonical_score s.
Proof.
  unfold canonical_score.
  pose proof (pos_INR (length (historical_results s))).
  pose proof (pos_INR (length (target_components s))).
  assert (Hrate : 0 <= match historical_results s with
                       | [] => 0.5
                       | _ => fdiv (INR (passed_count (historical_results s)))
                                   (INR (length (historical_results s)))
                       end).
  { destruct (historical_results s) as [|h hs]; [lra|].
    apply fdiv_nonneg; [apply pos_INR | apply lt_0_INR; cbn; lia]. }
  apply fadd_nonneg; [apply fadd_nonneg|]; apply fmul_nonneg; try assumption;
    apply flit_nonneg; lra.
Qed.

(** The state after the loop over [l], entered with [(b, bs)]: either no
    member beat [bs] and the state is unchanged, or the result is the first
    member of [l] that carries the largest score. *)
Lemma canonical_fold l : forall b bs out,
  out = fold_left canonical_step l (b, bs) ->
  (out = (b, bs) /\ forall m, In m l -> canonical_score m <= bs)
  \/ (snd out = canonical_score (fst out) /\ bs < canonical_score (fst out)
      /\ exists before after,
           l = before ++ fst out :: after
           /\ (forall m, In m before -> canonical_score m < canonical_score (fst out))
           /\ (forall m, In m after -> canonical_score m <= canonical_score (fst out))).
Proof.
  induction l as [|x l IH]; intros b bs out Hout; cbn [fold_left] in Hout.
  - left. split; [exact Hout | intros m []].
  - assert (Hstep : canonical_step (b, bs) x
                    = if Rgtb (canonical_score x) bs then (x, canonical_score x)
                      else (b, bs)) by reflexivity.
    rewrite Hstep in Hout. clear Hstep.
    destruct (Rgtb (canonical_score x) bs) eqn:E.
    + apply Rgtb_spec in E.
      destruct (IH x (canonical_score x) out Hout)
        as [[Heq Hall] | (Hs & Hlt & l1 & l2 & Hl & H1 & H2)].
      * right. rewrite Heq. cbn. split; [reflexivity|]. split; [exact E|].
        exists [], l. split; [reflexivity|]. split; [intros m []|exact Hall].
      * right. split; [exact Hs|]. split; [lra|].
        exists (x :: l1), l2. split; [cbn; f_equal; exact Hl|].
        split; [|exact H2]. intros m [<-|Hm]; [exact Hlt | apply H1, Hm].
    + assert (canonical_score x <= bs) as Hx.
      { destruct (Rle_dec (canonical_score x) bs); [assumption|].
        rewrite Rgtb_true in E by lra. discriminate. }
      destruct (IH b bs out Hout)
        as [[Heq Hall] | (Hs & Hlt & l1 & l2 & Hl & H1 & H2)].
      * left. split; [exact Heq|]. intros m [<-|Hm]; [exact Hx | apply Hall, Hm].
      * right. split; [exact Hs|]. split; [exact Hlt|].
        exists (x :: l1), l2. split; [cbn; f_equal; exact Hl|].
        split; [|exact H2]. intros m [<-|Hm]; [lra | apply H1, Hm].
Qed.

(** On a non-empty cluster [_select_canonical] returns the first member
    with the maximal score. *)
Lemma select_canonical_first_max scenarios :
  scenarios <> [] ->
  exists cn before after,
    _select_canonical scenarios = Some cn
    /\ scenarios = before ++ cn :: after
    /\ (forall m, In m before -> canonical_score m < canonical_score cn)
    /\ (forall m, In m after -> canonical_score m <= canonical_score cn).
Proof.
  intros Hne. destruct scenarios as [|s0 rest]; [done|].
  unfold _select_canonical.
  destruct (canonical_fold (s0 :: rest) s0 (-1) _ eq_refl)
    as [[_ Hall] | (_ & _ & l1 & l2 & Hl & H1 & H2)].
  - exfalso. pose proof (Hall s0 (or_introl eq_refl)).
    pose proof (canonical_score_nonneg s0). lra.
  - eexists _, l1, l2. split; [reflexivity|]. split; [exact Hl|].
    split; assumption.
Qed.

(** The canonical scenario is a member, whatever the scores. *)
Lemma select_canonical_member scenarios cn :
  _select_canonical scenarios = Some cn -> In cn scenarios.
Proof.
  destruct scenarios as [|s0 rest]; [discriminate|].
  unfold _select_canonical.
  remember (fold_left canonical_step (s0 :: rest) (s0, -1)) as out eqn:Hout.
  intros [= <-].
  destruct (canonical_fold (s0 :: rest) s0 (-1) out Hout)
    as [[Heq _] | (_ & _ & l1 & l2 & Hl & _)].
  - rewrite Heq. left. reflexivity.
  - rewrite Hl. apply in_app_iff. right. left. reflexivity.
Qed.

Lemma select_canonical_max scenarios cn :
  _select_canonical scenarios = Some cn ->
  In cn scenarios
  /\ forall m, In m scenarios -> canonical_score m <= canonical_score cn.
Proof.
  intros H. destruct scenarios as [|s0 rest] eqn:E; [discriminate|].
  destruct (select_canonical_first_max (s0 :: rest) ltac:(done))
    as (cn' & l1 & l2 & Hsel & Hl & H1 & H2).
  rewrite Hsel in H. injection H as <-. rewrite Hl. split.
  - apply in_app_iff. right. left. reflexivity.
  - intros m Hm. apply in_app_iff in Hm as [Hm | [<- | Hm]].
    + left. apply H1, Hm.
    + lra.
    + apply H2, Hm.
Qed.
End Canonical.

(** ** Clusters, noise and duplicate groups *)

Section Groups.
Import duplicate_detector.
Context {o : py_ops}.
Variable self : DuplicateDetector.

Lemma cluster_duplicates_In cn l d :
  In d (cluster_duplicates self cn l) <->
  exists s, In s l /\ scenario_id s <> scenario_id cn
            /\ similarity_threshold self <= overall (_compute_detailed_similarity cn s)
            /\ d = mk_duplicate cn s.
Proof.
  induction l as [|x l IH]; cbn [cluster_duplicates In].
  - split; [intros [] | intros (s & [] & _)].
  - case_bool_decide as Hid.
    + rewrite IH. split.
      * intros (s & Hs & H). exists s. split; [right; exact Hs | exact H].
      * intros (s & [<-|Hs] & Hne & H); [contradiction|]. exists s. auto.
    + destruct (Rgeb _ _) eqn:E.
      * apply Rgeb_spec in E. cbn [In]. rewrite IH. split.
        -- intros [<- | (s & Hs & H)]; [exists x; auto|].
           exists s. split; [right; exact Hs | exact H].
        -- intros (s & [<-|Hs] & Hne & Hge & ->); [left; reflexivity|].
           right. exists s. auto.
      * assert (~ similarity_threshold self
                    <= overall (_compute_detailed_similarity cn x)) as Hlt.
        { intros Hge. apply Rgeb_spec in Hge. rewrite Hge in E. discriminate. }
        rewrite IH. split.
        -- intros (s & Hs & H). exists s. split; [right; exact Hs | exact H].
        -- intros (s & [<-|Hs] & Hne & Hge & Hd); [contradiction|].
           exists s. auto.
Qed.

Lemma identify_inv cl : forall gs,
  _identify_duplicates_in_clusters self cl = Ok gs ->
  forall g, In g gs ->
  exists c cn, In c cl /\ cluster_canonical c = Some cn /\ group_of self c cn g.
Proof.
  induction cl as [|c cl IH]; intros gs H g Hg; cbn in H.
  - injection H as <-. destruct Hg.
  - case_bool_decide as Hlen.
    + destruct (IH gs H g Hg) as (c' & cn & Hc' & Hrest).
      exists c', cn. split; [right; exact Hc' | exact Hrest].
    + destruct (cluster_canonical c) as [cn|] eqn:Ecn; [|discriminate].
      destruct (_identify_duplicates_in_clusters self cl) as [gs'|e];
        cbn in H; [|discriminate].
      destruct (cluster_duplicates self cn (cluster_scenarios c)) as [|d ds] eqn:Ecd.
      * injection H as <-.
        destruct (IH gs' eq_refl g Hg) as (c' & cn' & Hc' & Hrest).
        exists c', cn'. split; [right; exact Hc' | exact Hrest].
      * injection H as <-. destruct Hg as [<- | Hg].
        -- exists c, cn. split; [left; reflexivity|]. split; [exact Ecn|].
           repeat split. cbn. symmetry. exact Ecd.
        -- destruct (IH gs' eq_refl g Hg) as (c' & cn' & Hc' & Hrest).
           exists c', cn'. split; [right; exact Hc' | exact Hrest].
Qed.

Lemma identify_complete cl : forall gs,
  _identify_duplicates_in_clusters self cl = Ok gs ->
  forall c cn, In c cl -> (2 <= length (cluster_scenarios c))%nat ->
  cluster_canonical c = Some cn ->
  cluster_duplicates self cn (cluster_scenarios c) <> [] ->
  exists g, In g gs /\ group_of self c cn g.
Proof.
  induction cl as [|c0 cl IH]; intros gs H c cn Hc Hlen Hcn Hne; [destruct Hc|].
  cbn in H. case_bool_decide as Hlen0.
  - destruct Hc as [-> | Hc]; [lia|]. eapply IH; eassumption.
  - destruct (cluster_canonical c0) as [cn0|] eqn:Ecn; [|discriminate].
    destruct (_identify_duplicates_in_clusters self cl) as [gs'|e];
      cbn in H; [|discriminate].
    destruct Hc as [-> | Hc].
    + rewrite Hcn in Ecn. injection Ecn as <-.
      destruct (cluster_duplicates self cn (cluster_scenarios c)) as [|d ds] eqn:Ecd;
        [done|].
      injection H as <-. eexists. split; [left; reflexivity|].
      repeat split. cbn. symmetry. exact Ecd.
    + destruct (IH gs' eq_refl c cn Hc Hlen Hcn Hne) as (g & Hg & Hgrp).
      exists g. split; [|exact Hgrp].
      destruct (cluster_duplicates self cn0 (cluster_scenarios c0));
        injection H as <-; [exact Hg | right; exact Hg].
Qed.

Lemma identify_ok cl :
  (forall c, In c cl -> cluster_canonical c <> None) ->
  exists gs, _identify_duplicates_in_clusters self cl = Ok gs.
Proof.
  induction cl as [|c cl IH]; intros Hcn; cbn; [eauto|].
  destruct IH as [gs Hgs]; [intros c' Hc'; apply Hcn; right; exact Hc'|].
  case_bool_decide; [eauto|].
  destruct (cluster_canonical c) as [cn|] eqn:E;
    [|exfalso; apply (Hcn c); [left; reflexivity | exact E]].
  rewrite Hgs. cbn. destruct (cluster_duplicates _ _ _); eauto.
Qed.
End Groups.

Section Organize.
Import duplicate_detector.

Lemma dict_append_In label s d l ms m :
  In (l, ms) (dict_append label s d) -> In m ms ->
  (exists ms0, In (l, ms0) d /\ In m ms0) \/ (l = label /\ m = s).
Proof.
  induction d as [|[l0 ms0] d IH]; cbn.
  - intros [[= <- <-] | []] [<- | []]. right. split; reflexivity.
  - case_bool_decide as El.
    + intros [[= <- <-] | Hin] Hm.
      * apply in_app_iff in Hm as [Hm | [<- | []]].
        -- left. exists ms0. split; [left; reflexivity | exact Hm].
        -- right. split; [exact El | reflexivity].
      * left. exists ms. split; [right; exact Hin | exact Hm].
    + intros [[= <- <-] | Hin] Hm.
      * left. exists ms0. split; [left; reflexivity | exact Hm].
      * destruct (IH Hin Hm) as [(ms1 & H1 & H2) | H]; [|right; exact H].
        left. exists ms1. split; [right; exact H1 | exact H2].
Qed.

Lemma dict_append_nonempty label s d :
  Forall (fun item => snd item <> []) d ->
  Forall (fun item => snd item <> []) (dict_append label s d).
Proof.
  induction 1 as [|[l0 ms0] d Hne Hd IH]; cbn.
  - constructor; [discriminate | constructor].
  - case_bool_decide.
    + constructor; [|exact Hd]. cbn. destruct ms0; discriminate.
    + constructor; [exact Hne | exact IH].
Qed.

(** What [organize] puts where: a cluster member is a scenario whose label
    is the cluster's and is not -1; a noise point is one labelled -1. *)
Lemma organize_inv labels valid : forall idx d noise d' noise',
  organize idx labels valid d noise = Ok (d', noise') ->
  (forall l ms m, In (l, ms) d' -> In m ms ->
     (exists ms0, In (l, ms0) d /\ In m ms0)
     \/ exists i, labels !! i = Some l /\ l <> (-1)%Z
                  /\ valid !! (idx + i)%nat = Some m)
  /\ (forall s, In s noise' ->
        In s noise
        \/ exists i, labels !! i = Some (-1)%Z /\ valid !! (idx + i)%nat = Some s)
  /\ (forall i s, labels !! i = Some (-1)%Z -> valid !! (idx + i)%nat = Some s ->
        In s noise')
  /\ (forall s, In s noise -> In s noise')
  /\ (Forall (fun item => snd item <> []) d ->
      Forall (fun item => snd item <> []) d').
Proof.
  induction labels as [|label labels IH]; intros idx d noise d' noise' H; cbn in H.
  - injection H as <- <-.
    split; [intros l ms m Hin Hm; left; eauto|].
    split; [intros s Hs; left; exact Hs|].
    split; [intros i s Hi; rewrite lookup_nil in Hi; discriminate|].
    split; [intros s Hs; exact Hs | intros Hd; exact Hd].
  - destruct (valid !! idx) as [s0|] eqn:Es0; [|discriminate].
    case_bool_decide as Elab.
    + destruct (IH _ _ _ _ _ H) as (Hm & Hn & Hc & Hk & Hne).
      split; [|split; [|split; [|split]]].
      * intros l ms m Hin Hin'. destruct (Hm l ms m Hin Hin') as [Hold | (i & Hi & Hl & Hv)];
          [left; exact Hold|].
        right. exists (S i). cbn. split; [exact Hi|]. split; [exact Hl|].
        rewrite <- Hv. f_equal. lia.
      * intros s Hs. destruct (Hn s Hs) as [Hold | (i & Hi & Hv)].
        -- apply in_app_iff in Hold as [Hold | [<- | []]]; [left; exact Hold|].
           right. exists 0%nat. cbn. split; [f_equal; exact Elab|].
           rewrite Nat.add_0_r. exact Es0.
        -- right. exists (S i). cbn. split; [exact Hi|].
           rewrite <- Hv. f_equal. lia.
      * intros [|i] s Hi Hv; cbn in Hi.
        -- apply Hk. apply in_app_iff. right. left.
           rewrite Nat.add_0_r, Es0 in Hv. injection Hv as <-. reflexivity.
        -- apply (Hc i s Hi). rewrite <- Hv. f_equal. lia.
      * intros s Hs. apply Hk. apply in_app_iff. left. exact Hs.
      * exact Hne.
    + destruct (IH _ _ _ _ _ H) as (Hm & Hn & Hc & Hk & Hne).
      split; [|split; [|split; [|split]]].
      * intros l ms m Hin Hin'.
        destruct (Hm l ms m Hin Hin') as [(ms0 & H0 & H0') | (i & Hi & Hl & Hv)].
        -- destruct (dict_append_In _ _ _ _ _ _ H0 H0') as [Hold | [-> ->]];
             [left; exact Hold|].
           right. exists 0%nat. cbn. split; [reflexivity|]. split; [exact Elab|].
           rewrite Nat.add_0_r. exact Es0.
        -- right. exists (S i). cbn. split; [exact Hi|]. split; [exact Hl|].
           rewrite <- Hv. f_equal. lia.
      * intros s Hs. destruct (Hn s Hs) as [Hold | (i & Hi & Hv)]; [left; exact Hold|].
        right. exists (S i). cbn. split; [exact Hi|].
        rewrite <- Hv. f_equal. lia.
      * intros [|i] s Hi Hv; cbn in Hi.
        -- injection Hi as ->. contradiction.
        -- apply (Hc i s Hi). rewrite <- Hv. f_equal. lia.
      * exact Hk.
      * intros Hd. apply Hne. apply dict_append_nonempty. exact Hd.
Qed.

Lemma organize_ok labels valid : forall idx d noise,
  (idx + length labels <= length valid)%nat ->
  exists out, organize idx labels valid d noise = Ok out.
Proof.
  induction labels as [|label labels IH]; intros idx d noise Hlen; cbn; [eauto|].
  cbn in Hlen. destruct (lookup_lt_is_Some_2 valid idx ltac:(lia)) as [s Hs].
  rewrite Hs. case_bool_decide; apply IH; lia.
Qed.
End Organize.

(** ** detect_duplicates_by_embedding *)

Section Detect.
Import duplicate_detector.
Context {o : py_ops}.
Variable fit_predict : Z -> Z -> list (list R) -> result (list Z).
Variable self : DuplicateDetector.

Lemma valid_of_length scenarios :
  length (valid_of scenarios) = length (omap embedding scenarios).
Proof.
  induction scenarios as [|s l IH]; [reflexivity|]. cbn.
  destruct (embedding s) as [e|]; cbn; [f_equal|]; exact IH.
Qed.

Lemma valid_of_unique_ids scenarios :
  NoDup (scenario_id <$> scenarios) -> NoDup (scenario_id <$> valid_of scenarios).
Proof.
  induction scenarios as [|s l IH]; [intros; constructor|].
  cbn. intros H. apply NoDup_cons in H as [Hs Hl].
  destruct (bool_decide _); cbn; [|apply IH, Hl].
  apply NoDup_cons. split; [|apply IH, Hl].
  intros Hin. apply Hs. apply list_elem_of_fmap in Hin as (x & Hx & Hin).
  apply list_elem_of_fmap. exists x. split; [exact Hx|].
  apply list_elem_of_In in Hin. apply list_elem_of_In.
  unfold valid_of in Hin. apply filter_In in Hin as [Hin _]. exact Hin.
Qed.

(** The shape of a result: the two-key dictionary of the early returns, or
    the five-key one built from the clusterer's labels. *)
Lemma detect_inv scenarios r :
  detect_duplicates_by_embedding fit_predict self scenarios = Ok r ->
  r = empty_detection
  \/ exists labels d noise,
       fit_predict (min_cluster_size self) (min_samples self)
                   (omap embedding scenarios) = Ok labels
       /\ organize 0 labels (valid_of scenarios) [] [] = Ok (d, noise)
       /\ clusters r = sort_desc (fun c => Num (INR (cluster_size c)))
                                 (map mk_cluster d)
       /\ _identify_duplicates_in_clusters self (clusters r)
          = Ok (detected_duplicates r)
       /\ noise_points r = Some noise.
Proof.
  unfold detect_duplicates_by_embedding. intros H.
  destruct scenarios as [|s0 rest] eqn:Esc.
  { injection H as <-. left. reflexivity. }
  rewrite <- Esc in *. clear Esc s0 rest.
  destruct (_ <? _)%Z.
  { injection H as <-. left. reflexivity. }
  right.
  destruct (np_array (omap embedding scenarios)) as [rows|e] eqn:Erows;
    cbn in H; [|discriminate].
  assert (rows = omap embedding scenarios) as ->.
  { unfold np_array in Erows. destruct (omap embedding scenarios) as [|x xs].
    - injection Erows as <-. reflexivity.
    - destruct (forallb _ xs); [injection Erows as <-; reflexivity | discriminate]. }
  destruct (fit_predict _ _ _) as [labels|e] eqn:Elab; cbn in H; [|discriminate].
  fold (valid_of scenarios) in H.
  destruct (organize 0 labels (valid_of scenarios) [] []) as [[d noise]|e] eqn:Eorg;
    cbn in H; [|discriminate].
  destruct (_identify_duplicates_in_clusters self _) as [gs|e] eqn:Eid;
    cbn in H; [|discriminate].
  injection H as <-. cbn.
  exists labels, d, noise.
  split; [reflexivity|]. split; [exact Eorg|]. split; [reflexivity|].
  split; [exact Eid | reflexivity].
Qed.

(** The members of every cluster and the noise points, by label. *)
Lemma detect_members scenarios r labels :
  detect_duplicates_by_embedding fit_predict self scenarios = Ok r ->
  fit_predict (min_cluster_size self) (min_samples self)
              (omap embedding scenarios) = Ok labels ->
  (forall c m, In c (clusters r) -> In m (cluster_scenarios c) ->
     exists i, labels !! i = Some (cluster_id c) /\ cluster_id c <> (-1)%Z
               /\ valid_of scenarios !! i = Some m)
  /\ (forall c, In c (clusters r) ->
        cluster_scenarios c <> []
        /\ cluster_canonical c = _select_canonical (cluster_scenarios c))
  /\ (forall noise, noise_points r = Some noise ->
        forall s, In s noise <->
                  exists i, labels !! i = Some (-1)%Z
                            /\ valid_of scenarios !! i = Some s).
Proof.
  intros H Hlab. destruct (detect_inv _ _ H) as [-> | (labels' & d & noise & Hl & Ho & Hc & _ & Hn)].
  { split; [intros c m []|]. split; [intros c []|]. intros noise [=]. }
  rewrite Hlab in Hl. injection Hl as <-.
  destruct (organize_inv _ _ _ _ _ _ _ Ho) as (Hm & Hns & Hnc & _ & Hne).
  assert (Hcl : forall c, In c (clusters r) -> exists item, In item d /\ c = mk_cluster item).
  { intros c Hin. rewrite Hc in Hin. apply sort_desc_In in Hin.
    apply in_map_iff in Hin as (item & <- & Hitem). eauto. }
  split; [|split].
  - intros c m Hin Hmem. destruct (Hcl c Hin) as ([l ms] & Hitem & ->). cbn in *.
    destruct (Hm l ms m Hitem Hmem) as [(ms0 & [] & _) | (i & Hi & Hl & Hv)].
    exists i. auto.
  - intros c Hin. destruct (Hcl c Hin) as ([l ms] & Hitem & ->). cbn.
    split; [|reflexivity].
    specialize (Hne ltac:(constructor)). rewrite Forall_forall in Hne.
    apply (Hne (l, ms)). apply list_elem_of_In. exact Hitem.
  - intros noise' Hn'. rewrite Hn in Hn'. injection Hn' as <-. intros s. split.
    + intros Hs. destruct (Hns s Hs) as [[] | Hi]. exact Hi.
    + intros (i & Hi & Hv). apply (Hnc i s Hi Hv).
Qed.

(** The call returns, and with the five-key dictionary, when the
    embeddings are at least [min_cluster_size] in number and of one
    dimension and the clusterer returns at most one label per row. *)
Lemma detect_ok scenarios labels :
  scenarios <> [] ->
  (min_cluster_size self <= Z.of_nat (length (omap embedding scenarios)))%Z ->
  consistent_dimension (omap embedding scenarios) ->
  fit_predict (min_cluster_size self) (min_samples self)
              (omap embedding scenarios) = Ok labels ->
  (length labels <= length (omap embedding scenarios))%nat ->
  exists r noise,
    detect_duplicates_by_embedding fit_predict self scenarios = Ok r
    /\ noise_points r = Some noise.
Proof.
  intros Hne Hmin Hdim Hlab Hlen. unfold detect_duplicates_by_embedding.
  destruct scenarios as [|s0 rest] eqn:Esc; [done|].
  rewrite <- Esc in *. clear Esc s0 rest Hne.
  replace (_ <? _)%Z with false by (symmetry; apply Z.ltb_ge; exact Hmin).
  rewrite (np_array_consistent _ Hdim). cbn. rewrite Hlab. cbn.
  fold (valid_of scenarios).
  destruct (organize_ok labels (valid_of scenarios) 0 [] []) as [[d noise] Ho].
  { rewrite valid_of_length. cbn. exact Hlen. }
  rewrite Ho. cbn.
  destruct (organize_inv _ _ _ _ _ _ _ Ho) as (_ & _ & _ & _ & Hnonempty).
  specialize (Hnonempty ltac:(constructor)).
  destruct (identify_ok self
              (sort_desc (fun c => Num (INR (cluster_size c))) (map mk_cluster d)))
    as [gs Hgs].
  { intros c Hin. apply sort_desc_In in Hin.
    apply in_map_iff in Hin as ([l ms] & <- & Hitem). cbn.
    rewrite Forall_forall in Hnonempty.
    specialize (Hnonempty (l, ms) ltac:(apply list_elem_of_In; exact Hitem)).
    cbn in Hnonempty. destruct ms; [done | discriminate]. }
  rewrite Hgs. cbn. eexists _, noise. split; reflexivity.
Qed.
End Detect.

(** ** Canonical members and noise points of a detection *)

Section DetectProperties.
Import duplicate_detector samples.
Context {o : py_ops}.

Lemma unique_ids_lookup (l : list scenario) i j a b :
  NoDup (scenario_id <$> l) -> l !! i = Some a -> l !! j = Some b ->
  scenario_id a = scenario_id b -> i = j.
Proof.
  intros Hnd Ha Hb Hid.
  apply (NoDup_lookup (scenario_id <$> l) i j (scenario_id a) Hnd).
  - rewrite list_lookup_fmap, Ha. reflexivity.
  - rewrite list_lookup_fmap, Hb. cbn. f_equal. symmetry. exact Hid.
Qed.

(** C5: canonical members and noise points, for every arithmetic of the
    interpreter.  The score
    of a member is executionCount * 0.4 + passRate * 0.3 + componentCount *
    0.3, the pass rate being 0.5 without executions.  In every cluster of
    a detection the canonical member is the first member that carries the
    largest score: no member scores higher and every member before it
    scores strictly lower.  The noise points are the scenarios the
    clusterer labelled -1.  The canonical entry and every duplicate of a
    duplicate group stem from scenarios at positions that carry the
    label of the group's cluster, which is not -1; so, scenario
    identifiers being distinct, a noise point is in no cluster and in no
    duplicate group, neither as the canonical entry nor as a duplicate. *)
Theorem canonical_first_maximum_noise_excluded
    (fit_predict : Z -> Z -> list (list R) -> result (list Z))
    (self : DuplicateDetector) (scenarios : list scenario) (r : detection) :
  detect_duplicates_by_embedding fit_predict self scenarios = Ok r ->
  (forall m,
     canonical_score m
     = fadd (fadd (fmul (INR (length (historical_results m))) (flit 0.4))
                  (fmul (match historical_results m with
                         | [] => 0.5
                         | h => fdiv (INR (passed_count h)) (INR (length h))
                         end)
                        (flit 0.3)))
            (fmul (INR (length (target_components m))) (flit 0.3)))
  /\ (forall c, In c (clusters r) ->
        exists cn before after,
          cluster_canonical c = Some cn
          /\ cluster_scenarios c = before ++ cn :: after
          /\ (forall m, In m before -> canonical_score m < canonical_score cn)
          /\ (forall m, In m after -> canonical_score m <= canonical_score cn)
          /\ (forall m, In m (cluster_scenarios c) ->
                canonical_score m <= canonical_score cn))
  /\ (forall noise, noise_points r = Some noise ->
        exists labels,
          fit_predict (min_cluster_size self) (min_samples self)
                      (omap embedding scenarios) = Ok labels
          /\ forall s, In s noise <->
                       exists i, labels !! i = Some (-1)%Z
                                 /\ valid_of scenarios !! i = Some s)
  /\ (forall labels g,
        fit_predict (min_cluster_size self) (min_samples self)
                    (omap embedding scenarios) = Ok labels ->
        In g (detected_duplicates r) ->
        group_cluster_id g <> (-1)%Z
        /\ exists cn,
             canonical_id g = scenario_id cn
             /\ (exists i, labels !! i = Some (group_cluster_id g)
                           /\ valid_of scenarios !! i = Some cn)
             /\ forall d, In d (duplicates g) ->
                  exists m i, d = mk_duplicate cn m
                              /\ labels !! i = Some (group_cluster_id g)
                              /\ valid_of scenarios !! i = Some m)
  /\ (NoDup (scenario_id <$> scenarios) ->
      forall labels i s,
        fit_predict (min_cluster_size self) (min_samples self)
                    (omap embedding scenarios) = Ok labels ->
        labels !! i = Some (-1)%Z -> valid_of scenarios !! i = Some s ->
        (forall c, In c (clusters r) -> ~ In s (cluster_scenarios c))
        /\ forall g, In g (detected_duplicates r) ->
             canonical_id g <> scenario_id s
             /\ forall d, In d (duplicates g) -> dup_scenario_id d <> scenario_id s).
Proof.
  intros Hdet.
  assert (Hgroups : forall labels g,
    fit_predict (min_cluster_size self) (min_samples self)
                (omap embedding scenarios) = Ok labels ->
    In g (detected_duplicates r) ->
    exists c cn,
      In c (clusters r) /\ group_cluster_id g = cluster_id c
      /\ canonical_id g = scenario_id cn /\ In cn (cluster_scenarios c)
      /\ duplicates g = cluster_duplicates self cn (cluster_scenarios c)
      /\ forall m, In m (cluster_scenarios c) ->
           exists i, labels !! i = Some (cluster_id c)
                     /\ cluster_id c <> (-1)%Z
                     /\ valid_of scenarios !! i = Some m).
  { intros labels g Hlab Hg.
    destruct (detect_members _ _ _ _ _ Hdet Hlab) as (Hmem & Hcan & _).
    destruct (detect_inv _ _ _ _ Hdet) as [-> | (_ & _ & _ & _ & _ & _ & Hid & _)];
      [destruct Hg|].
    destruct (identify_inv _ _ _ Hid g Hg)
      as (c & cn & Hc & Hcn & Hgid & Hcid & _ & Hdups).
    destruct (Hcan c Hc) as [_ Hsel]. rewrite Hcn in Hsel. symmetry in Hsel.
    exists c, cn. split; [exact Hc|]. split; [exact Hgid|]. split; [exact Hcid|].
    split; [exact (select_canonical_member _ _ Hsel)|]. split; [exact Hdups|].
    intros m Hm. exact (Hmem c m Hc Hm). }
  split; [intros m; unfold canonical_score; destruct (historical_results m);
          reflexivity|].
  split; [|split; [|split]].
  - intros c Hc.
    assert (Hcn : cluster_canonical c = _select_canonical (cluster_scenarios c)
                  /\ cluster_scenarios c <> []).
    { destruct (detect_inv _ _ _ _ Hdet)
        as [-> | (labels & d & noise & Hlab & _)]; [destruct Hc|].
      destruct (detect_members _ _ _ _ _ Hdet Hlab) as (_ & Hcan & _).
      destruct (Hcan c Hc) as [Hne Hsel]. split; assumption. }
    destruct Hcn as [Hcn Hne].
    destruct (select_canonical_first_max _ Hne)
      as (cn & l1 & l2 & Hsel & Hl & H1 & H2).
    exists cn, l1, l2. rewrite Hcn. split; [exact Hsel|]. split; [exact Hl|].
    split; [exact H1|]. split; [exact H2|].
    apply (select_canonical_max _ _ Hsel).
  - intros noise Hn.
    destruct (detect_inv _ _ _ _ Hdet) as [-> | (labels & d & noise' & Hlab & _)];
      [discriminate|].
    exists labels. split; [exact Hlab|].
    destruct (detect_members _ _ _ _ _ Hdet Hlab) as (_ & _ & Hnoise).
    apply Hnoise, Hn.
  - intros labels g Hlab Hg.
    destruct (Hgroups labels g Hlab Hg)
      as (c & cn & Hc & Hgid & Hcid & Hin & Hdups & Hpos).
    destruct (Hpos cn Hin) as (i & Hi & Hneq & Hv).
    split; [rewrite Hgid; exact Hneq|].
    exists cn. split; [exact Hcid|].
    split; [exists i; rewrite Hgid; auto|].
    intros d Hd. rewrite Hdups in Hd.
    apply cluster_duplicates_In in Hd as (m & Hm & _ & _ & ->).
    destruct (Hpos m Hm) as (j & Hj & _ & Hvj).
    exists m, j. rewrite Hgid. auto.
  - intros Hnd labels i s Hlab Hi Hs.
    destruct (detect_members _ _ _ _ _ Hdet Hlab) as (Hmem & _ & _).
    pose proof (valid_of_unique_ids _ Hnd) as Hvalid.
    assert (Hout : forall c m, In c (clusters r) -> In m (cluster_scenarios c) ->
                               scenario_id m <> scenario_id s).
    { intros c m Hc Hm Hid.
      destruct (Hmem c m Hc Hm) as (j & Hj & Hneq & Hv).
      assert (j = i) as -> by (eapply unique_ids_lookup; eassumption).
      rewrite Hi in Hj. injection Hj as Hj. apply Hneq. symmetry. exact Hj. }
    split.
    + intros c Hc Hin. apply (Hout c s Hc Hin). reflexivity.
    + intros g Hg.
      destruct (Hgroups labels g Hlab Hg)
        as (c & cn & Hc & _ & Hcid & Hin & Hdups & _).
      split.
      * rewrite Hcid. apply (Hout c cn Hc Hin).
      * intros d Hd. rewrite Hdups in Hd.
        apply cluster_duplicates_In in Hd as (m & Hm & _ & _ & ->). cbn.
        apply (Hout c m Hc Hm).
Qed.
End DetectProperties.

Section DetectWitness.
Import duplicate_detector samples.

Lemma three_scenarios_detected :
  exists r noise,
    detect_duplicates_by_embedding pair_then_noise create_duplicate_detector
      [twin_a; twin_b; loner] = Ok r
    /\ noise_points r = Some noise.
Proof.
  apply (detect_ok pair_then_noise create_duplicate_detector
           [twin_a; twin_b; loner] [0; 0; -1]%Z).
  - discriminate.
  - cbn. lia.
  - intros r1 r2 H1 H2. cbn in H1, H2.
    destruct H1 as [<- | [<- | [<- | []]]], H2 as [<- | [<- | [<- | []]]];
      reflexivity.
  - reflexivity.
  - cbn. lia.
Qed.

(** The detection of two scenarios of one coverage and a third unlike
    them, by a clusterer that joins the first two. *)
Lemma pair_and_noise_detected (a b : scenario) :
  embedding a = Some [1; 0] -> embedding b = Some [1; 0] ->
  exists r,
    detect_duplicates_by_embedding pair_then_noise create_duplicate_detector
      [a; b; loner] = Ok r
    /\ clusters r = [mk_cluster (0%Z, [a; b])]
    /\ noise_points r = Some [loner].
Proof.
  intros Ha Hb.
  assert (Hrows : omap embedding [a; b; loner] = [[1; 0]; [1; 0]; [0; 1]])
    by (cbn; rewrite Ha, Hb; reflexivity).
  destruct (detect_ok pair_then_noise create_duplicate_detector
              [a; b; loner] [0; 0; -1]%Z) as (r & noise & Hr & Hn).
  - discriminate.
  - rewrite Hrows. cbn. lia.
  - rewrite Hrows. intros r1 r2 H1 H2. cbn in H1, H2.
    destruct H1 as [<- | [<- | [<- | []]]], H2 as [<- | [<- | [<- | []]]];
      reflexivity.
  - rewrite Hrows. reflexivity.
  - rewrite Hrows. cbn. lia.
  - exists r. split; [exact Hr|].
    destruct (detect_inv _ _ _ _ Hr)
      as [-> | (labels & d & noise' & Hlab & Ho & Hcl & _ & Hn')];
      [discriminate Hn|].
    rewrite Hrows in Hlab. cbn in Hlab. injection Hlab as <-.
    assert (Hvalid : valid_of [a; b; loner] = [a; b; loner]).
    { unfold valid_of. cbn. rewrite Ha, Hb. reflexivity. }
    rewrite Hvalid in Ho. cbn in Ho. injection Ho as <- <-.
    split; [exact Hcl | exact Hn'].
Qed.

Lemma canonical_score_seasoned :
  canonical_score twin_a = 0.75 /\ canonical_score seasoned = 1.55.
Proof. unfold canonical_score. cbn. split; lra. Qed.

Lemma canonical_first_maximum_noise_excluded_witness :
  exists r,
    detect_duplicates_by_embedding pair_then_noise create_duplicate_detector
      [twin_a; seasoned; loner] = Ok r
    /\ canonical_score twin_a = 0.75 /\ canonical_score seasoned = 1.55
    /\ (forall c, In c (clusters r) ->
          cluster_scenarios c = [twin_a; seasoned]
          /\ cluster_canonical c = Some seasoned)
    /\ noise_points r = Some [loner]
    /\ (forall c, In c (clusters r) -> ~ In loner (cluster_scenarios c))
    /\ (forall g, In g (detected_duplicates r) ->
          canonical_id g <> "LONER"
          /\ forall d, In d (duplicates g) -> dup_scenario_id d <> "LONER").
Proof.
  destruct (pair_and_noise_detected twin_a seasoned eq_refl eq_refl)
    as (r & Hr & Hcl & Hn).
  destruct canonical_score_seasoned as [Ha Hs].
  exists r. split; [exact Hr|]. split; [exact Ha|]. split; [exact Hs|].
  destruct (canonical_first_maximum_noise_excluded pair_then_noise
              create_duplicate_detector [twin_a; seasoned; loner] r Hr)
    as (_ & Hcanonical & _ & _ & Hnoise).
  assert (Hids : NoDup (scenario_id <$> [twin_a; seasoned; loner])).
  { cbn. repeat (apply NoDup_cons; split; [set_solver|]). apply NoDup_nil_2. }
  destruct (Hnoise Hids [0; 0; -1]%Z 2%nat loner eq_refl eq_refl eq_refl)
    as [Hclusters Hgroups].
  split; [|split; [exact Hn | split; [exact Hclusters | exact Hgroups]]].
  intros c Hc. rewrite Hcl in Hc. destruct Hc as [<- | []].
  split; [reflexivity|].
  destruct (Hcanonical (mk_cluster (0%Z, [twin_a; seasoned])))
    as (cn & l1 & l2 & Hcn & Hl & _ & Hafter & _).
  { rewrite Hcl. left. reflexivity. }
  rewrite Hcn. f_equal. cbn [mk_cluster cluster_scenarios snd] in Hl.
  destruct l1 as [|x [|y l1]].
  - injection Hl as <- <-.
    pose proof (Hafter seasoned (or_introl eq_refl)). lra.
  - injection Hl as _ <- _. reflexivity.
  - exfalso. injection Hl as _ _ Hl. destruct l1; discriminate.
Defined.
End DetectWitness.

(** ** Duplicates and the threshold *)

Section Threshold.
Import duplicate_detector samples.
Context {o : py_ops}.

Lemma mk_duplicate_label cn s :
  (recommendation (mk_duplicate cn s) = "consolidate"
   <-> flit 0.95 < overall (_compute_detailed_similarity cn s))
  /\ (recommendation (mk_duplicate cn s) = "review"
      <-> ~ flit 0.95 < overall (_compute_detailed_similarity cn s)).
Proof.
  unfold mk_duplicate. cbn [recommendation].
  destruct (Rgtb _ (flit 0.95)) eqn:E.
  - apply Rgtb_spec in E. split; split; intros H; try reflexivity;
      try exact E; [discriminate H | contradiction].
  - assert (~ flit 0.95 < overall (_compute_detailed_similarity cn s)) as Hn.
    { intros Hlt. apply Rgtb_spec in Hlt. rewrite Hlt in E. discriminate. }
    split; split; intros H; try reflexivity; try exact Hn;
      [discriminate H | contradiction].
Qed.

Lemma pairs_with_In threshold s1 later p :
  In p (pairs_with threshold s1 later) <->
  exists s2, In s2 later
             /\ threshold <= overall (_compute_detailed_similarity s1 s2)
             /\ p = mk_pair s1 s2.
Proof.
  induction later as [|x later IH]; cbn [pairs_with In].
  - split; [intros [] | intros (s2 & [] & _)].
  - destruct (Rgeb _ threshold) eqn:E.
    + apply Rgeb_spec in E. cbn [In]. rewrite IH. split.
      * intros [<- | (s2 & Hs & H)]; [exists x; auto|].
        exists s2. split; [right; exact Hs | exact H].
      * intros (s2 & [<-|Hs] & Hge & ->); [left; reflexivity|].
        right. exists s2. auto.
    + assert (~ threshold <= overall (_compute_detailed_similarity s1 x)) as Hlt.
      { intros Hge. apply Rgeb_spec in Hge. rewrite Hge in E. discriminate. }
      rewrite IH. split.
      * intros (s2 & Hs & H). exists s2. split; [right; exact Hs | exact H].
      * intros (s2 & [<-|Hs] & Hge & Hp); [contradiction|]. exists s2. auto.
Qed.

Lemma all_pairs_In threshold scenarios p :
  In p (all_pairs threshold scenarios) <->
  exists i j s1 s2,
    (i < j)%nat /\ scenarios !! i = Some s1 /\ scenarios !! j = Some s2
    /\ threshold <= overall (_compute_detailed_similarity s1 s2)
    /\ p = mk_pair s1 s2.
Proof.
  induction scenarios as [|x l IH]; cbn [all_pairs].
  - split; [intros [] | intros (i & j & s1 & s2 & _ & H & _)].
    rewrite lookup_nil in H. discriminate.
  - rewrite in_app_iff, pairs_with_In, IH. split.
    + intros [(s2 & Hs & Hge & ->) | (i & j & s1 & s2 & Hij & Hi & Hj & H)].
      * apply list_elem_of_In, list_elem_of_lookup in Hs as [j Hj].
        exists 0%nat, (S j), x, s2. repeat split; [lia | exact Hj | exact Hge].
      * exists (S i), (S j), s1, s2. repeat split; [lia | exact Hi | exact Hj | apply H..].
    + intros (i & j & s1 & s2 & Hij & Hi & Hj & Hge & ->).
      destruct j as [|j]; [lia|]. cbn in Hj. destruct i as [|i].
      * cbn in Hi. injection Hi as <-. left. exists s2.
        split; [|auto]. apply list_elem_of_In, list_elem_of_lookup. eauto.
      * cbn in Hi. right. exists i, j, s1, s2. repeat split; [lia | assumption..].
Qed.

(** The quotient the code forms: two empty sets give 1, and otherwise the
    union is not empty. *)
Lemma jaccard_similarity_quotient (A B : gset string) :
  jaccard_similarity A B
  = if Nat.eqb (size A) 0 && Nat.eqb (size B) 0 then 1
    else fdiv (INR (size (A ∩ B))) (INR (size (A ∪ B))).
Proof.
  unfold jaccard_similarity.
  destruct (Nat.eqb (size A) 0 && Nat.eqb (size B) 0) eqn:E; [reflexivity|].
  cbv zeta. rewrite bool_decide_eq_true_2; [reflexivity|].
  destruct (size (A ∪ B)) eqn:Eu; [|lia]. exfalso.
  apply size_empty_iff in Eu.
  assert (HA : size A = 0%nat) by (apply size_empty_iff; set_solver).
  assert (HB : size B = 0%nat) by (apply size_empty_iff; set_solver).
  rewrite HA, HB in E. discriminate.
Qed.

(** C4, as the code behaves, for every arithmetic and text handling of
    the interpreter.  The overall similarity of two scenarios is name *
    0.15 + components * 0.25 + systems * 0.20 + testType * 0.15 +
    platforms * 0.10 + standards * 0.15, where name is the Jaccard
    similarity of the lower-cased tokens of the two names, testType is 1
    or 0, and the others are the Jaccard similarities, |A n B| / |A u B|
    and 1 on two empty sets, of the respective sets.  In a detection, a
    member of a cluster whose identifier is not the canonical member's
    has its entry in the cluster's duplicate group if and only if its
    overall similarity to the canonical member is at least the detector's
    threshold (0.85 by default); every entry of a duplicate group is at or
    above the threshold, has an identifier other than the canonical one,
    and is labelled "consolidate" if and only if its similarity exceeds
    0.95, and "review" otherwise.  In
    [find_similar_pairs], the pair of the scenarios at positions [i < j]
    is returned if and only if its overall similarity is at least the
    threshold (0.85 by default); a pair entry holds the two identifiers
    and names, the similarity and the breakdown, and no label. *)
Theorem duplicate_iff_threshold :
  (forall s1 s2,
      overall (_compute_detailed_similarity s1 s2)
      = fadd
          (fadd
             (fadd
                (fadd
                   (fadd
                      (fmul (text_jaccard_similarity (test_name s1) (test_name s2))
                            (flit 0.15))
                      (fmul (jaccard_similarity (set_of (target_components s1))
                                                (set_of (target_components s2)))
                            (flit 0.25)))
                   (fmul (jaccard_similarity (set_of (target_systems s1))
                                             (set_of (target_systems s2)))
                         (flit 0.20)))
                (fmul (if bool_decide (test_type s1 = test_type s2) then 1 else 0)
                      (flit 0.15)))
             (fmul (jaccard_similarity (set_of (applicable_platforms s1))
                                       (set_of (applicable_platforms s2)))
                   (flit 0.10)))
          (fmul (jaccard_similarity (set_of (regulatory_standards s1))
                                    (set_of (regulatory_standards s2)))
                (flit 0.15)))
  /\ (forall text1 text2,
        text_jaccard_similarity text1 text2
        = jaccard_similarity (list_to_set (str_split (str_lower text1)))
                             (list_to_set (str_split (str_lower text2))))
  /\ (forall A B : gset string,
        jaccard_similarity A B
        = if Nat.eqb (size A) 0 && Nat.eqb (size B) 0 then 1
          else fdiv (INR (size (A ∩ B))) (INR (size (A ∪ B))))
  /\ (forall fit_predict self scenarios r c cn s,
        detect_duplicates_by_embedding fit_predict self scenarios = Ok r ->
        In c (clusters r) -> cluster_canonical c = Some cn ->
        In s (cluster_scenarios c) -> scenario_id s <> scenario_id cn ->
        ((exists g, In g (detected_duplicates r)
                    /\ group_cluster_id g = cluster_id c
                    /\ canonical_id g = scenario_id cn
                    /\ In (mk_duplicate cn s) (duplicates g))
         <-> similarity_threshold self
             <= overall (_compute_detailed_similarity cn s))
        /\ similarity_to_canonical (mk_duplicate cn s)
           = overall (_compute_detailed_similarity cn s)
        /\ (recommendation (mk_duplicate cn s) = "consolidate"
            <-> flit 0.95 < overall (_compute_detailed_similarity cn s))
        /\ (recommendation (mk_duplicate cn s) = "review"
            <-> ~ flit 0.95 < overall (_compute_detailed_similarity cn s)))
  /\ (forall fit_predict self scenarios r g d,
        detect_duplicates_by_embedding fit_predict self scenarios = Ok r ->
        In g (detected_duplicates r) -> In d (duplicates g) ->
        similarity_threshold self <= similarity_to_canonical d
        /\ dup_scenario_id d <> canonical_id g
        /\ (recommendation d = "consolidate"
            <-> flit 0.95 < similarity_to_canonical d)
        /\ (recommendation d = "review"
            <-> ~ flit 0.95 < similarity_to_canonical d)
        /\ (duplicate_get d "recommendation" = Some (Text "consolidate")
            \/ duplicate_get d "recommendation" = Some (Text "review")))
  /\ (forall scenarios threshold i j s1 s2,
        (i < j)%nat -> scenarios !! i = Some s1 -> scenarios !! j = Some s2 ->
        (In (mk_pair s1 s2) (find_similar_pairs scenarios threshold)
         <-> threshold <= overall (_compute_detailed_similarity s1 s2))
        /\ similarity (mk_pair s1 s2)
           = overall (_compute_detailed_similarity s1 s2))
  /\ (forall scenarios threshold p,
        In p (find_similar_pairs scenarios threshold) ->
        threshold <= similarity p
        /\ similar_pair_get p "recommendation" = None)
  /\ similarity_threshold create_duplicate_detector = flit 0.85
  /\ default_threshold = flit 0.85.
Proof.
  assert (Hentries : forall fit_predict self scenarios r g d,
    detect_duplicates_by_embedding fit_predict self scenarios = Ok r ->
    In g (detected_duplicates r) -> In d (duplicates g) ->
    exists cn m, d = mk_duplicate cn m
      /\ similarity_threshold self <= overall (_compute_detailed_similarity cn m)
      /\ canonical_id g = scenario_id cn
      /\ scenario_id m <> scenario_id cn).
  { intros fp self scenarios r g d Hdet Hg Hd.
    destruct (detect_inv _ _ _ _ Hdet) as [-> | (_ & _ & _ & _ & _ & _ & Hid & _)];
      [destruct Hg|].
    destruct (identify_inv _ _ _ Hid g Hg) as (c & cn & _ & _ & _ & Hcid & _ & Hdups).
    rewrite Hdups in Hd.
    apply cluster_duplicates_In in Hd as (m & _ & Hneq & Hge & ->).
    exists cn, m. auto. }
  split; [reflexivity|]. split; [reflexivity|].
  split; [apply jaccard_similarity_quotient|].
  split; [|split; [|split; [|split; [|split]]]].
  - intros fp self scenarios r c cn s Hdet Hc Hcn Hs Hid.
    split; [|split; [reflexivity | apply mk_duplicate_label]]. split.
    + intros (g & Hg & _ & _ & Hd).
      destruct (Hentries _ _ _ _ _ _ Hdet Hg Hd) as (cn' & m & Heq & Hge & _).
      assert (similarity_to_canonical (mk_duplicate cn s)
              = similarity_to_canonical (mk_duplicate cn' m)) as Hsim
        by (rewrite Heq; reflexivity).
      cbn [similarity_to_canonical mk_duplicate] in Hsim. rewrite Hsim. exact Hge.
    + intros Hge.
      destruct (detect_inv _ _ _ _ Hdet)
        as [-> | (labels & _ & _ & Hlab & _ & _ & Hid' & _)]; [destruct Hc|].
      destruct (detect_members _ _ _ _ _ Hdet Hlab) as (_ & Hcan & _).
      destruct (Hcan c Hc) as [_ Hsel]. rewrite Hcn in Hsel. symmetry in Hsel.
      pose proof (select_canonical_member _ _ Hsel) as Hin.
      assert (Hd : In (mk_duplicate cn s)
                      (cluster_duplicates self cn (cluster_scenarios c))).
      { apply cluster_duplicates_In. exists s. auto. }
      assert (Hlen : (2 <= length (cluster_scenarios c))%nat).
      { destruct (cluster_scenarios c) as [|a [|b l]]; cbn; [destruct Hs | | lia].
        destruct Hs as [<- | []], Hin as [<- | []]. contradiction. }
      destruct (identify_complete _ _ _ Hid' c cn Hc Hlen Hcn)
        as (g & Hg & Hgc & Hgn & _ & Hgd).
      { intros Hnil. rewrite Hnil in Hd. destruct Hd. }
      exists g. rewrite Hgd. auto.
  - intros fp self scenarios r g d Hdet Hg Hd.
    destruct (Hentries _ _ _ _ _ _ Hdet Hg Hd) as (cn & m & -> & Hge & Hcid & Hneq).
    split; [exact Hge|]. split; [rewrite Hcid; exact Hneq|].
    split; [apply mk_duplicate_label|]. split; [apply mk_duplicate_label|].
    unfold duplicate_get, mk_duplicate. cbn.
    destruct (Rgtb _ (flit 0.95)); [left | right]; reflexivity.
  - intros scenarios threshold i j s1 s2 Hij Hi Hj.
    split; [|reflexivity]. unfold find_similar_pairs.
    rewrite sort_desc_In, all_pairs_In. split.
    + intros (i' & j' & a & b & _ & _ & _ & Hge & Heq).
      assert (similarity (mk_pair s1 s2) = similarity (mk_pair a b)) as Hsim
        by (rewrite Heq; reflexivity).
      cbn [similarity mk_pair] in Hsim. rewrite Hsim. exact Hge.
    + intros Hge. exists i, j, s1, s2. auto.
  - intros scenarios threshold p Hp. unfold find_similar_pairs in Hp.
    apply sort_desc_In, all_pairs_In in Hp
      as (i & j & s1 & s2 & _ & _ & _ & Hge & ->).
    split; [exact Hge | reflexivity].
  - reflexivity.
  - reflexivity.
Qed.
End Threshold.

(** ** Diversity re-ranking *)

Section RerankFacts.
Import similarity.
Context {A : Type}.
Variable candidates : list (A * R).
Variable embeddings : list (list R).
Variable k : Z.

Lemma traverse_numbers {X} (f : X -> result pyfloat) l :
  (forall x, In x l -> exists y, f x = Ok (Num y)) ->
  exists ys, traverse f l = Ok ys /\ Forall is_num ys.
Proof.
  induction l as [|x l IH]; intros H; cbn.
  - exists []. split; [reflexivity | constructor].
  - destruct (H x (or_introl eq_refl)) as [y Hy].
    destruct IH as (ys & Hys & Hnum); [intros x' Hx'; apply H; right; exact Hx'|].
    rewrite Hy, Hys. cbn. exists (Num y :: ys). split; [reflexivity|].
    constructor; [exact I | exact Hnum].
Qed.

Lemma py_max_number ds : forall d,
  is_num d -> Forall is_num ds -> exists x, py_max d ds = Num x.
Proof.
  unfold py_max. induction ds as [|y ds IH]; intros d Hd Hds; cbn.
  - destruct d; [eauto | destruct Hd].
  - inversion Hds; subst. apply IH; [|assumption].
    destruct (py_gt y d); assumption.
Qed.

Lemma row_defined i :
  (i < length embeddings)%nat ->
  exists e, row embeddings i = Ok e /\ In e embeddings.
Proof.
  intros Hi. destruct (lookup_lt_is_Some_2 embeddings i Hi) as [e He].
  exists e. unfold row. rewrite He. split; [reflexivity|].
  apply list_elem_of_In. eapply list_elem_of_lookup_2. exact He.
Qed.




Lemma list_remove_head m n : list_remove m (seq m (S n)) = seq (S m) n.
Proof. cbn. destruct (decide (m = m)); [reflexivity | contradiction]. Qed.

End RerankFacts.

Section Rerank.
Import similarity samples.


Lemma ranked_descending : descending_relevance ranked.
Proof.
  intros i j ci cj Hij Hi Hj.
  destruct i as [|[|[|i]]], j as [|[|[|j]]]; cbn in Hi, Hj;
    try discriminate; try lia;
    injection Hi as <-; injection Hj as <-; cbn; lra.
Qed.

Lemma ranked_rows_well_formed : rows_well_formed ranked ranked_rows.
Proof.
  split; [cbn; lia|]. split.
  - intros e1 e2 H1 H2. cbn in H1, H2.
    destruct H1 as [<- | [<- | [<- | []]]], H2 as [<- | [<- | [<- | []]]];
      reflexivity.
  - intros e He. cbn in He. destruct He as [<- | [<- | [<- | []]]]; cbn; lra.
Qed.


(** C7: [diversity_reranking] with [k = 0].  Of three candidates in
    descending order of relevance, with [lambda_param = 1.0], the first is
    returned: one item, where the docstring has [k] as the number of items
    to return and the pure relevance order gives the first zero
    candidates, the empty list. *)
Theorem diversity_reranking_zero_k :
  descending_relevance ranked
  /\ diversity_reranking ranked ranked_rows 1 0 3 = Some (Ok [("a", 0.9)])
  /\ diversity_reranking ranked ranked_rows 1 0 3
     <> Some (Ok (firstn (Z.to_nat 0) ranked)).
Proof.
  assert (H : diversity_reranking ranked ranked_rows 1 0 3
              = Some (Ok [("a", 0.9)])).
  { unfold diversity_reranking, ranked.
    rewrite bool_decide_eq_false_2 by (cbn; lia).
    cbn [mmr_loop length].
    rewrite bool_decide_eq_false_2 by (intros [Hk _]; lia). reflexivity. }
  split; [exact ranked_descending|]. split; [exact H|].
  rewrite H. cbn. discriminate.
Qed.
End Rerank.

(** * Further properties of the three modules *)

(** ** Jaccard similarity *)

Section Jaccard.
Import duplicate_detector.
Implicit Types A B : gset string.

Lemma jaccard_both_empty A B :
  size A = 0%nat -> size B = 0%nat -> jaccard_similarity A B = 1.
Proof.
  intros HA HB. unfold jaccard_similarity. rewrite HA, HB. reflexivity.
Qed.

Lemma jaccard_not_both_empty A B :
  ~ (size A = 0%nat /\ size B = 0%nat) ->
  jaccard_similarity A B = INR (size (A ∩ B)) / INR (size (A ∪ B))
  /\ (0 < size (A ∪ B))%nat.
Proof.
  intros Hne. unfold jaccard_similarity.
  assert (0 < size (A ∪ B))%nat as Hpos.
  { destruct (size (A ∪ B)) eqn:E; [|lia]. exfalso. apply Hne.
    apply size_empty_iff in E.
    split; apply size_empty_iff; set_solver. }
  destruct (Nat.eqb (size A) 0 && Nat.eqb (size B) 0) eqn:E.
  - exfalso. apply Hne. apply andb_true_iff in E as [E1 E2].
    split; apply Nat.eqb_eq; assumption.
  - cbv zeta. rewrite bool_decide_eq_true_2 by exact Hpos. split; [reflexivity | exact Hpos].
Qed.

Lemma jaccard_cases A B :
  (size A = 0%nat /\ size B = 0%nat) \/ ~ (size A = 0%nat /\ size B = 0%nat).
Proof.
  destruct (decide (size A = 0%nat)), (decide (size B = 0%nat)); tauto.
Qed.

Lemma jaccard_similarity_range A B : 0 <= jaccard_similarity A B <= 1.
Proof.
  destruct (jaccard_cases A B) as [[HA HB] | Hne].
  - rewrite (jaccard_both_empty A B HA HB). lra.
  - destruct (jaccard_not_both_empty A B Hne) as [-> Hpos].
    assert (Hsub : (size (A ∩ B) <= size (A ∪ B))%nat)
      by (apply subseteq_size; set_solver).
    pose proof (ratio_range (size (A ∩ B)) (size (A ∪ B)) Hsub) as H.
    rewrite bool_decide_eq_true_2 in H by exact Hpos. exact H.
Qed.

Lemma jaccard_similarity_comm A B :
  jaccard_similarity A B = jaccard_similarity B A.
Proof.
  unfold jaccard_similarity.
  assert (Hcap : B ∩ A = A ∩ B) by apply (comm_L (∩)).
  assert (Hcup : B ∪ A = A ∪ B) by apply (comm_L (∪)).
  rewrite Hcap, Hcup, (andb_comm (Nat.eqb (size B) 0)). reflexivity.
Qed.

Lemma jaccard_similarity_self A : jaccard_similarity A A = 1.
Proof.
  destruct (jaccard_cases A A) as [[HA _] | Hne].
  - apply jaccard_both_empty; exact HA.
  - destruct (jaccard_not_both_empty A A Hne) as [-> Hpos].
    replace (A ∩ A) with A by set_solver.
    replace (A ∪ A) with A in * by set_solver.
    apply Rinv_r. apply not_0_INR. lia.
Qed.

(** X1: [jaccard_similarity] lies in [[0, 1]], is symmetric, is 1 exactly
    on equal sets (two empty sets included) and is 0 exactly on disjoint
    sets that are not both empty. *)
Theorem jaccard_similarity_properties A B :
  0 <= jaccard_similarity A B <= 1
  /\ jaccard_similarity A B = jaccard_similarity B A
  /\ (jaccard_similarity A B = 1 <-> A = B)
  /\ (jaccard_similarity A B = 0 <-> A ∩ B = ∅ /\ ~ (A = ∅ /\ B = ∅)).
Proof.
  split; [apply jaccard_similarity_range|].
  split; [apply jaccard_similarity_comm|].
  assert (Hsub : (size (A ∩ B) <= size (A ∪ B))%nat)
    by (apply subseteq_size; set_solver).
  destruct (jaccard_cases A B) as [[HA HB] | Hne].
  - pose proof (jaccard_both_empty A B HA HB) as HJ.
    assert (A = ∅) as -> by (apply leibniz_equiv, size_empty_iff, HA).
    assert (B = ∅) as -> by (apply leibniz_equiv, size_empty_iff, HB).
    rewrite HJ. split.
    + split; reflexivity || lra.
    + split; [lra | intros [_ H]; exfalso; apply H; split; reflexivity].
  - destruct (jaccard_not_both_empty A B Hne) as [HJ Hpos].
    assert (0 < INR (size (A ∪ B))) as Hu by (apply lt_0_INR; exact Hpos).
    assert (0 < / INR (size (A ∪ B))) as Hinv by (apply Rinv_0_lt_compat; exact Hu).
    assert (INR (size (A ∪ B)) * / INR (size (A ∪ B)) = 1) as Hone
      by (apply Rinv_r; lra).
    pose proof (pos_INR (size (A ∩ B))) as Hi.
    pose proof (le_INR _ _ Hsub) as Hle.
    split.
    + split.
      * rewrite HJ. unfold Rdiv. intros H1.
        assert (INR (size (A ∩ B)) = INR (size (A ∪ B))) as Heq by nra.
        apply INR_eq in Heq.
        assert (A ∩ B = A ∪ B) as Hsets
          by (apply set_subseteq_size_eq; [set_solver | lia]).
        apply leibniz_equiv. set_solver.
      * intros <-. apply jaccard_similarity_self.
    + rewrite HJ. unfold Rdiv. split.
      * intros H0. assert (INR (size (A ∩ B)) = 0) as Hz by nra.
        change 0 with (INR 0) in Hz. apply INR_eq in Hz. split.
        -- apply leibniz_equiv, size_empty_iff, Hz.
        -- intros [-> ->]. apply Hne. split; apply size_empty.
      * intros [Hd _]. rewrite Hd, size_empty. cbn. lra.
Qed.
End Jaccard.

(** ** Text and detailed similarity *)

Section DetailedSimilarity.
Import duplicate_detector.

Lemma lower_char_idempotent c : lower_char (lower_char c) = lower_char c.
Proof. destruct c as [[] [] [] [] [] [] [] []]; reflexivity. Qed.

Lemma lower_idempotent s : lower (lower s) = lower s.
Proof.
  induction s as [|c s IH]; [reflexivity|]. cbn.
  rewrite lower_char_idempotent, IH. reflexivity.
Qed.

(** X2: [text_jaccard_similarity] ignores case (lower-casing an argument
    changes nothing), is symmetric, lies in [[0, 1]] and gives 1 for a
    text against itself, the empty text included. *)
Theorem text_jaccard_similarity_properties text1 text2 :
  text_jaccard_similarity (lower text1) text2 = text_jaccard_similarity text1 text2
  /\ text_jaccard_similarity text1 (lower text2) = text_jaccard_similarity text1 text2
  /\ text_jaccard_similarity text1 text2 = text_jaccard_similarity text2 text1
  /\ 0 <= text_jaccard_similarity text1 text2 <= 1
  /\ text_jaccard_similarity text1 text1 = 1.
Proof.
  unfold text_jaccard_similarity. rewrite !lower_idempotent.
  split; [reflexivity|]. split; [reflexivity|].
  split; [apply jaccard_similarity_comm|].
  split; [apply jaccard_similarity_range|].
  apply jaccard_similarity_self.
Qed.

Lemma test_type_match_symmetric (t1 t2 : option string) :
  (if bool_decide (t1 = t2) then 1 else 0)
  = (if bool_decide (t2 = t1) then 1 else 0).
Proof. repeat case_bool_decide; congruence. Qed.

Lemma overall_similarity_range s1 s2 :
  0 <= overall (_compute_detailed_similarity s1 s2) <= 1.
Proof.
  unfold _compute_detailed_similarity. cbn [overall].
  assert (0 <= text_jaccard_similarity (test_name s1) (test_name s2) <= 1)
    by apply jaccard_similarity_range.
  pose proof (jaccard_similarity_range (set_of (target_components s1))
                                       (set_of (target_components s2))).
  pose proof (jaccard_similarity_range (set_of (target_systems s1))
                                       (set_of (target_systems s2))).
  pose proof (jaccard_similarity_range (set_of (applicable_platforms s1))
                                       (set_of (applicable_platforms s2))).
  pose proof (jaccard_similarity_range (set_of (regulatory_standards s1))
                                       (set_of (regulatory_standards s2))).
  assert (0 <= (if bool_decide (test_type s1 = test_type s2) then 1 else 0) <= 1)
    by (case_bool_decide; lra).
  exact_arith. lra.
Qed.

(** X3: every entry of the similarity breakdown lies in [[0, 1]], the
    overall similarity does too, it does not depend on the order of the
    two scenarios, and a scenario compared with itself gets 1. *)
Theorem detailed_similarity_properties s1 s2 :
  let sim := _compute_detailed_similarity s1 s2 in
  (0 <= sim_name sim <= 1 /\ 0 <= sim_components sim <= 1
   /\ 0 <= sim_systems sim <= 1 /\ 0 <= sim_test_type sim <= 1
   /\ 0 <= sim_platforms sim <= 1 /\ 0 <= sim_standards sim <= 1)
  /\ 0 <= overall sim <= 1
  /\ _compute_detailed_similarity s2 s1 = sim
  /\ overall (_compute_detailed_similarity s1 s1) = 1.
Proof.
  cbv zeta.
  pose proof jaccard_similarity_range as Hj.
  assert (Hsym : forall A B : gset string,
             jaccard_similarity B A = jaccard_similarity A B)
    by (intros; apply jaccard_similarity_comm).
  pose proof jaccard_similarity_self as Hself.
  assert (Htsym : text_jaccard_similarity (test_name s1) (test_name s2)
                  = text_jaccard_similarity (test_name s2) (test_name s1))
    by apply jaccard_similarity_comm.
  assert (Htr : 0 <= text_jaccard_similarity (test_name s1) (test_name s2) <= 1)
    by apply jaccard_similarity_range.
  assert (Htself : text_jaccard_similarity (test_name s1) (test_name s1) = 1)
    by apply jaccard_similarity_self.
  assert (Ht : 0 <= (if bool_decide (test_type s1 = test_type s2) then 1 else 0) <= 1)
    by (case_bool_decide; lra).
  split; [|split; [apply overall_similarity_range|]].
  - unfold _compute_detailed_similarity.
    cbn [sim_name sim_components sim_systems sim_test_type sim_platforms
         sim_standards].
    pose proof (Hj (set_of (target_components s1)) (set_of (target_components s2))).
    pose proof (Hj (set_of (target_systems s1)) (set_of (target_systems s2))).
    pose proof (Hj (set_of (applicable_platforms s1))
                   (set_of (applicable_platforms s2))).
    pose proof (Hj (set_of (regulatory_standards s1))
                   (set_of (regulatory_standards s2))).
    repeat split; lra.
  - unfold _compute_detailed_similarity. cbn [overall]. split.
    + rewrite <- Htsym.
      rewrite (Hsym (set_of (target_components s1)) (set_of (target_components s2))).
      rewrite (Hsym (set_of (target_systems s1)) (set_of (target_systems s2))).
      rewrite (Hsym (set_of (applicable_platforms s1))
                    (set_of (applicable_platforms s2))).
      rewrite (Hsym (set_of (regulatory_standards s1))
                    (set_of (regulatory_standards s2))).
      rewrite (test_type_match_symmetric (test_type s2)). reflexivity.
    + rewrite Htself, !Hself, bool_decide_eq_true_2 by reflexivity.
      exact_arith. lra.
Qed.

(** X4: two scenarios with the same components, systems, platforms and
    standards (as sets) and the same test type have an overall similarity
    of at least 0.85, whatever their names, and are therefore returned by
    [find_similar_pairs] at its default threshold. *)
Theorem same_coverage_is_similar scenarios i j s1 s2 :
  (i < j)%nat -> scenarios !! i = Some s1 -> scenarios !! j = Some s2 ->
  set_of (target_components s1) = set_of (target_components s2) ->
  set_of (target_systems s1) = set_of (target_systems s2) ->
  set_of (applicable_platforms s1) = set_of (applicable_platforms s2) ->
  set_of (regulatory_standards s1) = set_of (regulatory_standards s2) ->
  test_type s1 = test_type s2 ->
  0.85 <= overall (_compute_detailed_similarity s1 s2)
  /\ In (mk_pair s1 s2) (find_similar_pairs scenarios default_threshold).
Proof.
  intros Hij Hi Hj Hc Hs Hp Hr Ht.
  pose proof jaccard_similarity_self as Hself.
  assert (Hname : 0 <= text_jaccard_similarity (test_name s1) (test_name s2) <= 1)
    by apply jaccard_similarity_range.
  assert (Hge : 0.85 <= overall (_compute_detailed_similarity s1 s2)).
  { unfold _compute_detailed_similarity. cbn [overall].
    rewrite Hc, Hs, Hp, Hr, !Hself, bool_decide_eq_true_2 by exact Ht.
    exact_arith. lra. }
  split; [exact Hge|].
  unfold find_similar_pairs. apply sort_desc_In. apply all_pairs_In.
  exists i, j, s1, s2. unfold default_threshold. auto.
Qed.

Lemma same_coverage_is_similar_witness :
  0.85 <= overall (_compute_detailed_similarity samples.twin_a samples.twin_b)
  /\ In (mk_pair samples.twin_a samples.twin_b)
        (find_similar_pairs [samples.twin_a; samples.twin_b; samples.loner]
                            default_threshold).
Proof.
  apply (same_coverage_is_similar
           [samples.twin_a; samples.twin_b; samples.loner] 0 1
           samples.twin_a samples.twin_b);
    (lia || reflexivity).
Defined.
End DetailedSimilarity.


(** ** The threshold at sample inputs *)

Section ThresholdAtInputs.
Import duplicate_detector samples.

Lemma battery_thermal_names :
  text_jaccard_similarity "Battery Thermal Test" "Battery Thermal Validation"
  = 0.5.
Proof.
  unfold text_jaccard_similarity, jaccard_similarity. exact_arith.
  eval_closed (size (list_to_set (split (lower "Battery Thermal Test"))
                       : gset string)).
  eval_closed (size (list_to_set (split (lower "Battery Thermal Validation"))
                       : gset string)).
  cbn [Nat.eqb andb]. cbv zeta.
  eval_closed (size ((list_to_set (split (lower "Battery Thermal Test"))
                        : gset string)
                     ∩ list_to_set (split (lower "Battery Thermal Validation")))).
  eval_closed (size ((list_to_set (split (lower "Battery Thermal Test"))
                        : gset string)
                     ∪ list_to_set (split (lower "Battery Thermal Validation")))).
  rewrite bool_decide_eq_true_2 by lia. cbn. lra.
Qed.

(** Scenarios of the twins' coverage, named as the twins are, are similar
    to the degree 0.15 * 0.5 + 0.85. *)
Lemma same_coverage_overall (a b : scenario) :
  test_name a = "Battery Thermal Test" ->
  test_name b = "Battery Thermal Validation" ->
  set_of (target_components a) = set_of (target_components b) ->
  set_of (target_systems a) = set_of (target_systems b) ->
  set_of (applicable_platforms a) = set_of (applicable_platforms b) ->
  set_of (regulatory_standards a) = set_of (regulatory_standards b) ->
  test_type a = test_type b ->
  overall (_compute_detailed_similarity a b) = 0.925
  /\ overall (_compute_detailed_similarity b a) = 0.925.
Proof.
  intros Ha Hb Hc Hs Hp Hr Ht.
  assert (Hba : overall (_compute_detailed_similarity b a)
                = overall (_compute_detailed_similarity a b)).
  { unfold _compute_detailed_similarity. cbn [overall]. exact_arith.
    rewrite (jaccard_similarity_comm (set_of (target_components b))),
            (jaccard_similarity_comm (set_of (target_systems b))),
            (jaccard_similarity_comm (set_of (applicable_platforms b))),
            (jaccard_similarity_comm (set_of (regulatory_standards b))),
            (test_type_match_symmetric (test_type b)).
    assert (Hn : text_jaccard_similarity (test_name b) (test_name a)
                 = text_jaccard_similarity (test_name a) (test_name b))
      by apply jaccard_similarity_comm.
    rewrite Hn. reflexivity. }
  rewrite Hba.
  enough (overall (_compute_detailed_similarity a b) = 0.925) by (split; assumption).
  unfold _compute_detailed_similarity. cbn [overall]. exact_arith.
  rewrite Ha, Hb, battery_thermal_names, Hc, Hs, Hp, Hr,
          !jaccard_similarity_self, bool_decide_eq_true_2 by exact Ht.
  lra.
Qed.

Lemma select_canonical_of_two (a b : scenario) :
  -1 < canonical_score a ->
  _select_canonical [a; b]
  = Some (if Rgtb (canonical_score b) (canonical_score a) then b else a).
Proof.
  intros Ha. unfold _select_canonical. cbn [fold_left].
  unfold canonical_step at 2. cbn [snd]. rewrite Rgtb_true by exact Ha.
  unfold canonical_step. cbn [snd fst].
  destruct (Rgtb (canonical_score b) (canonical_score a)); reflexivity.
Qed.

Lemma duplicate_iff_threshold_witness :
  exists r c g,
    detect_duplicates_by_embedding pair_then_noise create_duplicate_detector
      [twin_a; seasoned; loner] = Ok r
    /\ clusters r = [c] /\ cluster_canonical c = Some seasoned
    /\ overall (_compute_detailed_similarity seasoned twin_a) = 0.925
    /\ similarity_threshold create_duplicate_detector = 0.85
    /\ In g (detected_duplicates r)
    /\ In (mk_duplicate seasoned twin_a) (duplicates g)
    /\ recommendation (mk_duplicate seasoned twin_a) = "review"
    /\ In (mk_pair twin_a twin_b)
          (find_similar_pairs [twin_a; twin_b; loner] default_threshold)
    /\ similarity (mk_pair twin_a twin_b) = 0.925.
Proof.
  destruct (pair_and_noise_detected twin_a seasoned eq_refl eq_refl)
    as (r & Hr & Hcl & _).
  destruct (same_coverage_overall twin_a seasoned)
    as [_ Hov]; try reflexivity.
  destruct (same_coverage_overall twin_a twin_b)
    as [Hov' _]; try reflexivity.
  assert (Hcn : cluster_canonical (mk_cluster (0%Z, [twin_a; seasoned]))
                = Some seasoned).
  { cbn [mk_cluster cluster_canonical snd].
    destruct canonical_score_seasoned as [Ha Hs].
    rewrite select_canonical_of_two by lra.
    rewrite Rgtb_true by lra. reflexivity. }
  destruct (@duplicate_iff_threshold exact_ops)
    as (_ & _ & _ & Hcluster & _ & Hpairs & _ & Hdefault & Hdefault').
  destruct (Hcluster pair_then_noise create_duplicate_detector
              [twin_a; seasoned; loner] r
              (mk_cluster (0%Z, [twin_a; seasoned])) seasoned twin_a Hr)
    as (Hiff & _ & _ & Hreview).
  { rewrite Hcl. left. reflexivity. }
  { exact Hcn. }
  { left. reflexivity. }
  { discriminate. }
  destruct (proj2 Hiff) as (g & Hg & _ & _ & Hd).
  { rewrite Hov, Hdefault. cbn. lra. }
  destruct (Hpairs [twin_a; twin_b; loner] default_threshold 0%nat 1%nat
              twin_a twin_b ltac:(lia) eq_refl eq_refl) as [Hpair Hsim].
  exists r, (mk_cluster (0%Z, [twin_a; seasoned])), g.
  split; [exact Hr|]. split; [exact Hcl|]. split; [exact Hcn|].
  split; [exact Hov|]. split; [exact Hdefault|]. split; [exact Hg|].
  split; [exact Hd|].
  split; [apply Hreview; rewrite Hov; cbn; lra|].
  split; [apply Hpair; rewrite Hov', Hdefault'; cbn; lra|].
  rewrite Hsim. exact Hov'.
Defined.

(** C4, as stated, does not hold.  Two dictionaries with one identifier
    are clustered together: the one that is not the canonical member has
    the overall similarity 0.925 to it, above the threshold 0.85, and no
    duplicate group is formed.  And the pair that [find_similar_pairs]
    returns at the similarity 0.925 has no label, neither "review" nor
    "consolidate". *)
Lemma unflagged_member_and_unlabelled_pair :
  (exists r c,
     detect_duplicates_by_embedding pair_then_noise create_duplicate_detector
       [twin_a; twin_a_rerun; loner] = Ok r
     /\ clusters r = [c]
     /\ cluster_scenarios c = [twin_a; twin_a_rerun]
     /\ cluster_canonical c = Some twin_a
     /\ similarity_threshold create_duplicate_detector
        <= overall (_compute_detailed_similarity twin_a twin_a_rerun)
     /\ detected_duplicates r = [])
  /\ find_similar_pairs [twin_a; twin_b] default_threshold
     = [mk_pair twin_a twin_b]
  /\ similarity (mk_pair twin_a twin_b) = 0.925
  /\ similar_pair_get (mk_pair twin_a twin_b) "recommendation" = None.
Proof.
  destruct (same_coverage_overall twin_a twin_a_rerun)
    as [Hov _]; try reflexivity.
  destruct (same_coverage_overall twin_a twin_b)
    as [Hov' _]; try reflexivity.
  split; [|split; [|split; [|reflexivity]]].
  - destruct (pair_and_noise_detected twin_a twin_a_rerun eq_refl eq_refl)
      as (r & Hr & Hcl & _).
    assert (Hcn : _select_canonical [twin_a; twin_a_rerun] = Some twin_a).
    { assert (Hs : canonical_score twin_a = 0.75
                   /\ canonical_score twin_a_rerun = 0.75)
        by (unfold canonical_score; cbn; split; lra).
      destruct Hs as [Ha Hb].
      rewrite select_canonical_of_two by lra.
      rewrite Rgtb_false by lra. reflexivity. }
    exists r, (mk_cluster (0%Z, [twin_a; twin_a_rerun])).
    split; [exact Hr|]. split; [exact Hcl|]. split; [reflexivity|].
    split; [exact Hcn|].
    split; [rewrite Hov; cbn; lra|].
    destruct (detect_inv _ _ _ _ Hr)
      as [Hempty | (_ & _ & _ & _ & _ & _ & Hid & _)];
      [rewrite Hempty; reflexivity|].
    rewrite Hcl in Hid. cbn [_identify_duplicates_in_clusters] in Hid.
    cbn [mk_cluster cluster_scenarios cluster_canonical snd length] in Hid.
    rewrite bool_decide_eq_false_2 in Hid by lia.
    rewrite Hcn in Hid. cbn [cluster_duplicates] in Hid.
    rewrite !bool_decide_eq_true_2 in Hid by reflexivity.
    cbn in Hid. injection Hid as <-. reflexivity.
  - unfold find_similar_pairs, default_threshold. cbn [all_pairs pairs_with].
    rewrite Hov'. rewrite Rgeb_true by (cbn; lra). reflexivity.
  - exact Hov'.
Qed.
End ThresholdAtInputs.

(** ** All pairs and savings *)

Lemma StronglySorted_lookup {A} (R : A -> A -> Prop) (l : list A) :
  StronglySorted R l ->
  forall i j a b, (i < j)%nat -> l !! i = Some a -> l !! j = Some b -> R a b.
Proof.
  induction 1 as [|x l Hs IH Hx]; intros i j a b Hij Hi Hj.
  - rewrite lookup_nil in Hi. discriminate.
  - destruct j as [|j]; [lia|]. cbn in Hj. destruct i as [|i].
    + cbn in Hi. injection Hi as <-. rewrite Forall_forall in Hx.
      apply Hx. eapply list_elem_of_lookup_2. exact Hj.
    + cbn in Hi. apply (IH i j); [lia | assumption..].
Qed.

Section PairsAndSavings.
Import duplicate_detector.

Lemma pairs_with_length threshold s later :
  (length (pairs_with threshold s later) <= length later)%nat.
Proof.
  induction later as [|x later IH]; cbn [pairs_with length]; [lia|].
  destruct (Rgeb _ threshold); cbn [length]; lia.
Qed.

Lemma pairs_with_length_all threshold s later :
  threshold <= 0 -> length (pairs_with threshold s later) = length later.
Proof.
  intros Ht. induction later as [|x later IH]; cbn [pairs_with length]; [lia|].
  pose proof (overall_similarity_range s x) as Hov.
  rewrite Rgeb_true by lra. cbn [length]. lia.
Qed.

Lemma all_pairs_length threshold scenarios :
  (2 * length (all_pairs threshold scenarios)
   <= length scenarios * (length scenarios - 1))%nat
  /\ (threshold <= 0 ->
      (2 * length (all_pairs threshold scenarios)
       = length scenarios * (length scenarios - 1))%nat).
Proof.
  induction scenarios as [|x l [IH1 IH2]]; cbn [all_pairs length]; [split; lia|].
  rewrite length_app.
  pose proof (pairs_with_length threshold x l).
  split.
  - destruct l; cbn [length] in *; nia.
  - intros Ht. specialize (IH2 Ht).
    pose proof (pairs_with_length_all threshold x l Ht).
    destruct l; cbn [length] in *; nia.
Qed.

(** X5: [find_similar_pairs] returns its pairs in descending order of
    similarity, each at or above the threshold; of [n] scenarios it
    returns at most [n (n - 1) / 2] pairs, and exactly that many when the
    threshold is not positive; fewer than two scenarios give no pair. *)
Theorem find_similar_pairs_sorted scenarios threshold :
  (forall i j p q, (i <= j)%nat ->
     find_similar_pairs scenarios threshold !! i = Some p ->
     find_similar_pairs scenarios threshold !! j = Some q ->
     threshold <= similarity q <= similarity p)
  /\ (2 * length (find_similar_pairs scenarios threshold)
      <= length scenarios * (length scenarios - 1))%nat
  /\ (threshold <= 0 ->
      (2 * length (find_similar_pairs scenarios threshold)
       = length scenarios * (length scenarios - 1))%nat)
  /\ ((length scenarios < 2)%nat -> find_similar_pairs scenarios threshold = []).
Proof.
  unfold find_similar_pairs.
  set (key := fun p : similar_pair => Num (similarity p)).
  assert (Hsorted : StronglySorted (key_ge key)
                      (sort_desc key (all_pairs threshold scenarios))).
  { apply sort_desc_sorted. apply Forall_forall. intros p _. exact I. }
  assert (Hthr : forall q, In q (sort_desc key (all_pairs threshold scenarios)) ->
                           threshold <= similarity q).
  { intros q Hq. apply sort_desc_In in Hq.
    apply all_pairs_In in Hq as (_ & _ & a & b & _ & _ & _ & Hge & ->). exact Hge. }
  split; [|split; [|split]].
  - intros i j p q Hij Hi Hj. split.
    + apply Hthr. apply list_elem_of_In. eapply list_elem_of_lookup_2. exact Hj.
    + destruct (decide (i = j)) as [->|Hne].
      * rewrite Hi in Hj. injection Hj as <-. lra.
      * assert (key_ge key p q) as (x & y & Hx & Hy & Hle).
        { apply (StronglySorted_lookup (key_ge key) _ Hsorted i j); [lia | assumption..]. }
        unfold key in Hx, Hy. injection Hx as <-. injection Hy as <-. exact Hle.
  - rewrite sort_desc_length. apply all_pairs_length.
  - rewrite sort_desc_length. apply all_pairs_length.
  - intros Hn. destruct scenarios as [|a [|b l]]; cbn in Hn; try lia; reflexivity.
Qed.

(** X6: the savings estimate depends on the number of duplicates only: 8
    hours and 4000 GBP for each, the count itself, and a reduction of
    100 n / (n + 1) percent, which is below 100; the canonical scenario
    and the duplicates' own durations and costs play no part. *)
Theorem estimate_savings_by_count canonical dups :
  let n := INR (length dups) in
  let s := _estimate_savings canonical dups in
  time_saved_hours s = 8 * n
  /\ cost_saved_gbp s = 4000 * n
  /\ tests_eliminated s = length dups
  /\ reduction_percent s = 100 * n / (n + 1)
  /\ 0 <= reduction_percent s < 100
  /\ (forall canonical' dups', length dups' = length dups ->
        _estimate_savings canonical' dups' = s).
Proof.
  cbv zeta. unfold _estimate_savings.
  cbn [time_saved_hours cost_saved_gbp tests_eliminated reduction_percent].
  pose proof (pos_INR (length dups)) as Hn.
  set (n := INR (length dups)) in *.
  assert (0 < / (n + 1)) as Hinv by (apply Rinv_0_lt_compat; lra).
  assert ((n + 1) * / (n + 1) = 1) as Hone by (apply Rinv_r; lra).
  split; [lra|]. split; [lra|]. split; [reflexivity|].
  split; [unfold Rdiv; lra|]. split; [unfold Rdiv; split; nra|].
  intros c' d' Hlen. subst n. rewrite Hlen. reflexivity.
Qed.
End PairsAndSavings.

(** ** The structure of a detection *)

Section DetectionStructure.
Import duplicate_detector.

Lemma dict_append_keys label s d k :
  In k (map fst (dict_append label s d)) <-> k = label \/ In k (map fst d).
Proof.
  induction d as [|[l ms] d IH]; cbn.
  - split; [intros [<- | []]; left; reflexivity | intros [-> | []]; left; reflexivity].
  - case_bool_decide as El; cbn.
    + split; [intros H; right; exact H | intros [-> | H]; [left; exact El | exact H]].
    + rewrite IH. split; [intros [H | [H | H]] | intros [H | [H | H]]]; auto.
Qed.

Lemma dict_append_NoDup label s d :
  NoDup (map fst d) -> NoDup (map fst (dict_append label s d)).
Proof.
  induction d as [|[l ms] d IH]; cbn; intros Hnd.
  - apply NoDup_singleton.
  - case_bool_decide as El; cbn; [exact Hnd|].
    apply NoDup_cons in Hnd as [Hl Hd]. apply NoDup_cons. split; [|apply IH, Hd].
    rewrite list_elem_of_In, dict_append_keys. intros [-> | Hin]; [done|].
    apply Hl, list_elem_of_In, Hin.
Qed.

Lemma dict_append_concat label s d :
  concat (map snd (dict_append label s d)) ≡ₚ s :: concat (map snd d).
Proof.
  induction d as [|[l ms] d IH]; cbn; [reflexivity|].
  case_bool_decide; cbn.
  - rewrite <- app_assoc. cbn. symmetry. apply Permutation_middle.
  - rewrite IH. symmetry. apply Permutation_middle.
Qed.

(** [organize] distributes the labelled scenarios, each one once, over the
    dictionary and the noise list; the dictionary keeps distinct keys, none
    of them -1. *)
Lemma organize_partition labels valid : forall idx d noise d' noise',
  organize idx labels valid d noise = Ok (d', noise') ->
  concat (map snd d') ++ noise'
    ≡ₚ (concat (map snd d) ++ noise) ++ take (length labels) (drop idx valid)
  /\ (NoDup (map fst d) -> NoDup (map fst d'))
  /\ (Forall (fun item => fst item <> (-1)%Z) d ->
      Forall (fun item => fst item <> (-1)%Z) d').
Proof.
  induction labels as [|label labels IH]; intros idx d noise d' noise' H; cbn in H.
  - injection H as <- <-. cbn. rewrite app_nil_r. auto.
  - destruct (valid !! idx) as [s0|] eqn:Es0; [|discriminate].
    rewrite (drop_S _ _ _ Es0). cbn [length take].
    case_bool_decide as Elab; destruct (IH _ _ _ _ _ H) as (Hp & Hnd & Hk).
    + split; [|split; [exact Hnd | exact Hk]].
      rewrite Hp, !app_assoc. rewrite <- (app_assoc _ [s0]). reflexivity.
    + split; [|split].
      * rewrite Hp, dict_append_concat. cbn.
        rewrite <- !app_assoc. rewrite !app_assoc. apply Permutation_middle.
      * intros H0. apply Hnd, dict_append_NoDup, H0.
      * intros H0. apply Hk. rewrite Forall_forall. intros [l ms] Hin.
        apply list_elem_of_In in Hin.
        assert (Hkey : In l (map fst (dict_append label s0 d))).
        { apply in_map_iff. exists (l, ms). split; [reflexivity | exact Hin]. }
        apply dict_append_keys in Hkey as [-> | Hkey]; [exact Elab|].
        apply in_map_iff in Hkey as ([l' ms'] & <- & Hin').
        rewrite Forall_forall in H0. apply (H0 (l', ms')), list_elem_of_In, Hin'.
Qed.

Lemma concat_Permutation {A} (l k : list (list A)) :
  l ≡ₚ k -> concat l ≡ₚ concat k.
Proof.
  induction 1 as [|x l k _ IH|x y l|l1 l2 l3 _ IH1 _ IH2]; cbn.
  - reflexivity.
  - rewrite IH. reflexivity.
  - rewrite !app_assoc. apply Permutation_app_tail, Permutation_app_comm.
  - etransitivity; eassumption.
Qed.

Lemma sizes_sum (cl : list cluster) :
  (forall c, In c cl -> cluster_size c = length (cluster_scenarios c)) ->
  list_sum (map cluster_size cl) = length (concat (map cluster_scenarios cl)).
Proof.
  unfold list_sum. induction cl as [|c cl IH]; intros H; cbn; [reflexivity|].
  rewrite length_app, (H c (or_introl eq_refl)), IH; [reflexivity|].
  intros c' Hc'. apply H. right. exact Hc'.
Qed.

Variable fit_predict : Z -> Z -> list (list R) -> result (list Z).
Variable self : DuplicateDetector.

Lemma detect_counts scenarios r noise :
  detect_duplicates_by_embedding fit_predict self scenarios = Ok r ->
  noise_points r = Some noise ->
  n_clusters r = Some (length (clusters r)) /\ n_noise r = Some (length noise).
Proof.
  unfold detect_duplicates_by_embedding. intros H Hn.
  destruct scenarios as [|s0 rest] eqn:Esc.
  { injection H as <-. discriminate. }
  rewrite <- Esc in *. clear Esc s0 rest.
  destruct (_ <? _)%Z.
  { injection H as <-. discriminate. }
  destruct (np_array (omap embedding scenarios)) as [rows|e]; cbn in H; [|discriminate].
  destruct (fit_predict _ _ _) as [labels|e]; cbn in H; [|discriminate].
  destruct (organize 0 labels _ [] []) as [[d noise0]|e]; cbn in H; [|discriminate].
  destruct (_identify_duplicates_in_clusters self _) as [gs|e]; cbn in H; [|discriminate].
  injection H as <-. cbn in *. injection Hn as <-. split; reflexivity.
Qed.

Lemma detect_early scenarios r :
  detect_duplicates_by_embedding fit_predict self scenarios = Ok r ->
  noise_points r = None <->
  scenarios = []
  \/ (Z.of_nat (length (omap embedding scenarios)) < min_cluster_size self)%Z.
Proof.
  unfold detect_duplicates_by_embedding. intros H.
  destruct scenarios as [|s0 rest] eqn:Esc.
  { injection H as <-. split; [left; reflexivity | reflexivity]. }
  rewrite <- Esc in *.
  destruct (_ <? _)%Z eqn:Emin.
  { injection H as <-. apply Z.ltb_lt in Emin. split; [right; exact Emin | reflexivity]. }
  apply Z.ltb_ge in Emin.
  destruct (np_array (omap embedding scenarios)) as [rows|e]; cbn in H; [|discriminate].
  destruct (fit_predict _ _ _) as [labels|e]; cbn in H; [|discriminate].
  destruct (organize 0 labels _ [] []) as [[d noise0]|e]; cbn in H; [|discriminate].
  destruct (_identify_duplicates_in_clusters self _) as [gs|e]; cbn in H; [|discriminate].
  injection H as <-. cbn. split; [discriminate|].
  intros [H | H]; [rewrite Esc in H; discriminate | lia].
Qed.

(** X7: the shape of a detection.  A returned dictionary lacks the
    noise_points key exactly when the input is empty or has fewer
    embeddings than min_cluster_size.  Otherwise n_clusters and n_noise
    are the lengths of the cluster list and of the noise list; every
    cluster has at least one member, its size is the number of its
    members, and its identifier is not -1; no two clusters have the same
    identifier; and the clusters come in descending order of size. *)
Theorem detection_shape scenarios r :
  detect_duplicates_by_embedding fit_predict self scenarios = Ok r ->
  (noise_points r = None <->
     scenarios = []
     \/ (Z.of_nat (length (omap embedding scenarios)) < min_cluster_size self)%Z)
  /\ (forall noise, noise_points r = Some noise ->
        n_clusters r = Some (length (clusters r))
        /\ n_noise r = Some (length noise))
  /\ (forall c, In c (clusters r) ->
        cluster_size c = length (cluster_scenarios c)
        /\ (1 <= cluster_size c)%nat /\ cluster_id c <> (-1)%Z)
  /\ NoDup (map cluster_id (clusters r))
  /\ (forall i j ci cj, (i <= j)%nat ->
        clusters r !! i = Some ci -> clusters r !! j = Some cj ->
        (cluster_size cj <= cluster_size ci)%nat).
Proof.
  intros H. split; [exact (detect_early _ _ H)|].
  split; [intros noise Hn; exact (detect_counts _ _ _ H Hn)|].
  destruct (detect_inv _ _ _ _ H) as [-> | (labels & d & noise & Hl & Ho & Hc & _ & Hn)].
  { cbn. split; [intros c []|]. split; [constructor|].
    intros i j ci cj _ Hi. rewrite lookup_nil in Hi. discriminate. }
  destruct (organize_partition _ _ _ _ _ _ _ Ho) as (_ & Hnd & Hk).
  destruct (organize_inv _ _ _ _ _ _ _ Ho) as (_ & _ & _ & _ & Hne).
  specialize (Hnd ltac:(constructor)). specialize (Hk ltac:(constructor)).
  specialize (Hne ltac:(constructor)).
  set (key := fun c : cluster => Num (INR (cluster_size c))) in *.
  split; [|split].
  - intros c Hin. rewrite Hc in Hin. apply sort_desc_In in Hin.
    apply in_map_iff in Hin as ([l ms] & <- & Hitem). cbn.
    apply list_elem_of_In in Hitem.
    rewrite Forall_forall in Hk, Hne.
    specialize (Hk _ Hitem). specialize (Hne _ Hitem). cbn in Hk, Hne.
    split; [reflexivity|]. split; [|exact Hk].
    destruct ms; [done | cbn; lia].
  - rewrite Hc. rewrite (sort_desc_perm key (map mk_cluster d)).
    rewrite map_map. cbn. exact Hnd.
  - intros i j ci cj Hij Hi Hj.
    destruct (decide (i = j)) as [-> | Hne'].
    { rewrite Hi in Hj. injection Hj as <-. reflexivity. }
    assert (Hs : StronglySorted (key_ge key) (clusters r)).
    { rewrite Hc. apply sort_desc_sorted. apply Forall_forall. intros c _. exact I. }
    destruct (StronglySorted_lookup _ _ Hs i j ci cj ltac:(lia) Hi Hj)
      as (x & y & Hx & Hy & Hxy).
    unfold key in Hx, Hy. injection Hx as <-. injection Hy as <-.
    apply INR_le. exact Hxy.
Qed.

(** X8: clusters and noise points partition the embedded scenarios.  When
    the clusterer returns one label per embedding, the members of all
    clusters together with the noise points are, up to order, exactly the
    scenarios that carry an embedding, each as often as it is given; so
    the cluster sizes and n_noise add up to the number of embeddings, and
    a scenario without an embedding is in no cluster and is no noise
    point. *)
Theorem detection_partitions_embedded scenarios r noise labels :
  detect_duplicates_by_embedding fit_predict self scenarios = Ok r ->
  noise_points r = Some noise ->
  fit_predict (min_cluster_size self) (min_samples self)
              (omap embedding scenarios) = Ok labels ->
  length labels = length (omap embedding scenarios) ->
  concat (map cluster_scenarios (clusters r)) ++ noise ≡ₚ valid_of scenarios
  /\ (list_sum (map cluster_size (clusters r)) + length noise
      = length (omap embedding scenarios))%nat
  /\ (forall s, embedding s = None ->
        ~ In s noise
        /\ forall c, In c (clusters r) -> ~ In s (cluster_scenarios c)).
Proof.
  intros H Hn Hlab Hlen.
  destruct (detect_inv _ _ _ _ H) as [-> | (labels' & d & noise' & Hl & Ho & Hc & _ & Hn')].
  { discriminate. }
  rewrite Hlab in Hl. injection Hl as <-.
  rewrite Hn in Hn'. injection Hn' as <-.
  destruct (organize_partition _ _ _ _ _ _ _ Ho) as (Hp & _ & _).
  cbn in Hp. rewrite drop_0, Hlen, <- valid_of_length, firstn_all in Hp.
  assert (Hmembers :
    concat (map cluster_scenarios (clusters r)) ≡ₚ concat (map snd d)).
  { rewrite Hc. apply concat_Permutation.
    rewrite (Permutation_map cluster_scenarios (sort_desc_perm _ (map mk_cluster d))).
    rewrite map_map. reflexivity. }
  assert (Hall :
    concat (map cluster_scenarios (clusters r)) ++ noise ≡ₚ valid_of scenarios).
  { rewrite Hmembers. exact Hp. }
  split; [exact Hall|]. split.
  - rewrite <- valid_of_length, <- (Permutation_length Hall), length_app.
    f_equal. apply sizes_sum. intros c Hin. rewrite Hc in Hin.
    apply sort_desc_In in Hin. apply in_map_iff in Hin as (item & <- & _).
    reflexivity.
  - intros s Hs.
    assert (Hnot : ~ In s (valid_of scenarios)).
    { unfold valid_of. rewrite filter_In. intros [_ Hb].
      apply bool_decide_eq_true in Hb. rewrite Hs in Hb. destruct Hb as [x [=]]. }
    split.
    + intros Hin. apply Hnot. apply (Permutation_in _ Hall).
      apply in_app_iff. right. exact Hin.
    + intros c Hc' Hin. apply Hnot. apply (Permutation_in _ Hall).
      apply in_app_iff. left. apply in_concat. exists (cluster_scenarios c).
      split; [apply in_map; exact Hc' | exact Hin].
Qed.

Lemma np_array_cases rows :
  (consistent_dimension rows /\ np_array rows = Ok rows)
  \/ (~ consistent_dimension rows /\ np_array rows = Raise ValueError).
Proof.
  destruct (np_array rows) as [rows'|e] eqn:E.
  - left. assert (Hc : consistent_dimension rows); [|split;
      [exact Hc | rewrite <- E; apply np_array_consistent, Hc]].
    destruct rows as [|r rest]; [intros r1 r2 []|]. cbn in E.
    destruct (forallb _ rest) eqn:Eall; [|discriminate].
    rewrite forallb_forall in Eall.
    assert (Hr : forall x, In x (r :: rest) -> length x = length r).
    { intros x [<-|Hx]; [reflexivity|]. apply Nat.eqb_eq, Eall, Hx. }
    intros r1 r2 H1 H2. rewrite (Hr _ H1), (Hr _ H2). reflexivity.
  - right. assert (Hc : ~ consistent_dimension rows); [|split;
      [exact Hc | rewrite <- E; apply np_array_inconsistent, Hc]].
    intros Hc. rewrite (np_array_consistent _ Hc) in E. discriminate.
Qed.

(** X9: the exceptions of a detection on scenario dictionaries that carry
    the keys ['scenario_id'] and ['test_name'].  With a clusterer that
    returns one label per embedding, the call raises in two cases only,
    both with at least min_cluster_size embeddings: the embeddings are not
    of one dimension, and it is a ValueError; or they are, and the
    clusterer raised, and it is the clusterer's exception.  In particular
    the index look-ups of the labelled scenarios do not fail.  (A
    dictionary without one of the two keys, on which the reads
    [scenario['scenario_id']] and [scenario['test_name']] of the duplicate
    groups raise KeyError, is not a value of the record type.) *)
Theorem detection_raises_iff scenarios e :
  (forall labels,
      fit_predict (min_cluster_size self) (min_samples self)
                  (omap embedding scenarios) = Ok labels ->
      length labels = length (omap embedding scenarios)) ->
  detect_duplicates_by_embedding fit_predict self scenarios = Raise e <->
  scenarios <> []
  /\ (min_cluster_size self <= Z.of_nat (length (omap embedding scenarios)))%Z
  /\ ((~ consistent_dimension (omap embedding scenarios) /\ e = ValueError)
      \/ (consistent_dimension (omap embedding scenarios)
          /\ fit_predict (min_cluster_size self) (min_samples self)
                         (omap embedding scenarios) = Raise e)).
Proof.
  intros Hone.
  destruct (decide (scenarios = [])) as [-> | Hne].
  { cbn. split; [discriminate | intros [[] _]; reflexivity]. }
  destruct (Z_lt_le_dec (Z.of_nat (length (omap embedding scenarios)))
                        (min_cluster_size self)) as [Hlt | Hmin].
  { rewrite (detect_below_min_cluster_size fit_predict self _ Hlt).
    split; [discriminate | intros (_ & H & _); lia]. }
  destruct (np_array_cases (omap embedding scenarios)) as [[Hc Ha] | [Hc Ha]].
  - destruct (fit_predict (min_cluster_size self) (min_samples self)
                          (omap embedding scenarios)) as [labels|e'] eqn:Elab.
    + destruct (detect_ok fit_predict self scenarios labels Hne Hmin Hc Elab)
        as (r & noise & Hr & _).
      { rewrite (Hone labels eq_refl). reflexivity. }
      rewrite Hr. split; [discriminate|].
      intros (_ & _ & [[Hc' _] | [_ [=]]]). contradiction.
    + assert (Hr : detect_duplicates_by_embedding fit_predict self scenarios
                   = Raise e').
      { unfold detect_duplicates_by_embedding.
        destruct scenarios as [|s0 rest] eqn:Esc; [done|]. rewrite <- Esc in *.
        replace (_ <? _)%Z with false by (symmetry; apply Z.ltb_ge; exact Hmin).
        rewrite Ha. cbn. rewrite Elab. reflexivity. }
      rewrite Hr. split.
      * intros [= ->]. split; [exact Hne|]. split; [exact Hmin|].
        right. split; [exact Hc | reflexivity].
      * intros (_ & _ & [[Hc' _] | [_ [= ->]]]); [contradiction | reflexivity].
  - assert (Hr : detect_duplicates_by_embedding fit_predict self scenarios
                 = Raise ValueError).
    { unfold detect_duplicates_by_embedding.
      destruct scenarios as [|s0 rest] eqn:Esc; [done|]. rewrite <- Esc in *.
      replace (_ <? _)%Z with false by (symmetry; apply Z.ltb_ge; exact Hmin).
      rewrite Ha. reflexivity. }
    rewrite Hr. split.
    + intros [= <-]. split; [exact Hne|]. split; [exact Hmin|].
      left. split; [exact Hc | reflexivity].
    + intros (_ & _ & [[_ ->] | [Hc' _]]); [reflexivity | contradiction].
Qed.

Lemma cluster_duplicates_length cn l :
  (length (cluster_duplicates self cn l) <= length l)%nat
  /\ (In cn l -> (length (cluster_duplicates self cn l) < length l)%nat).
Proof.
  induction l as [|x l [IH1 IH2]]; cbn [cluster_duplicates length].
  - split; [lia | intros []].
  - case_bool_decide as Hid.
    + split; [lia | intros _; lia].
    + split; [destruct (Rgeb _ _); cbn [length]; lia|].
      intros [-> | Hin]; [done|]. specialize (IH2 Hin).
      destruct (Rgeb _ _); cbn [length]; lia.
Qed.

(** The groups come from the clusters in order, one at most from each. *)
Lemma identify_groups cl : forall gs,
  _identify_duplicates_in_clusters self cl = Ok gs ->
  map group_cluster_id gs `sublist_of` map cluster_id cl
  /\ forall g, In g gs ->
       exists c cn, In c cl /\ cluster_canonical c = Some cn
         /\ (2 <= length (cluster_scenarios c))%nat
         /\ group_of self c cn g
         /\ duplicates g <> []
         /\ potential_savings g = _estimate_savings cn (duplicates g).
Proof.
  induction cl as [|c cl IH]; intros gs H; cbn in H.
  - injection H as <-. split; [constructor | intros g []].
  - case_bool_decide as Hlen.
    + destruct (IH gs H) as [Hsub Hg]. split; [apply sublist_cons, Hsub|].
      intros g Hin. destruct (Hg g Hin) as (c' & cn & Hc' & Hrest).
      exists c', cn. split; [right; exact Hc' | exact Hrest].
    + destruct (cluster_canonical c) as [cn|] eqn:Ecn; [|discriminate].
      destruct (_identify_duplicates_in_clusters self cl) as [gs'|e];
        cbn in H; [|discriminate].
      destruct (IH gs' eq_refl) as [Hsub Hg].
      assert (Hrest : forall g, In g gs' ->
        exists c0 cn0, In c0 (c :: cl) /\ cluster_canonical c0 = Some cn0
          /\ (2 <= length (cluster_scenarios c0))%nat
          /\ group_of self c0 cn0 g
          /\ duplicates g <> []
          /\ potential_savings g = _estimate_savings cn0 (duplicates g)).
      { intros g Hin. destruct (Hg g Hin) as (c' & cn' & Hc' & Hr).
        exists c', cn'. split; [right; exact Hc' | exact Hr]. }
      destruct (cluster_duplicates self cn (cluster_scenarios c)) as [|d ds] eqn:Ecd.
      * injection H as <-. split; [apply sublist_cons, Hsub | exact Hrest].
      * injection H as <-. split; [cbn; apply sublist_skip, Hsub|].
        intros g [<- | Hin]; [|exact (Hrest g Hin)].
        exists c, cn. split; [left; reflexivity|]. split; [exact Ecn|].
        split; [lia|]. split; [|split; [discriminate | reflexivity]].
        repeat split. cbn. symmetry. exact Ecd.
Qed.

(** X10: the duplicate groups of a detection.  There is at most one group
    per cluster, in the order of the clusters, and no two groups carry the
    same cluster identifier.  A group belongs to a cluster of at least two
    members; its canonical entry is a member of that cluster; it lists at
    least one duplicate and at most all members but one; every duplicate
    listed is a member of the cluster with an identifier other than the
    canonical one; and tests_eliminated is the number of duplicates
    listed. *)
Theorem duplicate_groups_shape scenarios r :
  detect_duplicates_by_embedding fit_predict self scenarios = Ok r ->
  map group_cluster_id (detected_duplicates r)
    `sublist_of` map cluster_id (clusters r)
  /\ NoDup (map group_cluster_id (detected_duplicates r))
  /\ (length (detected_duplicates r) <= length (clusters r))%nat
  /\ forall g, In g (detected_duplicates r) ->
       exists c cn,
         In c (clusters r) /\ cluster_id c = group_cluster_id g
         /\ (2 <= cluster_size c)%nat
         /\ In cn (cluster_scenarios c)
         /\ canonical_id g = scenario_id cn /\ canonical_name g = test_name cn
         /\ (1 <= length (duplicates g) <= cluster_size c - 1)%nat
         /\ tests_eliminated (potential_savings g) = length (duplicates g)
         /\ forall d, In d (duplicates g) ->
              dup_scenario_id d <> canonical_id g
              /\ exists m, In m (cluster_scenarios c)
                           /\ dup_scenario_id d = scenario_id m
                           /\ dup_test_name d = test_name m.
Proof.
  intros H.
  destruct (detect_inv _ _ _ _ H) as [-> | (labels & d & noise & _ & Ho & Hc & Hid & _)].
  { cbn. split; [constructor|]. split; [constructor|]. split; [lia | intros g []]. }
  destruct (identify_groups _ _ Hid) as [Hsub Hg].
  destruct (organize_partition _ _ _ _ _ _ _ Ho) as (_ & Hnd & _).
  specialize (Hnd ltac:(constructor)).
  assert (Hids : NoDup (map cluster_id (clusters r))).
  { rewrite Hc.
    rewrite (sort_desc_perm (fun c => Num (INR (cluster_size c))) (map mk_cluster d)).
    rewrite map_map. cbn. exact Hnd. }
  split; [exact Hsub|]. split; [exact (sublist_NoDup _ _ Hids Hsub)|].
  split.
  { apply sublist_length in Hsub. rewrite !length_map in Hsub. exact Hsub. }
  intros g Hin.
  destruct (Hg g Hin) as (c & cn & Hcin & Hcn & Hlen & (Hgid & Hcid & Hname & Hdup)
                            & Hne & Hsav).
  assert (Hsize : cluster_size c = length (cluster_scenarios c)).
  { rewrite Hc in Hcin. apply sort_desc_In in Hcin.
    apply in_map_iff in Hcin as (item & <- & _). reflexivity. }
  assert (Hsel : cluster_canonical c = _select_canonical (cluster_scenarios c)).
  { rewrite Hc in Hcin. apply sort_desc_In in Hcin.
    apply in_map_iff in Hcin as (item & <- & _). reflexivity. }
  rewrite Hsel in Hcn. pose proof (select_canonical_member _ _ Hcn) as Hmem.
  exists c, cn. split; [exact Hcin|]. split; [symmetry; exact Hgid|].
  split; [lia|]. split; [exact Hmem|]. split; [exact Hcid|]. split; [exact Hname|].
  split.
  { rewrite Hdup, Hsize.
    destruct (cluster_duplicates_length cn (cluster_scenarios c)) as [_ Hlt].
    specialize (Hlt Hmem). split; [|lia].
    rewrite Hdup in Hne.
    destruct (cluster_duplicates self cn (cluster_scenarios c)); [done | cbn; lia]. }
  split; [rewrite Hsav; reflexivity|].
  intros d0 Hd0. rewrite Hdup in Hd0.
  apply cluster_duplicates_In in Hd0 as (m & Hm & Hneq & _ & ->). cbn.
  split; [rewrite Hcid; exact Hneq|]. exists m. auto.
Qed.
End DetectionStructure.

Section DetectionStructureWitness.
Import duplicate_detector samples.

Lemma detection_shape_witness :
  exists r,
    detect_duplicates_by_embedding pair_then_noise create_duplicate_detector
      [twin_a; twin_b; loner] = Ok r
    /\ NoDup (map cluster_id (clusters r))
    /\ (forall c, In c (clusters r) ->
          cluster_size c = length (cluster_scenarios c)
          /\ (1 <= cluster_size c)%nat /\ cluster_id c <> (-1)%Z).
Proof.
  destruct three_scenarios_detected as (r & noise & Hr & _).
  exists r. split; [exact Hr|].
  destruct (detection_shape pair_then_noise create_duplicate_detector
              [twin_a; twin_b; loner] r Hr) as (_ & _ & Hsize & Hids & _).
  split; [exact Hids | exact Hsize].
Defined.

Lemma detection_partitions_embedded_witness :
  exists r noise,
    detect_duplicates_by_embedding pair_then_noise create_duplicate_detector
      [twin_a; twin_b; loner] = Ok r
    /\ noise_points r = Some noise
    /\ concat (map cluster_scenarios (clusters r)) ++ noise
         ≡ₚ valid_of [twin_a; twin_b; loner]
    /\ (list_sum (map cluster_size (clusters r)) + length noise = 3)%nat.
Proof.
  destruct three_scenarios_detected as (r & noise & Hr & Hn).
  exists r, noise. split; [exact Hr|]. split; [exact Hn|].
  destruct (detection_partitions_embedded pair_then_noise
              create_duplicate_detector [twin_a; twin_b; loner] r noise
              [0; 0; -1]%Z Hr Hn eq_refl eq_refl) as (Hall & Hsum & _).
  split; [exact Hall | exact Hsum].
Defined.

Lemma pair_then_noise_one_label_per_row m k rows labels :
  pair_then_noise m k rows = Ok labels -> length labels = length rows.
Proof.
  unfold pair_then_noise. intros [= <-]. rewrite length_map, length_seq.
  reflexivity.
Qed.

Lemma detection_raises_iff_witness :
  (forall labels,
      pair_then_noise (min_cluster_size create_duplicate_detector)
        (min_samples create_duplicate_detector)
        (omap embedding [dim1; dim2]) = Ok labels ->
      length labels = length (omap embedding [dim1; dim2]))
  /\ detect_duplicates_by_embedding pair_then_noise create_duplicate_detector
       [dim1; dim2] = Raise ValueError.
Proof.
  split; [apply pair_then_noise_one_label_per_row|].
  apply (detection_raises_iff pair_then_noise create_duplicate_detector
           [dim1; dim2] ValueError).
  - apply pair_then_noise_one_label_per_row.
  - split; [discriminate|]. split; [cbn; lia|].
    left. split; [exact dim1_dim2_inconsistent | reflexivity].
Defined.

Lemma duplicate_groups_shape_witness :
  exists r,
    detect_duplicates_by_embedding pair_then_noise create_duplicate_detector
      [twin_a; twin_b; loner] = Ok r
    /\ NoDup (map group_cluster_id (detected_duplicates r))
    /\ (length (detected_duplicates r) <= length (clusters r))%nat.
Proof.
  destruct three_scenarios_detected as (r & noise & Hr & _).
  exists r. split; [exact Hr|].
  destruct (duplicate_groups_shape pair_then_noise create_duplicate_detector
              [twin_a; twin_b; loner] r Hr) as (_ & Hids & Hlen & _).
  split; [exact Hids | exact Hlen].
Defined.
End DetectionStructureWitness.

(** ** The graph, rules and historical signals *)

Section SignalProperties.
Import recommender.

Lemma is_empty_set (l : list string) :
  is_empty l = bool_decide ((list_to_set l : gset string) = ∅).
Proof.
  destruct l as [|x l]; cbn.
  - rewrite bool_decide_eq_true_2; reflexivity.
  - rewrite bool_decide_eq_false_2; [reflexivity|]. set_solver.
Qed.

Lemma is_empty_true {A} (l : list A) : is_empty l = true <-> l = [].
Proof. destruct l; cbn; split; congruence. Qed.

Lemma inter_size_comm a b : inter_size a b = inter_size b a.
Proof. unfold inter_size. f_equal. apply (comm_L (∩)). Qed.

Lemma union_size_comm a b : union_size a b = union_size b a.
Proof. unfold union_size. f_equal. apply (comm_L (∪)). Qed.

(** X11: the graph-proximity signal.  It is the same when query and
    candidate are exchanged; it depends on the component and system lists
    only through the sets of their elements; with a path length that is
    not negative it lies in [0, 1]; and it is the default 0.5 when there
    is nothing to compare, that is when a component list is empty, a
    system list is empty and no path length is known. *)
Theorem graph_proximity_properties qc cc qs cs g :
  compute_graph_proximity qc cc qs cs g = compute_graph_proximity cc qc cs qs g
  /\ (forall qc' cc' qs' cs',
        (list_to_set qc : gset string) = list_to_set qc' ->
        (list_to_set cc : gset string) = list_to_set cc' ->
        (list_to_set qs : gset string) = list_to_set qs' ->
        (list_to_set cs : gset string) = list_to_set cs' ->
        compute_graph_proximity qc cc qs cs g
        = compute_graph_proximity qc' cc' qs' cs' g)
  /\ (path_length_ok g -> 0 <= compute_graph_proximity qc cc qs cs g <= 1)
  /\ (qc = [] \/ cc = [] -> qs = [] \/ cs = [] ->
      g ≫= shortest_path_length = None ->
      compute_graph_proximity qc cc qs cs g = 0.5).
Proof.
  split; [|split; [|split]].
  - unfold compute_graph_proximity.
    rewrite (inter_size_comm qc cc), (union_size_comm qc cc),
            (inter_size_comm qs cs), (union_size_comm qs cs).
    rewrite (andb_comm (negb (is_empty qc))), (andb_comm (negb (is_empty qs))).
    reflexivity.
  - intros qc' cc' qs' cs' H1 H2 H3 H4. unfold compute_graph_proximity.
    unfold inter_size, union_size. rewrite !is_empty_set.
    rewrite H1, H2, H3, H4. reflexivity.
  - apply compute_graph_proximity_range.
  - intros Hc Hs Hg. unfold compute_graph_proximity. rewrite Hg.
    replace (negb (is_empty qc) && negb (is_empty cc)) with false
      by (destruct Hc as [-> | ->]; cbn; [|rewrite andb_false_r]; reflexivity).
    replace (negb (is_empty qs) && negb (is_empty cs)) with false
      by (destruct Hs as [-> | ->]; cbn; [|rewrite andb_false_r]; reflexivity).
    reflexivity.
Qed.

(** X12: the historical signal.  It is 0.5 without executions and always
    lies in [0, 1]; with executions it lies between 0.5 and the pass rate;
    from ten executions on it is the pass rate; and with at most ten it is
    0.5 plus 0.05 for every passed and minus 0.05 for every other
    execution. *)
Theorem historical_score_properties c :
  let h := historical_results c in
  let pass_rate := INR (passed_count h) / INR (length h) in
  (h = [] -> compute_historical_score c = 0.5)
  /\ 0 <= compute_historical_score c <= 1
  /\ (h <> [] ->
      Rmin 0.5 pass_rate <= compute_historical_score c <= Rmax 0.5 pass_rate)
  /\ ((10 <= length h)%nat -> compute_historical_score c = pass_rate)
  /\ ((length h <= 10)%nat ->
      compute_historical_score c
      = 0.5 + 0.05 * INR (passed_count h)
        - 0.05 * INR (length h - passed_count h)).
Proof.
  intros h pass_rate. subst h pass_rate.
  split; [|split; [apply compute_historical_score_range|split; [|split]]].
  - unfold compute_historical_score. intros ->. reflexivity.
  - intros Hne. unfold compute_historical_score.
    destruct (historical_results c) as [|e l] eqn:E; [done|].
    pose proof (pass_rate_range (e :: l) ltac:(done)) as Hp.
    set (p := INR (passed_count (e :: l)) / INR (length (e :: l))) in *.
    assert (Hn : 0 < INR (length (e :: l))) by (apply lt_0_INR; cbn; lia).
    set (n := INR (length (e :: l))) in *.
    assert (Hconf : 0 <= Rmin (n / 10) 1 <= 1).
    { unfold Rmin. destruct (Rle_dec (n / 10) 1); lra. }
    set (k := Rmin (n / 10) 1) in *.
    unfold Rmin, Rmax. destruct (Rle_dec 0.5 p); nra.
  - intros Hlen. unfold compute_historical_score.
    destruct (historical_results c) as [|e l] eqn:E; [cbn in Hlen; lia|].
    assert (Hn : 10 <= INR (length (e :: l))).
    { replace 10 with (INR 10) by (cbn; lra). apply le_INR, Hlen. }
    rewrite Rmin_right by lra. lra.
  - intros Hlen. unfold compute_historical_score.
    destruct (historical_results c) as [|e l] eqn:E; [cbn; lra|].
    pose proof (passed_count_le (e :: l)) as Hle.
    rewrite minus_INR by exact Hle.
    assert (Hn : 0 < INR (length (e :: l))) by (apply lt_0_INR; cbn; lia).
    assert (Hn' : INR (length (e :: l)) <= 10).
    { replace 10 with (INR 10) by (cbn; lra). apply le_INR, Hlen. }
    set (n := INR (length (e :: l))) in *.
    set (k := INR (passed_count (e :: l))) in *.
    rewrite Rmin_left by lra.
    assert (Hq : k / n * (n / 10) = k / 10) by (field; lra). lra.
Qed.

Lemma regulatory_step_fired table standards acc system :
  fired_iff_positive acc ->
  fired_iff_positive (regulatory_step table standards acc system)
  /\ (length (snd (regulatory_step table standards acc system))
      <= S (length (snd acc)))%nat.
Proof.
  intros H. unfold regulatory_step.
  destruct (table !! system) as [expected|]; [|split; [exact H | lia]].
  destruct (is_empty _) eqn:E; [split; [exact H | lia]|]. cbn [fst snd].
  split; [|rewrite length_app; cbn; lia].
  right. cbn [fst snd]. split; [|destruct (snd acc); discriminate].
  set (matched := List.filter _ expected) in *.
  assert (Hm : (0 < length matched)%nat) by (destruct matched; [discriminate | cbn; lia]).
  assert (He : (0 < length expected)%nat).
  { pose proof (filter_length_le (fun s => mem s standards) expected). fold matched in H0.
    lia. }
  assert (0 < INR (length matched) / INR (length expected)).
  { apply Rdiv_lt_0_compat; apply lt_0_INR; assumption. }
  destruct H as [[-> _] | [H _]]; lra.
Qed.

Lemma regulatory_fold_fired table standards systems : forall acc,
  fired_iff_positive acc ->
  fired_iff_positive (fold_left (regulatory_step table standards) systems acc)
  /\ (length (snd (fold_left (regulatory_step table standards) systems acc))
      <= length systems + length (snd acc))%nat.
Proof.
  induction systems as [|x l IH]; intros acc H; cbn [fold_left length].
  - split; [exact H | lia].
  - destruct (regulatory_step_fired table standards acc x H) as [H1 H2].
    destruct (IH _ H1) as [H3 H4]. split; [exact H3 | lia].
Qed.

Lemma inter_size_le_length a b : (inter_size a b <= length a)%nat.
Proof.
  unfold inter_size.
  transitivity (size (list_to_set a : gset string)).
  - apply subseteq_size. set_solver.
  - induction a as [|x a IH]; cbn; [rewrite size_empty; lia|].
    rewrite size_union_alt, size_singleton.
    pose proof (subseteq_size (list_to_set a ∖ {[x]}) (list_to_set a : gset string)
                  ltac:(set_solver)). lia.
Qed.

Lemma rules_before_clipping_fired self q c :
  fired_iff_positive (rules_before_clipping self q c)
  /\ (length (snd (rules_before_clipping self q c)) <= 3 + length (systems q))%nat
  /\ (mem (platform q) (applicable_platforms c) = false ->
      platform_rules self !! platform q = None ->
      fst (rules_before_clipping self q c) <= 0.3).
Proof.
  unfold rules_before_clipping.
  set (r1 := if mem _ _ then _ else _).
  assert (H1 : fired_iff_positive r1 /\ (length (snd r1) <= 1)%nat
               /\ (mem (platform q) (applicable_platforms c) = false -> fst r1 = 0)).
  { subst r1. destruct (mem _ _); cbn.
    - split; [right; split; [cbn; lra | discriminate] | split; [lia | discriminate]].
    - split; [left; split; reflexivity | split; [lia | reflexivity]]. }
  destruct r1 as [s1 f1]. destruct H1 as (H1 & L1 & B1). cbn [fst snd] in *.
  set (r2 := match platform_rules self !! platform q with
             | Some _ => _ | None => _ end).
  assert (H2 : fired_iff_positive r2
               /\ (length (snd r2) <= 1 + length (systems q))%nat
               /\ (mem (platform q) (applicable_platforms c) = false ->
                   platform_rules self !! platform q = None -> fst r2 = 0)).
  { subst r2. destruct (platform_rules self !! platform q) as [table|].
    - destruct (regulatory_fold_fired table (regulatory_standards c) (systems q)
                  (s1, f1) H1) as [Ha Hb]. cbn [snd] in Hb.
      split; [exact Ha | split; [lia | discriminate]].
    - split; [exact H1 | split; [cbn; lia | intros Hm _; exact (B1 Hm)]]. }
  destruct r2 as [s2 f2]. destruct H2 as (H2 & L2 & B2). cbn [fst snd] in *.
  set (r3 := if negb (is_empty (systems q)) && _ then _ else _).
  assert (H3 : fired_iff_positive r3
               /\ (length (snd r3) <= 2 + length (systems q))%nat
               /\ s2 <= fst r3 <= s2 + 0.2).
  { subst r3. destruct (negb (is_empty (systems q)) && _) eqn:Eb;
      [|split; [exact H2 | split; [cbn; lia | cbn; lra]]].
    case_bool_decide as Hov; [|split; [exact H2 | split; [cbn; lia | cbn; lra]]].
    cbn [fst snd].
    pose proof (inter_size_le_length (systems q) (target_systems c)) as Hle.
    assert (Hi : 0 < INR (inter_size (systems q) (target_systems c)))
      by (apply lt_0_INR; exact Hov).
    assert (Hn : INR (inter_size (systems q) (target_systems c))
                 <= INR (length (systems q))) by (apply le_INR; exact Hle).
    assert (Hr : 0 < INR (inter_size (systems q) (target_systems c))
                     / INR (length (systems q)) <= 1).
    { split; [apply Rdiv_lt_0_compat; lra|].
      assert (Hinv : INR (length (systems q)) * / INR (length (systems q)) = 1)
        by (apply Rinv_r; lra).
      assert (0 < / INR (length (systems q))) by (apply Rinv_0_lt_compat; lra).
      unfold Rdiv. nra. }
    split; [|split; [rewrite length_app; cbn; lia | lra]].
    right. cbn [fst snd]. split; [|destruct f2; discriminate].
    unfold fired_iff_positive in H2. cbn [fst snd] in H2.
    destruct H2 as [[-> _] | [H2 _]]; lra. }
  destruct r3 as [s3 f3]. destruct H3 as (H3 & L3 & B3). cbn [fst snd] in *.
  set (r4 := if negb (is_empty (components q)) then _ else _).
  assert (H4 : fired_iff_positive r4
               /\ (length (snd r4) <= 3 + length (systems q))%nat
               /\ fst r4 <= s3 + 0.1).
  { subst r4. destruct (negb (is_empty (components q)));
      [|split; [exact H3 | split; [cbn; lia | cbn; lra]]].
    case_bool_decide; [|split; [exact H3 | split; [cbn; lia | cbn; lra]]].
    cbn [fst snd]. split; [|split; [rewrite length_app; cbn; lia | lra]].
    right. cbn [fst snd]. split; [|destruct f3; discriminate].
    unfold fired_iff_positive in H3. cbn [fst snd] in H3.
    destruct H3 as [[-> _] | [H3 _]]; lra. }
  destruct r4 as [s4 f4]. destruct H4 as (H4 & L4 & B4). cbn [fst snd] in *.
  split; [exact H4 | split; [exact L4|]].
  intros Hm Hp. specialize (B2 Hm Hp). lra.
Qed.

(** X13: the rules signal.  The score lies in [0, 1]; it is 0 exactly
    when no rule fired; at most three rules and one per query system
    fire; and when the query platform is not among the candidate's
    platforms and has no table of standards, only the system-overlap and
    component-coverage rules can fire and the score is at most 0.3. *)
Theorem rules_score_properties self q c :
  0 <= fst (compute_rules_score self q c) <= 1
  /\ (fst (compute_rules_score self q c) = 0
      <-> snd (compute_rules_score self q c) = [])
  /\ (length (snd (compute_rules_score self q c)) <= 3 + length (systems q))%nat
  /\ (platform q ∉ applicable_platforms c ->
      platform_rules self !! platform q = None ->
      fst (compute_rules_score self q c) <= 0.3).
Proof.
  split; [apply compute_rules_score_range|].
  destruct (rules_before_clipping_fired self q c) as (Hf & Hl & Hb).
  unfold compute_rules_score.
  destruct (rules_before_clipping self q c) as [s f]. cbn [fst snd] in *.
  unfold fired_iff_positive in Hf. cbn [fst snd] in Hf.
  split; [|split; [exact Hl|]].
  - unfold Rmin. destruct (Rle_dec s 1); destruct Hf as [[-> ->] | [Hs Hne]];
      split; intros H; try reflexivity; try lra; try contradiction.
  - intros Hm Hp.
    assert (s <= 0.3).
    { apply Hb; [|exact Hp]. unfold mem. apply bool_decide_eq_false_2. exact Hm. }
    unfold Rmin. destruct (Rle_dec s 1); lra.
Qed.
End SignalProperties.

(** ** What recommend returns and when it raises *)

Section RecommendProperties.
Import recommender samples.

Lemma semantic_of_cases self q c sem e :
  semantic_of self q c = Ok (sem, e) ->
  (e = None /\ sem = Num 0) \/ e = Some sem.
Proof.
  unfold semantic_of, compute_semantic_score.
  destruct (query_embedding self q) as [qe|]; [|intros [= <- <-]; auto].
  destruct (embedding c) as [ce|]; [|intros [= <- <-]; auto].
  destruct (similarity.cosine_similarity qe ce) as [s|err]; cbn; [|discriminate].
  intros [= <- <-]. auto.
Qed.

Lemma semantic_of_raises self q c err :
  semantic_of self q c = Raise err <->
  err = ValueError
  /\ exists qe ce, query_embedding self q = Some qe /\ embedding c = Some ce
                   /\ length qe <> length ce.
Proof.
  unfold semantic_of, compute_semantic_score, similarity.cosine_similarity,
    similarity.cosine_distance.
  destruct (query_embedding self q) as [qe|];
    [|split; [discriminate | intros (_ & qe & ce & [=] & _)]].
  destruct (embedding c) as [ce|];
    [|split; [discriminate | intros (_ & qe' & ce & _ & [=] & _)]].
  destruct (decide (length qe = length ce)) as [Hlen|Hlen].
  - split.
    + destruct (Req_dec_T _ _); discriminate.
    + intros (_ & qe' & ce' & [= <-] & [= <-] & Hne). contradiction.
  - cbn. split.
    + intros [= <-]. split; [reflexivity|]. exists qe, ce. auto.
    + intros [-> _]. reflexivity.
Qed.

(** The fields of a recommendation, read off the loop body. *)
Lemma score_candidate_fields self q gd c r :
  score_candidate self q gd c = Ok r ->
  rec_scenario_id r = scenario_id c /\ rec_test_name r = test_name c
  /\ rec_test_type r = test_type c
  /\ neighbors (explain r) = [] /\ kg_paths (explain r) = []
  /\ score r
     = py_add (py_mul (Num (semantic (weights self)))
                      (default (Num 0) (scores_semantic (scores (explain r)))))
              (Num (graph (weights self) * scores_graph (scores (explain r))
                    + rules (weights self) * scores_rules (scores (explain r))
                    + historical (weights self)
                      * scores_historical (scores (explain r)))).
Proof.
  unfold score_candidate.
  destruct (semantic_of self q c) as [[sem e]|err] eqn:Es; cbn; [|discriminate].
  destruct (compute_rules_score self q c) as [rs fired].
  intros [= <-]. cbn.
  do 5 (split; [reflexivity|]).
  destruct (semantic_of_cases _ _ _ _ _ Es) as [[-> ->] | ->]; cbn.
  - f_equal. lra.
  - destruct sem as [s|]; cbn; [f_equal; lra | reflexivity].
Qed.

Lemma score_candidate_raises self q gd c err :
  score_candidate self q gd c = Raise err <-> semantic_of self q c = Raise err.
Proof.
  unfold score_candidate.
  destruct (semantic_of self q c) as [[sem e]|err']; cbn.
  - destruct (compute_rules_score self q c). split; discriminate.
  - split; intros [= ->]; reflexivity.
Qed.

Lemma traverse_raises {A B} (f : A -> result B) l err :
  traverse f l = Raise err -> exists x, In x l /\ f x = Raise err.
Proof.
  induction l as [|x l IH]; cbn; [discriminate|].
  destruct (f x) as [y|e] eqn:Ex; cbn.
  - destruct (traverse f l) as [ys|e]; cbn; [discriminate|].
    intros [= ->]. destruct (IH eq_refl) as (x' & Hin & Hx'). eauto.
  - intros [= ->]. eauto.
Qed.

Lemma traverse_some_raise {A B} (f : A -> result B) l x err :
  In x l -> f x = Raise err -> exists err', traverse f l = Raise err'.
Proof.
  induction l as [|y l IH]; intros Hin Hx; [destruct Hin|]. cbn.
  destruct (f y) as [z|e] eqn:Ey; cbn; [|eauto].
  destruct Hin as [-> | Hin]; [rewrite Hx in Ey; discriminate|].
  destruct (IH Hin Hx) as [err' ->]. cbn. eauto.
Qed.

Lemma py_slice_to_length {A} (l : list A) (k : Z) :
  ((0 <= k)%Z -> length (py_slice_to l k) = Nat.min (Z.to_nat k) (length l))
  /\ ((k < 0)%Z -> length (py_slice_to l k) = (length l - Z.to_nat (- k))%nat).
Proof.
  unfold py_slice_to. split; intros Hk.
  - replace (k <? 0)%Z with false by (symmetry; apply Z.ltb_ge; lia).
    apply length_take.
  - replace (k <? 0)%Z with true by (symmetry; apply Z.ltb_lt; lia).
    rewrite length_take. lia.
Qed.

(** X14: the recommendations returned.  When [recommend] returns, it
    returns min(top_k, n) recommendations of the n candidates for a top_k
    that is not negative, and n - |top_k| (or none) for a negative one.
    Each is the record of one of the candidates, with that candidate's
    identifier, name and type and empty neighbors and kg_paths, and its
    explanation accounts for its score: the score is the weighted sum of
    the semantic, graph, rules and historical entries under
    explain.scores, an absent semantic entry counting as 0. *)
Theorem recommend_output self q gd candidates top_k out :
  recommend self q gd candidates top_k = Ok out ->
  ((0 <= top_k)%Z -> length out = Nat.min (Z.to_nat top_k) (length candidates))
  /\ ((top_k < 0)%Z -> length out = (length candidates - Z.to_nat (- top_k))%nat)
  /\ forall r, In r out ->
       (exists c, In c candidates /\ score_candidate self q gd c = Ok r
                  /\ rec_scenario_id r = scenario_id c
                  /\ rec_test_name r = test_name c
                  /\ rec_test_type r = test_type c)
       /\ neighbors (explain r) = [] /\ kg_paths (explain r) = []
       /\ score r
          = py_add (py_mul (Num (semantic (weights self)))
                           (default (Num 0) (scores_semantic (scores (explain r)))))
                   (Num (graph (weights self) * scores_graph (scores (explain r))
                         + rules (weights self) * scores_rules (scores (explain r))
                         + historical (weights self)
                           * scores_historical (scores (explain r)))).
Proof.
  unfold recommend. intros H.
  destruct (traverse (score_candidate self q gd) candidates) as [recs|err] eqn:Et;
    cbn in H; [|discriminate].
  injection H as <-.
  pose proof (traverse_inv _ _ _ Et) as Hrel.
  assert (Hlen : length (sort_desc score recs) = length candidates).
  { rewrite sort_desc_length. symmetry. eapply Forall2_length, Hrel. }
  destruct (py_slice_to_length (sort_desc score recs) top_k) as [Hpos Hneg].
  rewrite Hlen in Hpos, Hneg.
  split; [exact Hpos|]. split; [exact Hneg|].
  intros r Hr.
  assert (Hin : In r recs).
  { destruct (py_slice_to_prefix (sort_desc score recs) top_k) as [rest Hrest].
    apply (sort_desc_In score). rewrite Hrest. apply in_app_iff. left. exact Hr. }
  assert (Hc : exists c, In c candidates /\ score_candidate self q gd c = Ok r).
  { clear -Hrel Hin. induction Hrel as [|c r' cs rs Hcr _ IH]; [destruct Hin|].
    destruct Hin as [-> | Hin]; [exists c; split; [left; reflexivity | exact Hcr]|].
    destruct (IH Hin) as (c' & Hc' & Hr'). exists c'. split; [right; exact Hc' | exact Hr']. }
  destruct Hc as (c & Hc & Hcr).
  destruct (score_candidate_fields _ _ _ _ _ Hcr) as (H1 & H2 & H3 & H4 & H5 & H6).
  split; [exists c; auto|]. auto.
Qed.

(** X15: the exception of [recommend].  The call raises exactly when
    there is a query embedding and some candidate carries an embedding of
    another dimension, and what it raises is then a ValueError; top_k, the
    graph data and the other keys of the candidates never make it fail. *)
Theorem recommend_raises_iff self q gd candidates top_k err :
  recommend self q gd candidates top_k = Raise err <->
  err = ValueError
  /\ exists qe c ce,
       query_embedding self q = Some qe /\ In c candidates
       /\ embedding c = Some ce /\ length qe <> length ce.
Proof.
  unfold recommend. split.
  - intros H.
    destruct (traverse (score_candidate self q gd) candidates) as [recs|err'] eqn:Et;
      cbn in H; [discriminate|]. injection H as ->.
    apply traverse_raises in Et as (c & Hc & Hr).
    apply score_candidate_raises, semantic_of_raises in Hr
      as (-> & qe & ce & Hq & He & Hlen).
    split; [reflexivity|]. exists qe, c, ce. auto.
  - intros (-> & qe & c & ce & Hq & Hc & He & Hlen).
    assert (Hr : score_candidate self q gd c = Raise ValueError).
    { apply score_candidate_raises, semantic_of_raises.
      split; [reflexivity|]. exists qe, ce. auto. }
    destruct (traverse_some_raise _ _ _ _ Hc Hr) as [err' Ht].
    rewrite Ht. cbn. f_equal.
    apply traverse_raises in Ht as (c' & _ & Hr').
    apply score_candidate_raises, semantic_of_raises in Hr' as [-> _]. reflexivity.
Qed.

Lemma traverse_ext {A B} (f g : A -> result B) l :
  (forall x, f x = g x) -> traverse f l = traverse g l.
Proof.
  intros H. induction l as [|x l IH]; cbn; [reflexivity|]. rewrite H, IH. reflexivity.
Qed.

Lemma recommend_without_pipeline q gd candidates top_k :
  graph_data_ok gd ->
  exists out,
    recommend (create_recommender None) q gd candidates top_k = Ok out
    /\ Forall (fun r => scores_semantic (scores (explain r)) = None
                        /\ exists x, score r = Num x /\ 0 <= x <= 0.6) out.
Proof.
  intros Hgd.
  assert (Hsem : forall c, semantic_of (create_recommender None) q c
                           = Ok (Num 0, None)) by reflexivity.
  assert (Hone : forall c, exists r,
             score_candidate (create_recommender None) q gd c = Ok r
             /\ scores_semantic (scores (explain r)) = None
             /\ exists x, score r = Num x /\ 0 <= x <= 0.6).
  { intros c.
    destruct (score_candidate_value _ _ gd _ _ _ (Hsem c)) as (r & Hr & Hs & He & _).
    exists r. split; [exact Hr|]. split; [exact He|].
    eexists. split; [exact Hs|]. cbn.
    pose proof (compute_graph_proximity_range (components q) (target_components c)
                  (systems q) (target_systems c) _ (Hgd (scenario_id c))).
    pose proof (compute_rules_score_range (create_recommender None) q c).
    pose proof (compute_historical_score_range c).
    lra. }
  destruct (traverse_ok (score_candidate (create_recommender None) q gd) candidates)
    as [recs Hrecs].
  { apply Forall_forall. intros c _. destruct (Hone c) as (r & Hr & _). eauto. }
  exists (py_slice_to (sort_desc score recs) top_k).
  split; [unfold recommend; rewrite Hrecs; reflexivity|].
  apply Forall_forall. intros r Hr. apply list_elem_of_In in Hr.
  assert (Hin : In r recs).
  { destruct (py_slice_to_prefix (sort_desc score recs) top_k) as [rest Hrest].
    apply (sort_desc_In score). rewrite Hrest. apply in_app_iff. left. exact Hr. }
  apply traverse_inv in Hrecs. clear Hr.
  induction Hrecs as [|c r' cs rs Hcr _ IH]; [destruct Hin|].
  destruct Hin as [-> | Hin]; [|exact (IH Hin)].
  destruct (Hone c) as (r' & Hr' & Hprop). rewrite Hcr in Hr'.
  injection Hr' as <-. exact Hprop.
Qed.

(** X16: [recommend_for_vehicle] on a recommender without a pipeline, as
    [create_recommender()] builds it.  The call returns for every input;
    no recommendation has a semantic entry and every final score lies in
    [0, 0.6]; and the vehicle model, which only enters the text that would
    be embedded, has no influence on the result.  With a pipeline the
    query embedding is always computed, from the name "<model> Testing"
    and the generated description. *)
Theorem recommend_for_vehicle_properties
    vehicle_model platform systems components candidates top_k :
  (exists out,
     recommend_for_vehicle (create_recommender None) vehicle_model platform
       systems components candidates top_k = Ok out
     /\ Forall (fun r => scores_semantic (scores (explain r)) = None
                         /\ exists x, score r = Num x /\ 0 <= x <= 0.6) out)
  /\ (forall vehicle_model',
        recommend_for_vehicle (create_recommender None) vehicle_model' platform
          systems components candidates top_k
        = recommend_for_vehicle (create_recommender None) vehicle_model platform
            systems components candidates top_k)
  /\ (forall encode_text,
        query_embedding (create_recommender (Some encode_text))
          (vehicle_query vehicle_model platform systems components)
        = Some (encode_text
                  ((vehicle_model +:+ " Testing") +:+ " "
                   +:+ ("Test scenarios for " +:+ vehicle_model +:+ " "
                        +:+ platform +:+ " covering " +:+ join systems)))).
Proof.
  split; [|split].
  - unfold recommend_for_vehicle. apply recommend_without_pipeline.
    intros sid. exact I.
  - intros vm'. unfold recommend_for_vehicle, recommend.
    rewrite (traverse_ext
               (score_candidate (create_recommender None)
                  (vehicle_query vm' platform systems components) None)
               (score_candidate (create_recommender None)
                  (vehicle_query vehicle_model platform systems components) None));
      [reflexivity|].
    intros c. unfold score_candidate, semantic_of, query_embedding,
      compute_rules_score, rules_before_clipping. reflexivity.
  - intros encode_text. reflexivity.
Qed.

(** X17: the fallback cosine similarity of recommender.py against the one
    of similarity.py.  Both reject vectors of different lengths with a
    ValueError; on vectors of non-zero norm both give the same number,
    which lies in [-1, 1]; with a zero norm the fallback gives 0 where the
    other gives NaN. *)
Theorem fallback_cosine_similarity_agrees v1 v2 :
  (length v1 <> length v2 ->
     fallback_cosine_similarity v1 v2 = Raise ValueError
     /\ similarity.cosine_similarity v1 v2 = Raise ValueError)
  /\ (length v1 = length v2 ->
      similarity.dot v1 v1 <> 0 -> similarity.dot v2 v2 <> 0 ->
      exists x, fallback_cosine_similarity v1 v2 = Ok x
                /\ similarity.cosine_similarity v1 v2 = Ok (Num x)
                /\ -1 <= x <= 1)
  /\ (length v1 = length v2 ->
      similarity.dot v1 v1 = 0 \/ similarity.dot v2 v2 = 0 ->
      fallback_cosine_similarity v1 v2 = Ok 0
      /\ similarity.cosine_similarity v1 v2 = Ok NaN).
Proof.
  pose proof (dot_self_nonneg v1) as H1. pose proof (dot_self_nonneg v2) as H2.
  split; [|split].
  - intros Hlen. split; [|apply cosine_similarity_shape, Hlen].
    unfold fallback_cosine_similarity. destruct (decide _); done.
  - intros Hlen Hn1 Hn2.
    exists (similarity.dot v1 v2 / (similarity.np_norm v1 * similarity.np_norm v2)).
    assert (Hc : similarity.cosine_similarity v1 v2
                 = Ok (Num (similarity.dot v1 v2
                            / (similarity.np_norm v1 * similarity.np_norm v2)))).
    { unfold similarity.cosine_similarity, similarity.cosine_distance,
        similarity.np_norm.
      destruct (decide _) as [_|]; [|done].
      destruct (Req_dec_T _ _) as [H0|_];
        [apply Rmult_integral in H0 as [|]; contradiction|].
      cbn. rewrite sqrt_mult by assumption. do 2 f_equal. lra. }
    split; [|split; [exact Hc | exact (cosine_similarity_range _ _ _ Hc)]].
    unfold fallback_cosine_similarity, similarity.np_norm.
    destruct (decide _) as [_|]; [|done].
    rewrite !Rgtb_true by (apply sqrt_lt_R0; lra). reflexivity.
  - intros Hlen Hz. split; [|apply cosine_similarity_zero_norm; assumption].
    unfold fallback_cosine_similarity, similarity.np_norm.
    destruct (decide _) as [_|]; [|done].
    destruct Hz as [-> | ->]; rewrite sqrt_0.
    + rewrite (Rgtb_false 0 0) by lra. reflexivity.
    + rewrite (Rgtb_false 0 0) by lra. rewrite andb_false_r. reflexivity.
Qed.
End RecommendProperties.

Section RecommendPropertiesWitness.
Import recommender samples.

Lemma recommend_output_witness :
  exists out,
    recommend (create_recommender None) ev_battery_query None
      [battery_thermal; blank "A"] 1 = Ok out
    /\ length out = 1%nat
    /\ forall r, In r out -> neighbors (explain r) = [].
Proof.
  destruct (recommend_without_pipeline ev_battery_query None
              [battery_thermal; blank "A"] 1 ltac:(intros sid; exact I))
    as (out & Hout & _).
  exists out. split; [exact Hout|].
  destruct (recommend_output (create_recommender None) ev_battery_query None
              [battery_thermal; blank "A"] 1 out Hout) as (Hlen & _ & Hall).
  split; [exact (Hlen ltac:(lia))|].
  intros r Hr. destruct (Hall r Hr) as (_ & Hn & _). exact Hn.
Defined.
End RecommendPropertiesWitness.

(** ** Cosine similarity, normalization and distances *)

Section VectorFacts.
Import similarity.

Lemma dot_comm u : forall v, dot u v = dot v u.
Proof.
  induction u as [|a u IH]; intros [|b v]; cbn; try reflexivity.
  rewrite IH. lra.
Qed.

Lemma dot_scale_l a u : forall v, dot (map (Rmult a) u) v = a * dot u v.
Proof.
  induction u as [|x u IH]; intros [|y v]; cbn; try lra.
  rewrite IH. lra.
Qed.

Lemma dot_scale a b u : forall v,
  dot (map (fun x => x * a) u) (map (fun y => y * b) v) = a * b * dot u v.
Proof.
  induction u as [|x u IH]; intros [|y v]; cbn; try lra.
  rewrite IH. lra.
Qed.

Lemma dot_self_zero v : dot v v = 0 <-> Forall (fun x => x = 0) v.
Proof.
  induction v as [|a v IH]; cbn.
  - split; [constructor | reflexivity].
  - pose proof (dot_self_nonneg v) as Hv. split.
    + intros H. assert (a = 0) by nra. assert (dot v v = 0) by nra.
      constructor; [assumption | apply IH; assumption].
    + intros H. inversion H as [|? ? Ha Hall]; subst.
      apply IH in Hall. rewrite Hall. lra.
Qed.

Lemma np_norm_nonneg v : 0 <= np_norm v.
Proof. apply sqrt_pos. Qed.

Lemma np_norm_zero v : np_norm v = 0 <-> dot v v = 0.
Proof.
  unfold np_norm. split.
  - apply sqrt_eq_0, dot_self_nonneg.
  - intros ->. apply sqrt_0.
Qed.

Lemma cosine_similarity_value u v :
  length u = length v -> dot u u * dot v v <> 0 ->
  cosine_similarity u v = Ok (Num (dot u v / sqrt (dot u u * dot v v))).
Proof.
  intros Hlen Hne. unfold cosine_similarity, cosine_distance.
  destruct (decide _) as [_|]; [|done].
  destruct (Req_dec_T _ _) as [|_]; [contradiction|].
  cbn. do 2 f_equal. lra.
Qed.

Lemma cosine_similarity_nan u v :
  length u = length v -> dot u u * dot v v = 0 ->
  cosine_similarity u v = Ok NaN.
Proof.
  intros Hlen Hz. unfold cosine_similarity, cosine_distance.
  destruct (decide _) as [_|]; [|done].
  destruct (Req_dec_T _ _) as [_|]; [reflexivity | contradiction].
Qed.

Lemma cosine_similarity_scaled a u v :
  a <> 0 ->
  cosine_similarity (map (Rmult a) u) v
  = match cosine_similarity u v with
    | Ok (Num x) => Ok (Num (if Rlt_dec 0 a then x else - x))
    | other => other
    end.
Proof.
  intros Ha.
  destruct (decide (length u = length v)) as [Hlen | Hlen].
  - assert (Hlen' : length (map (Rmult a) u) = length v)
      by (rewrite length_map; exact Hlen).
    assert (Hself : dot (map (Rmult a) u) (map (Rmult a) u) = a * a * dot u u).
    { rewrite dot_scale_l, dot_comm, dot_scale_l. lra. }
    destruct (Req_dec_T (dot u u * dot v v) 0) as [Hz | Hnz].
    + rewrite (cosine_similarity_nan u v Hlen Hz).
      apply cosine_similarity_nan; [exact Hlen'|]. rewrite Hself.
      replace (a * a * dot u u * dot v v) with (a * a * (dot u u * dot v v)) by lra.
      rewrite Hz. lra.
    + rewrite (cosine_similarity_value u v Hlen Hnz).
      rewrite cosine_similarity_value; [|exact Hlen'|].
      2:{ rewrite Hself. intros H. apply Hnz.
          assert (a * a <> 0) by nra.
          replace (a * a * dot u u * dot v v) with (a * a * (dot u u * dot v v)) in H
            by lra.
          apply Rmult_integral in H as [|]; [contradiction | assumption]. }
      do 2 f_equal. rewrite Hself, dot_scale_l.
      pose proof (dot_self_nonneg u) as Hu. pose proof (dot_self_nonneg v) as Hv.
      assert (Hpos : 0 < dot u u * dot v v) by nra.
      assert (Hs : 0 < sqrt (dot u u * dot v v)) by (apply sqrt_lt_R0; exact Hpos).
      replace (a * a * dot u u * dot v v) with (a * a * (dot u u * dot v v)) by lra.
      rewrite sqrt_mult by nra.
      destruct (Rlt_dec 0 a) as [Hpa | Hna].
      * replace (a * a) with (Rsqr a) by (unfold Rsqr; lra).
        rewrite sqrt_Rsqr by lra. field. lra.
      * replace (a * a) with (Rsqr (- a)) by (unfold Rsqr; lra).
        rewrite sqrt_Rsqr by lra. field. lra.
  - rewrite (cosine_similarity_shape u v Hlen).
    apply cosine_similarity_shape. rewrite length_map. exact Hlen.
Qed.

Lemma cosine_similarity_comm u v :
  cosine_similarity u v = cosine_similarity v u.
Proof.
  unfold cosine_similarity, cosine_distance.
  destruct (decide (length u = length v)) as [Hlen|Hlen];
    destruct (decide (length v = length u)) as [Hlen'|Hlen'];
    try (exfalso; auto; fail); [|reflexivity].
  rewrite (dot_comm u v), (Rmult_comm (dot u u) (dot v v)). reflexivity.
Qed.

(** X18: cosine similarity.  It is symmetric, errors and NaN included; a
    number it returns lies in [-1, 1]; a vector of non-zero norm has
    similarity 1 with itself; scaling a vector by a positive factor
    changes nothing, and scaling it by a negative factor changes the sign
    of the number returned. *)
Theorem cosine_similarity_properties u v :
  cosine_similarity u v = cosine_similarity v u
  /\ (forall x, cosine_similarity u v = Ok (Num x) -> -1 <= x <= 1)
  /\ (dot u u <> 0 -> cosine_similarity u u = Ok (Num 1))
  /\ (forall a, 0 < a ->
        cosine_similarity (map (Rmult a) u) v = cosine_similarity u v)
  /\ (forall a x, a < 0 -> cosine_similarity u v = Ok (Num x) ->
        cosine_similarity (map (Rmult a) u) v = Ok (Num (- x))).
Proof.
  split; [|split; [|split; [|split]]].
  - apply cosine_similarity_comm.
  - intros x. apply cosine_similarity_range.
  - apply cosine_similarity_self.
  - intros a Ha. rewrite cosine_similarity_scaled by lra.
    destruct (cosine_similarity u v) as [[x|]|e]; try reflexivity.
    destruct (Rlt_dec 0 a); [reflexivity | lra].
  - intros a x Ha Hx. rewrite cosine_similarity_scaled by lra. rewrite Hx.
    destruct (Rlt_dec 0 a); [lra | reflexivity].
Qed.

Lemma map_div_one (l : list R) : map (fun x => x / 1) l = l.
Proof.
  induction l as [|x l IH]; cbn; [reflexivity|]. rewrite IH. f_equal. lra.
Qed.

Lemma normalize_vector_unit v :
  np_norm v <> 0 -> dot (normalize_vector v) (normalize_vector v) = 1.
Proof.
  intros Hn. unfold normalize_vector.
  destruct (Req_dec_T _ _) as [|_]; [contradiction|].
  unfold Rdiv. rewrite dot_scale.
  assert (Hd : dot v v = np_norm v * np_norm v).
  { unfold np_norm. rewrite sqrt_sqrt; [reflexivity | apply dot_self_nonneg]. }
  rewrite Hd. field. exact Hn.
Qed.

(** X19: normalize_vector.  The length is kept; a vector of zero norm,
    which is a vector of zeros, is returned as it is; any other vector
    becomes one of norm 1 that has cosine similarity 1 with the original;
    and normalizing twice is normalizing once. *)
Theorem normalize_vector_properties v :
  length (normalize_vector v) = length v
  /\ (np_norm v = 0 <-> Forall (fun x => x = 0) v)
  /\ (np_norm v = 0 -> normalize_vector v = v)
  /\ (np_norm v <> 0 ->
      np_norm (normalize_vector v) = 1
      /\ cosine_similarity (normalize_vector v) v = Ok (Num 1))
  /\ normalize_vector (normalize_vector v) = normalize_vector v.
Proof.
  split; [|split; [|split; [|split]]].
  - unfold normalize_vector. destruct (Req_dec_T _ _); [reflexivity|].
    apply length_map.
  - rewrite np_norm_zero. apply dot_self_zero.
  - intros Hz. unfold normalize_vector.
    destruct (Req_dec_T _ _); [reflexivity | contradiction].
  - intros Hn. split.
    + unfold np_norm at 1. rewrite (normalize_vector_unit v Hn). apply sqrt_1.
    + pose proof (np_norm_nonneg v) as Hpos.
      assert (Hinv : 0 < / np_norm v) by (apply Rinv_0_lt_compat; lra).
      assert (Hv : dot v v <> 0) by (intros H; apply Hn, np_norm_zero, H).
      assert (Heq : normalize_vector v = map (Rmult (/ np_norm v)) v).
      { unfold normalize_vector. destruct (Req_dec_T _ _) as [|_]; [contradiction|].
        apply map_ext. intros x. unfold Rdiv. lra. }
      rewrite Heq, cosine_similarity_scaled by lra.
      rewrite (cosine_similarity_self v Hv).
      destruct (Rlt_dec 0 (/ np_norm v)); [reflexivity | lra].
  - destruct (Req_dec_T (np_norm v) 0) as [Hz | Hn].
    + unfold normalize_vector at 2.
      destruct (Req_dec_T _ _); [|contradiction].
      unfold normalize_vector. destruct (Req_dec_T _ _); [reflexivity | contradiction].
    + unfold normalize_vector at 1.
      assert (H1 : np_norm (normalize_vector v) = 1).
      { unfold np_norm. rewrite (normalize_vector_unit v Hn). apply sqrt_1. }
      destruct (Req_dec_T _ _) as [|_]; [reflexivity|].
      rewrite H1. apply map_div_one.
Qed.

Lemma dot_add x : forall y,
  length x = length y ->
  dot (zip_with Rplus x y) (zip_with Rplus x y)
  = dot x x + 2 * dot x y + dot y y.
Proof.
  induction x as [|a x IH]; intros [|b y] Hlen; try discriminate; cbn; [lra|].
  injection Hlen as Hlen. rewrite (IH y Hlen). lra.
Qed.

Lemma np_norm_triangle x y :
  length x = length y ->
  np_norm (zip_with Rplus x y) <= np_norm x + np_norm y.
Proof.
  intros Hlen. unfold np_norm. rewrite (dot_add x y Hlen).
  pose proof (dot_self_nonneg x) as Hx. pose proof (dot_self_nonneg y) as Hy.
  pose proof (cauchy_schwarz x y Hlen) as Hcs.
  pose proof (sqrt_pos (dot x x)) as Hsx. pose proof (sqrt_pos (dot y y)) as Hsy.
  assert (Hxy : dot x y <= sqrt (dot x x) * sqrt (dot y y)).
  { rewrite <- sqrt_mult by assumption.
    apply Rle_trans with (Rabs (dot x y)); [apply Rle_abs|].
    rewrite <- sqrt_Rsqr_abs. apply sqrt_le_1_alt. unfold Rsqr. exact Hcs. }
  assert (Hsq : dot x x + 2 * dot x y + dot y y
                <= (sqrt (dot x x) + sqrt (dot y y))
                   * (sqrt (dot x x) + sqrt (dot y y))).
  { replace ((sqrt (dot x x) + sqrt (dot y y))
              * (sqrt (dot x x) + sqrt (dot y y)))
      with (sqrt (dot x x) * sqrt (dot x x)
            + 2 * (sqrt (dot x x) * sqrt (dot y y))
            + sqrt (dot y y) * sqrt (dot y y)) by ring.
    rewrite (sqrt_sqrt _ Hx), (sqrt_sqrt _ Hy).
    set (p := sqrt (dot x x) * sqrt (dot y y)) in *. lra. }
  apply Rle_trans with
    (sqrt ((sqrt (dot x x) + sqrt (dot y y)) * (sqrt (dot x x) + sqrt (dot y y)))).
  - apply sqrt_le_1_alt. exact Hsq.
  - rewrite sqrt_square by lra. lra.
Qed.

Lemma differences_add u : forall w v,
  length u = length w -> length w = length v ->
  zip_with Rminus u v
  = zip_with Rplus (zip_with Rminus u w) (zip_with Rminus w v).
Proof.
  induction u as [|a u IH]; intros [|c w] [|b v] H1 H2; try discriminate;
    cbn; [reflexivity|].
  injection H1 as H1. injection H2 as H2. rewrite (IH w v H1 H2).
  f_equal. lra.
Qed.

Lemma differences_zero u : forall v,
  length u = length v ->
  Forall (fun x => x = 0) (zip_with Rminus u v) <-> u = v.
Proof.
  induction u as [|a u IH]; intros [|b v] Hlen; try discriminate; cbn.
  - split; [reflexivity | constructor].
  - injection Hlen as Hlen. specialize (IH v Hlen). split.
    + intros H. inversion H as [|? ? Hab Hall]; subst.
      f_equal; [lra | apply IH, Hall].
    + intros [= -> ->]. constructor; [lra | apply IH; reflexivity].
Qed.

Lemma abs_sum_nonneg d : 0 <= np_sum (map Rabs d).
Proof.
  unfold np_sum. induction d as [|a d IH]; cbn; [lra|].
  pose proof (Rabs_pos a). lra.
Qed.

Lemma abs_sum_zero d : np_sum (map Rabs d) = 0 <-> Forall (fun x => x = 0) d.
Proof.
  pose proof abs_sum_nonneg as Hnonneg.
  unfold np_sum in *. induction d as [|a d IH]; cbn.
  - split; [constructor | reflexivity].
  - pose proof (Hnonneg d) as Hd. pose proof (Rabs_pos a) as Ha. split.
    + intros H. assert (Ha0 : Rabs a = 0) by lra.
      assert (Hd0 : fold_right Rplus 0 (map Rabs d) = 0) by lra.
      constructor; [|apply IH; exact Hd0].
      destruct (Req_dec_T a 0) as [|Hne]; [assumption|].
      apply Rabs_no_R0 in Hne. contradiction.
    + intros H. inversion H as [|? ? Ha0 Hall]; subst.
      apply IH in Hall. rewrite Hall, Rabs_R0. lra.
Qed.

Lemma abs_sum_square d : dot d d <= np_sum (map Rabs d) * np_sum (map Rabs d).
Proof.
  pose proof abs_sum_nonneg as Hnonneg.
  unfold np_sum in *. induction d as [|a d IH]; cbn; [lra|].
  pose proof (Hnonneg d) as Hd. pose proof (Rabs_pos a) as Ha.
  assert (a * a = Rabs a * Rabs a).
  { unfold Rabs. destruct (Rcase_abs a); lra. }
  nra.
Qed.

Lemma differences_swap_dot u : forall v,
  dot (zip_with Rminus u v) (zip_with Rminus u v)
  = dot (zip_with Rminus v u) (zip_with Rminus v u).
Proof.
  induction u as [|a u IH]; intros [|b v]; cbn; try reflexivity.
  rewrite (IH v). lra.
Qed.

Lemma differences_swap_abs u : forall v,
  np_sum (map Rabs (zip_with Rminus u v))
  = np_sum (map Rabs (zip_with Rminus v u)).
Proof.
  unfold np_sum. induction u as [|a u IH]; intros [|b v]; cbn; try reflexivity.
  rewrite (IH v), (Rabs_minus_sym a b). reflexivity.
Qed.

Lemma abs_sum_triangle x : forall y,
  length x = length y ->
  np_sum (map Rabs (zip_with Rplus x y))
  <= np_sum (map Rabs x) + np_sum (map Rabs y).
Proof.
  unfold np_sum.
  induction x as [|a x IH]; intros [|b y] Hlen; try discriminate; cbn; [lra|].
  injection Hlen as Hlen. specialize (IH y Hlen).
  pose proof (Rabs_triang a b). lra.
Qed.

Lemma np_broadcast_same f u v :
  length u = length v -> np_broadcast f u v = Ok (zip_with f u v).
Proof.
  intros Hlen. unfold np_broadcast. destruct (decide _); [reflexivity | contradiction].
Qed.

Lemma distance_values u v :
  length u = length v ->
  euclidean_distance u v = Ok (np_norm (zip_with Rminus u v))
  /\ manhattan_distance u v = Ok (np_sum (map Rabs (zip_with Rminus u v))).
Proof.
  intros Hlen. unfold euclidean_distance, manhattan_distance.
  rewrite (np_broadcast_same _ _ _ Hlen). split; reflexivity.
Qed.

(** X20: the Euclidean and the Manhattan distance of two vectors of one
    length.  Both are defined and are metrics: not negative, zero exactly
    between equal vectors, symmetric, and subject to the triangle
    inequality through any third vector of that length; and the Euclidean
    distance is at most the Manhattan distance. *)
Theorem distances_are_metrics u v :
  length u = length v ->
  exists de dm,
    euclidean_distance u v = Ok de /\ manhattan_distance u v = Ok dm
    /\ euclidean_distance v u = Ok de /\ manhattan_distance v u = Ok dm
    /\ 0 <= de <= dm
    /\ (de = 0 <-> u = v) /\ (dm = 0 <-> u = v)
    /\ forall w, length w = length u ->
         exists de1 de2 dm1 dm2,
           euclidean_distance u w = Ok de1 /\ euclidean_distance w v = Ok de2
           /\ manhattan_distance u w = Ok dm1 /\ manhattan_distance w v = Ok dm2
           /\ de <= de1 + de2 /\ dm <= dm1 + dm2.
Proof.
  intros Hlen.
  destruct (distance_values u v Hlen) as [He Hm].
  destruct (distance_values v u (eq_sym Hlen)) as [He' Hm'].
  set (d := zip_with Rminus u v) in *.
  exists (np_norm d), (np_sum (map Rabs d)).
  split; [exact He|]. split; [exact Hm|].
  split; [rewrite He'; unfold np_norm, d; rewrite differences_swap_dot; reflexivity|].
  split; [rewrite Hm'; unfold d; rewrite differences_swap_abs; reflexivity|].
  split; [|split; [|split]].
  - split; [apply np_norm_nonneg|].
    unfold np_norm.
    apply Rle_trans with (sqrt (np_sum (map Rabs d) * np_sum (map Rabs d))).
    + apply sqrt_le_1_alt, abs_sum_square.
    + rewrite sqrt_square by apply abs_sum_nonneg. lra.
  - rewrite np_norm_zero, dot_self_zero. apply differences_zero, Hlen.
  - rewrite abs_sum_zero. apply differences_zero, Hlen.
  - intros w Hw.
    destruct (distance_values u w (eq_sym Hw)) as [He1 Hm1].
    destruct (distance_values w v (eq_trans Hw Hlen)) as [He2 Hm2].
    eexists _, _, _, _. split; [exact He1|]. split; [exact He2|].
    split; [exact Hm1|]. split; [exact Hm2|].
    unfold d. rewrite (differences_add u w v (eq_sym Hw) (eq_trans Hw Hlen)).
    split.
    + apply np_norm_triangle. rewrite !length_zip_with. lia.
    + apply abs_sum_triangle. rewrite !length_zip_with. lia.
Qed.

Lemma zip_with_replicate_l (f : R -> R -> R) a v :
  zip_with f (replicate (length v) a) v = map (f a) v.
Proof. induction v as [|b v IH]; cbn; [reflexivity|]. rewrite IH. reflexivity. Qed.

Lemma zip_with_replicate_r (f : R -> R -> R) b u :
  zip_with f u (replicate (length u) b) = map (fun x => f x b) u.
Proof. induction u as [|a u IH]; cbn; [reflexivity|]. rewrite IH. reflexivity. Qed.

Lemma np_broadcast_scalar_l f a v :
  np_broadcast f [a] v = Ok (map (f a) v).
Proof.
  unfold np_broadcast. destruct (decide _) as [Hlen|_]; [|reflexivity].
  destruct v as [|b [|c v]]; try discriminate. reflexivity.
Qed.

Lemma np_broadcast_scalar_r f u b :
  np_broadcast f u [b] = Ok (map (fun x => f x b) u).
Proof.
  unfold np_broadcast. destruct (decide _) as [Hlen|Hlen].
  - destruct u as [|a [|c u]]; try discriminate. reflexivity.
  - destruct u as [|a [|c u]]; [reflexivity | contradiction | reflexivity].
Qed.

Lemma np_broadcast_raises f u v :
  length u <> length v -> length u <> 1%nat -> length v <> 1%nat ->
  np_broadcast f u v = Raise ValueError.
Proof.
  intros Hlen Hu Hv. unfold np_broadcast.
  destruct (decide _); [contradiction|].
  destruct u as [|a [|a' u]]; [|contradiction|];
    destruct v as [|b [|b' v]]; try reflexivity; contradiction.
Qed.

Lemma np_broadcast_only_ValueError f u v e :
  np_broadcast f u v = Raise e -> e = ValueError.
Proof.
  unfold np_broadcast. destruct (decide _); [discriminate|].
  destruct u as [|a [|a' u]]; try discriminate;
    destruct v as [|b [|b' v]]; try discriminate; intros [= <-]; reflexivity.
Qed.

(** X21: the shapes the distances accept.  Vectors of different lengths,
    neither of length 1, are rejected with a ValueError by both; a vector
    of length 1 is taken as the constant vector of the other's length. *)
Theorem distance_shapes u v :
  (length u <> length v -> length u <> 1%nat -> length v <> 1%nat ->
     euclidean_distance u v = Raise ValueError
     /\ manhattan_distance u v = Raise ValueError)
  /\ (forall a,
        euclidean_distance [a] v = euclidean_distance (replicate (length v) a) v
        /\ manhattan_distance [a] v
           = manhattan_distance (replicate (length v) a) v)
  /\ (forall b,
        euclidean_distance u [b] = euclidean_distance u (replicate (length u) b)
        /\ manhattan_distance u [b]
           = manhattan_distance u (replicate (length u) b)).
Proof.
  split; [|split].
  - intros Hlen Hu Hv. unfold euclidean_distance, manhattan_distance.
    rewrite (np_broadcast_raises _ _ _ Hlen Hu Hv). split; reflexivity.
  - intros a. unfold euclidean_distance, manhattan_distance.
    rewrite np_broadcast_scalar_l.
    rewrite np_broadcast_same by apply length_replicate.
    rewrite zip_with_replicate_l. split; reflexivity.
  - intros b. unfold euclidean_distance, manhattan_distance.
    rewrite np_broadcast_scalar_r.
    rewrite np_broadcast_same by (symmetry; apply length_replicate).
    rewrite zip_with_replicate_r. split; reflexivity.
Qed.

(** X22: weighted cosine similarity.  It is symmetric in the two vectors;
    with the same positive weight on every component it is the cosine
    similarity, and with all weights zero it is NaN; with vectors and
    weights of one length it never raises, and a number it returns lies in
    [-1, 1]. *)
Theorem weighted_similarity_properties u v w :
  weighted_similarity u v w = weighted_similarity v u w
  /\ (forall a, 0 < a -> length u = length v ->
        weighted_similarity u v (replicate (length u) a) = cosine_similarity u v)
  /\ (length u = length v ->
      weighted_similarity u v (replicate (length u) 0) = Ok NaN)
  /\ (length u = length w -> length v = length w ->
      exists s, weighted_similarity u v w = Ok s
                /\ forall x, s = Num x -> -1 <= x <= 1).
Proof.
  split; [|split; [|split]].
  - unfold weighted_similarity.
    destruct (np_broadcast Rmult u w) as [uw|e1] eqn:E1;
      destruct (np_broadcast Rmult v w) as [vw|e2] eqn:E2; cbn.
    + apply cosine_similarity_comm.
    + reflexivity.
    + reflexivity.
    + apply np_broadcast_only_ValueError in E1, E2. subst. reflexivity.
  - intros a Ha Hlen. unfold weighted_similarity.
    rewrite (np_broadcast_same Rmult u) by (rewrite length_replicate; reflexivity).
    rewrite (np_broadcast_same Rmult v)
      by (rewrite length_replicate; symmetry; exact Hlen).
    cbn. rewrite zip_with_replicate_r, Hlen, zip_with_replicate_r.
    rewrite !(map_ext (fun x => x * a) (Rmult a) (fun x => Rmult_comm x a)).
    rewrite cosine_similarity_scaled by lra.
    rewrite (cosine_similarity_comm u), cosine_similarity_scaled by lra.
    rewrite (cosine_similarity_comm v u).
    destruct (cosine_similarity u v) as [[x|]|e]; try reflexivity.
    destruct (Rlt_dec 0 a); [reflexivity | lra].
  - intros Hlen. unfold weighted_similarity.
    rewrite (np_broadcast_same Rmult u) by (rewrite length_replicate; reflexivity).
    rewrite (np_broadcast_same Rmult v)
      by (rewrite length_replicate; symmetry; exact Hlen).
    cbn. rewrite zip_with_replicate_r, Hlen, zip_with_replicate_r.
    apply cosine_similarity_nan; [rewrite !length_map; exact Hlen|].
    replace (dot (map (fun x => x * 0) u) (map (fun x => x * 0) u)) with 0;
      [lra|].
    rewrite dot_scale. lra.
  - intros Hu Hv. unfold weighted_similarity.
    rewrite (np_broadcast_same _ _ _ Hu), (np_broadcast_same _ _ _ Hv). cbn.
    assert (Hlen : length (zip_with Rmult u w) = length (zip_with Rmult v w)).
    { rewrite !length_zip_with. lia. }
    destruct (Req_dec_T (dot (zip_with Rmult u w) (zip_with Rmult u w)
                         * dot (zip_with Rmult v w) (zip_with Rmult v w)) 0)
      as [Hz | Hnz].
    + rewrite (cosine_similarity_nan _ _ Hlen Hz). eexists. split; [reflexivity|].
      intros x [=].
    + pose proof (cosine_similarity_value _ _ Hlen Hnz) as Hc. rewrite Hc.
      eexists. split; [reflexivity|]. intros x [= <-].
      exact (cosine_similarity_range _ _ _ Hc).
Qed.
End VectorFacts.

Section VectorFactsWitness.
Import similarity.

Lemma distances_are_metrics_witness :
  exists de dm,
    euclidean_distance [3; 0] [0; 4] = Ok de
    /\ manhattan_distance [3; 0] [0; 4] = Ok dm
    /\ 0 <= de <= dm.
Proof.
  destruct (distances_are_metrics [3; 0] [0; 4] eq_refl)
    as (de & dm & He & Hm & _ & _ & Hle & _).
  exists de, dm. split; [exact He|]. split; [exact Hm | exact Hle].
Defined.
End VectorFactsWitness.

(** ** Ranking by similarity and the similarity matrix *)

Section Ranking.
Import similarity.
Context {A : Type}.
Variable embedding_of : A -> option (list R).
Variable query_vector : list R.

Lemma rank_results_inv candidates : forall results,
  rank_results embedding_of query_vector candidates = Ok results ->
  map fst results
  = List.filter (fun c => bool_decide (is_Some (embedding_of c))) candidates
  /\ Forall (fun cs => exists e, embedding_of (fst cs) = Some e
                                 /\ cosine_similarity query_vector e = Ok (snd cs))
            results.
Proof.
  induction candidates as [|c l IH]; intros results H; cbn in H.
  - injection H as <-. split; [reflexivity | constructor].
  - cbn [List.filter]. destruct (embedding_of c) as [e|] eqn:Ee.
    + rewrite bool_decide_eq_true_2 by eauto.
      destruct (cosine_similarity query_vector e) as [sim|err] eqn:Es;
        cbn in H; [|discriminate].
      destruct (rank_results embedding_of query_vector l) as [rs|err];
        cbn in H; [|discriminate].
      injection H as <-. destruct (IH rs eq_refl) as [H1 H2]. split.
      * cbn. f_equal. exact H1.
      * constructor; [exists e; cbn; auto | exact H2].
    + rewrite bool_decide_eq_false_2 by (intros [x [=]]).
      apply IH, H.
Qed.

Lemma rank_results_raises candidates : forall err,
  rank_results embedding_of query_vector candidates = Raise err <->
  err = ValueError
  /\ exists c e, In c candidates /\ embedding_of c = Some e
                 /\ length query_vector <> length e.
Proof.
  induction candidates as [|c l IH]; intros err; cbn.
  - split; [discriminate | intros (_ & c & e & [] & _)].
  - destruct (embedding_of c) as [e|] eqn:Ee.
    + destruct (decide (length query_vector = length e)) as [Hlen | Hlen].
      * assert (Hs : exists sim, cosine_similarity query_vector e = Ok sim).
        { unfold cosine_similarity, cosine_distance.
          destruct (decide _) as [_|]; [|done].
          destruct (Req_dec_T _ _); cbn; eauto. }
        destruct Hs as [sim ->]. cbn.
        destruct (rank_results embedding_of query_vector l) as [rs|err'] eqn:El; cbn.
        -- split; [discriminate|].
           intros (-> & c' & e' & [<- | Hin] & He' & Hne).
           ++ rewrite Ee in He'. injection He' as <-. contradiction.
           ++ assert (Hr : @Ok (list (A * pyfloat)) rs = Raise ValueError);
                [|discriminate].
              apply IH. split; [reflexivity|]. eauto.
        -- destruct (proj1 (IH err') eq_refl) as (-> & c' & e' & Hin & H').
           split.
           ++ intros [= <-]. split; [reflexivity|].
              exists c', e'. split; [right; exact Hin | exact H'].
           ++ intros (-> & _). reflexivity.
      * rewrite (cosine_similarity_shape _ _ Hlen). cbn. split.
        -- intros [= <-]. split; [reflexivity|]. exists c, e. auto.
        -- intros (-> & _). reflexivity.
    + rewrite IH. split.
      * intros (-> & c' & e' & Hin & H'). split; [reflexivity|].
        exists c', e'. split; [right; exact Hin | exact H'].
      * intros (-> & c' & e' & [<- | Hin] & He' & Hne).
        -- rewrite Ee in He'. discriminate.
        -- split; [reflexivity|]. eauto.
Qed.

Lemma filter_sublist {X} (f : X -> bool) (l : list X) :
  List.filter f l `sublist_of` l.
Proof.
  induction l as [|x l IH]; cbn; [constructor|].
  destruct (f x); [apply sublist_skip | apply sublist_cons]; exact IH.
Qed.

Lemma map_filter_sublist {X Y} (g : X -> Y) (f : X -> bool) (l : list X) :
  map g (List.filter f l) `sublist_of` map g l.
Proof.
  induction l as [|x l IH]; cbn; [constructor|].
  destruct (f x); cbn; [apply sublist_skip | apply sublist_cons]; exact IH.
Qed.

(** X23: rank_by_similarity.  The call raises, a ValueError, exactly when
    some candidate has an embedding whose dimension is not the query's.
    Otherwise the result holds the candidates that have an embedding, and
    no others, each once and each with its cosine similarity to the
    query; candidates of equal similarity keep their input order; and when
    all similarities are numbers the result is in descending order. *)
Theorem rank_by_similarity_properties candidates :
  (forall err,
     rank_by_similarity embedding_of query_vector candidates = Raise err <->
     err = ValueError
     /\ exists c e, In c candidates /\ embedding_of c = Some e
                    /\ length query_vector <> length e)
  /\ forall out,
       rank_by_similarity embedding_of query_vector candidates = Ok out ->
       map fst out
         ≡ₚ List.filter (fun c => bool_decide (is_Some (embedding_of c))) candidates
       /\ (forall c s, In (c, s) out ->
             exists e, embedding_of c = Some e
                       /\ cosine_similarity query_vector e = Ok s)
       /\ (forall s, map fst (with_key snd s out) `sublist_of` candidates)
       /\ (numeric snd out -> StronglySorted (key_ge snd) out).
Proof.
  unfold rank_by_similarity. split.
  - intros err. rewrite <- rank_results_raises.
    destruct (rank_results embedding_of query_vector candidates); cbn;
      split; congruence.
  - intros out H.
    destruct (rank_results embedding_of query_vector candidates) as [results|err]
      eqn:Er; cbn in H; [|discriminate].
    injection H as <-.
    destruct (rank_results_inv _ _ Er) as [Hfst Hall].
    split; [|split; [|split]].
    + rewrite <- Hfst. apply Permutation_map, sort_desc_perm.
    + intros c s Hin. apply sort_desc_In in Hin.
      rewrite Forall_forall in Hall.
      apply (Hall (c, s)), list_elem_of_In, Hin.
    + intros s. rewrite sort_desc_stable. unfold with_key.
      transitivity (map fst results); [apply map_filter_sublist|].
      rewrite Hfst. apply filter_sublist.
    + intros Hnum. apply sort_desc_sorted.
      apply (Permutation_Forall (x := sort_desc snd results));
        [apply sort_desc_perm | exact Hnum].
Qed.
End Ranking.

Section SimilarityMatrix.
Import similarity.

Lemma dot_zero_l x : forall y, dot x x = 0 -> dot x y = 0.
Proof.
  intros y H. apply dot_self_zero in H. revert y.
  induction H as [|a x Ha _ IH]; intros [|b y]; cbn; try reflexivity.
  rewrite IH, Ha. lra.
Qed.

Lemma l2_normalize_length row : length (l2_normalize row) = length row.
Proof. unfold l2_normalize. apply length_map. Qed.

(** The entry of the kernel for two rows. *)
Lemma l2_normalize_dot x y :
  length x = length y ->
  (dot x x <> 0 -> dot y y <> 0 ->
   cosine_similarity x y = Ok (Num (dot (l2_normalize x) (l2_normalize y))))
  /\ (dot x x = 0 \/ dot y y = 0 -> dot (l2_normalize x) (l2_normalize y) = 0)
  /\ -1 <= dot (l2_normalize x) (l2_normalize y) <= 1.
Proof.
  intros Hlen.
  pose proof (dot_self_nonneg x) as Hx. pose proof (dot_self_nonneg y) as Hy.
  assert (Hval : dot (l2_normalize x) (l2_normalize y)
                 = / (if Req_dec_T (np_norm x) 0 then 1 else np_norm x)
                   * / (if Req_dec_T (np_norm y) 0 then 1 else np_norm y)
                   * dot x y).
  { unfold l2_normalize, Rdiv. apply dot_scale. }
  assert (Hzero : dot x x = 0 \/ dot y y = 0 ->
                  dot (l2_normalize x) (l2_normalize y) = 0).
  { intros [H | H]; rewrite Hval.
    - rewrite (dot_zero_l x y H). lra.
    - rewrite dot_comm, (dot_zero_l y x H). lra. }
  assert (Hnum : dot x x <> 0 -> dot y y <> 0 ->
    cosine_similarity x y = Ok (Num (dot (l2_normalize x) (l2_normalize y)))).
  { intros Hnx Hny.
    rewrite cosine_similarity_value;
      [|exact Hlen | intros H; apply Rmult_integral in H as [|]; contradiction].
    do 2 f_equal. rewrite Hval.
    destruct (Req_dec_T (np_norm x) 0) as [H|_];
      [apply np_norm_zero in H; contradiction|].
    destruct (Req_dec_T (np_norm y) 0) as [H|_];
      [apply np_norm_zero in H; contradiction|].
    rewrite sqrt_mult by assumption. unfold np_norm.
    assert (0 < sqrt (dot x x)) by (apply sqrt_lt_R0; lra).
    assert (0 < sqrt (dot y y)) by (apply sqrt_lt_R0; lra).
    field. lra. }
  split; [exact Hnum|]. split; [exact Hzero|].
  destruct (Req_dec_T (dot x x) 0) as [Hzx | Hnx];
    [rewrite Hzero by (left; exact Hzx); lra|].
  destruct (Req_dec_T (dot y y) 0) as [Hzy | Hny];
    [rewrite Hzero by (right; exact Hzy); lra|].
  exact (cosine_similarity_range _ _ _ (Hnum Hnx Hny)).
Qed.

Lemma sklearn_cosine_similarity_ok X Y d :
  X <> [] -> Y <> [] -> (0 < d)%nat ->
  Forall (fun r => length r = d) X -> Forall (fun r => length r = d) Y ->
  sklearn_cosine_similarity X Y
  = Ok (map (fun x => map (fun y => dot (l2_normalize x) (l2_normalize y)) Y) X).
Proof.
  intros HX HY Hd HdX HdY. unfold sklearn_cosine_similarity.
  destruct X as [|x0 X']; [done|]. destruct Y as [|y0 Y']; [done|].
  assert (Hx0 : length x0 = d) by (inversion HdX; assumption).
  rewrite bool_decide_eq_true_2 by lia.
  replace (forallb _ (x0 :: X')) with true.
  2:{ symmetry. apply forallb_forall. intros r Hr. apply Nat.eqb_eq.
      rewrite Forall_forall in HdX. rewrite Hx0. apply HdX, list_elem_of_In, Hr. }
  replace (forallb _ (y0 :: Y')) with true.
  2:{ symmetry. apply forallb_forall. intros r Hr. apply Nat.eqb_eq.
      rewrite Forall_forall in HdY. rewrite Hx0. apply HdY, list_elem_of_In, Hr. }
  reflexivity.
Qed.

(** X24: the similarity matrix and the batch similarity.  For a non-empty
    batch of vectors of one positive dimension the matrix is defined and
    square; its entry for rows i and j is the entry for j and i, lies in
    [-1, 1], is the cosine similarity of the two vectors when both have a
    non-zero norm, and is 0, not NaN, when one of them has norm zero; and
    batch_cosine_similarity of row i against the batch is row i of the
    matrix. *)
Theorem similarity_matrix_properties vectors d :
  vectors <> [] -> (0 < d)%nat -> Forall (fun r => length r = d) vectors ->
  exists K,
    compute_similarity_matrix vectors = Ok K
    /\ length K = length vectors
    /\ forall i vi, vectors !! i = Some vi ->
         exists Ki,
           K !! i = Some Ki /\ length Ki = length vectors
           /\ batch_cosine_similarity vi vectors = Ok Ki
           /\ forall j vj, vectors !! j = Some vj ->
                exists x,
                  Ki !! j = Some x /\ (K !! j ≫= (fun Kj => Kj !! i)) = Some x
                  /\ -1 <= x <= 1
                  /\ (dot vi vi <> 0 -> dot vj vj <> 0 ->
                      cosine_similarity vi vj = Ok (Num x))
                  /\ (dot vi vi = 0 \/ dot vj vj = 0 -> x = 0).
Proof.
  intros Hne Hd Hdim. unfold compute_similarity_matrix.
  rewrite (sklearn_cosine_similarity_ok vectors vectors d Hne Hne Hd Hdim Hdim).
  eexists. split; [reflexivity|]. split; [apply length_map|].
  intros i vi Hi.
  exists (map (fun y => dot (l2_normalize vi) (l2_normalize y)) vectors).
  split; [rewrite list_lookup_fmap, Hi; reflexivity|].
  split; [apply length_map|].
  assert (Hvi : length vi = d).
  { rewrite Forall_forall in Hdim. eapply Hdim, list_elem_of_lookup_2, Hi. }
  split.
  { unfold batch_cosine_similarity.
    rewrite (sklearn_cosine_similarity_ok [vi] vectors d ltac:(done) Hne Hd
               ltac:(constructor; [exact Hvi | constructor]) Hdim).
    reflexivity. }
  intros j vj Hj.
  assert (Hvj : length vj = d).
  { rewrite Forall_forall in Hdim. eapply Hdim, list_elem_of_lookup_2, Hj. }
  exists (dot (l2_normalize vi) (l2_normalize vj)).
  split; [rewrite list_lookup_fmap, Hj; reflexivity|].
  split.
  { rewrite list_lookup_fmap, Hj. cbn. rewrite list_lookup_fmap, Hi. cbn.
    f_equal. apply dot_comm. }
  destruct (l2_normalize_dot vi vj ltac:(congruence)) as (Hnum & Hzero & Hrange).
  split; [exact Hrange|]. split; [exact Hnum | exact Hzero].
Qed.
End SimilarityMatrix.

Section SimilarityMatrixWitness.
Import similarity.

Lemma similarity_matrix_properties_witness :
  exists K,
    compute_similarity_matrix [[1; 0]; [0; 0]] = Ok K /\ length K = 2%nat.
Proof.
  destruct (similarity_matrix_properties [[1; 0]; [0; 0]] 2)
    as (K & HK & Hlen & _).
  - discriminate.
  - lia.
  - repeat constructor.
  - exists K. split; [exact HK | exact Hlen].
Defined.
End SimilarityMatrixWitness.

(** ** Diversity re-ranking for any trade-off *)

Section RerankLoop.
Import similarity.
Context {A : Type}.
Variable candidates : list (A * R).
Variable embeddings : list (list R).
Variable lambda_param : R.
Variable k : Z.

Lemma mmr_score_number selected_indices idx :
  rows_well_formed candidates embeddings ->
  (idx < length candidates)%nat ->
  (forall s, In s selected_indices -> (s < length embeddings)%nat) ->
  exists x, mmr_score candidates embeddings lambda_param selected_indices idx
            = Ok (Num x).
Proof.
  intros (Hrows & Hdim & Hnorm) Hidx Hsel. unfold mmr_score.
  destruct (lookup_lt_is_Some_2 candidates idx Hidx) as [[a relevance] Hc].
  rewrite Hc.
  destruct (traverse_numbers
              (fun sel_idx => e1 ← row embeddings idx; e2 ← row embeddings sel_idx;
                              cosine_similarity e1 e2) selected_indices)
    as (ys & Hys & Hnum).
  { intros s Hs.
    destruct (row_defined embeddings idx ltac:(lia)) as (e1 & He1 & Hin1).
    destruct (row_defined embeddings s (Hsel s Hs)) as (e2 & He2 & Hin2).
    rewrite He1, He2. cbn.
    apply cosine_similarity_number; [apply Hdim | apply Hnorm | apply Hnorm];
      assumption. }
  rewrite Hys. cbn. destruct ys as [|d ds]; cbn; [eauto|].
  inversion Hnum; subst.
  destruct (py_max_number ds d) as [x Hx]; [assumption..|].
  rewrite Hx. cbn. eauto.
Qed.

(** A scan over scores that are numbers picks one of the scanned indices,
    unless it keeps the best it was started with. *)
Lemma scan_picks selected_indices remaining :
  (forall idx, In idx remaining ->
     exists x, mmr_score candidates embeddings lambda_param selected_indices idx
               = Ok (Num x)) ->
  forall best, exists best',
    scan candidates embeddings lambda_param selected_indices remaining best
    = Ok best'
    /\ match best' with
       | Some (i, _) => In i remaining \/ exists b, best = Some (i, b)
       | None => best = None /\ remaining = []
       end.
Proof.
  induction remaining as [|idx rest IH]; intros Hnum best; cbn [scan].
  - exists best. split; [reflexivity|]. destruct best as [[i b]|]; eauto.
  - destruct (Hnum idx (or_introl eq_refl)) as [s Hs]. rewrite Hs. cbn.
    set (best1 := match best with
                  | Some (_, b) => if Rgtb s b then Some (idx, s) else best
                  | None => Some (idx, s)
                  end).
    destruct (IH (fun i Hi => Hnum i (or_intror Hi)) best1) as (best' & Hscan & Hb).
    exists best'. split; [exact Hscan|].
    assert (Hbest1 : exists i b, best1 = Some (i, b)
                                 /\ (i = idx \/ best = Some (i, b))).
    { subst best1. destruct best as [[i b]|]; [|eauto].
      destruct (Rgtb s b); eauto. }
    destruct Hbest1 as (i1 & b1 & Hb1 & Hi1).
    destruct best' as [[i b]|].
    + destruct Hb as [Hin | [b' Hb']]; [left; right; exact Hin|].
      rewrite Hb1 in Hb'. injection Hb' as -> ->.
      destruct Hi1 as [-> | Hi1]; [left; left; reflexivity | right; eauto].
    + destruct Hb as [Hb _]. rewrite Hb1 in Hb. discriminate.
Qed.

(** A scan over scores that are all NaN keeps the best it was started
    with. *)
Lemma scan_all_nan selected_indices remaining :
  (forall idx, In idx remaining ->
     mmr_score candidates embeddings lambda_param selected_indices idx = Ok NaN) ->
  forall best,
    scan candidates embeddings lambda_param selected_indices remaining best
    = Ok best.
Proof.
  induction remaining as [|idx rest IH]; intros Hnan best; cbn [scan];
    [reflexivity|].
  rewrite (Hnan idx (or_introl eq_refl)). cbn.
  apply IH. intros i Hi. apply Hnan. right. exact Hi.
Qed.

Lemma list_remove_perm i l : In i l -> i :: list_remove i l ≡ₚ l.
Proof.
  induction l as [|y l IH]; intros Hin; [destruct Hin|]. cbn.
  destruct (decide (y = i)) as [-> | Hne]; [reflexivity|].
  destruct Hin as [-> | Hin]; [contradiction|].
  rewrite Permutation_swap, (IH Hin). reflexivity.
Qed.

(** The loop from a state in which the selected and the remaining indices
    are, together, the indices of the candidates. *)
Lemma mmr_loop_selects :
  rows_well_formed candidates embeddings ->
  forall fuel selected selected_indices remaining,
    Forall2 (fun i c => candidates !! i = Some c) selected_indices selected ->
    selected_indices ++ remaining ≡ₚ seq 0 (length candidates) ->
    (length remaining <= fuel)%nat ->
    exists out indices,
      mmr_loop candidates embeddings lambda_param k fuel
        selected selected_indices remaining = Some (Ok out)
      /\ Forall2 (fun i c => candidates !! i = Some c) indices out
      /\ NoDup indices
      /\ (exists more, indices = selected_indices ++ more)
      /\ length out
         = if decide (Z.of_nat (length selected) < k)%Z
           then Nat.min (Z.to_nat k) (length candidates)
           else length selected.
Proof.
  intros Hwf. induction fuel as [|fuel IH];
    intros selected selected_indices remaining Hsel Hperm Hfuel.
  - assert (remaining = []) as -> by (destruct remaining; [reflexivity | cbn in Hfuel; lia]).
    cbn [mmr_loop]. rewrite bool_decide_eq_false_2 by (intros [_ H]; apply H; reflexivity).
    exists selected, selected_indices. split; [reflexivity|]. split; [exact Hsel|].
    rewrite app_nil_r in Hperm.
    split; [rewrite Hperm; apply NoDup_ListNoDup, seq_NoDup|].
    split; [exists []; rewrite app_nil_r; reflexivity|].
    assert (Hlen : length selected = length candidates).
    { rewrite <- (Forall2_length _ _ _ Hsel), (Permutation_length Hperm), length_seq.
      reflexivity. }
    destruct (decide _); [lia | reflexivity].
  - assert (Hall : (length selected_indices + length remaining = length candidates)%nat).
    { rewrite <- length_app, (Permutation_length Hperm), length_seq. reflexivity. }
    assert (Hlen : length selected = length selected_indices)
      by (symmetry; eapply Forall2_length, Hsel).
    assert (Hnd : NoDup (selected_indices ++ remaining)).
    { rewrite Hperm. apply NoDup_ListNoDup, seq_NoDup. }
    assert (Hrange : forall i, In i (selected_indices ++ remaining) ->
                               (i < length candidates)%nat).
    { intros i Hi. apply (Permutation_in _ Hperm) in Hi.
      apply in_seq in Hi. lia. }
    cbn [mmr_loop]. case_bool_decide as Hcond.
    + destruct Hcond as [Hk Hrem].
      assert (Hnums : forall idx, In idx remaining ->
                exists x, mmr_score candidates embeddings lambda_param
                            selected_indices idx = Ok (Num x)).
      { intros idx Hidx. apply mmr_score_number; [exact Hwf | |].
        - apply Hrange, in_app_iff. right. exact Hidx.
        - intros s Hs. destruct Hwf as (Hrows & _).
          assert (s < length candidates)%nat
            by (apply Hrange, in_app_iff; left; exact Hs). lia. }
      destruct (scan_picks selected_indices remaining Hnums None)
        as (best' & Hscan & Hbest).
      rewrite Hscan. destruct best' as [[i b]|]; [|destruct Hbest; contradiction].
      destruct Hbest as [Hin | [b' [=]]].
      destruct (lookup_lt_is_Some_2 candidates i) as [c Hc].
      { apply Hrange, in_app_iff. right. exact Hin. }
      rewrite Hc.
      assert (Hrem' : S (length (list_remove i remaining)) = length remaining).
      { rewrite <- (Permutation_length (list_remove_perm i remaining Hin)).
        reflexivity. }
      destruct (IH (selected ++ [c]) (selected_indices ++ [i])
                   (list_remove i remaining))
        as (out & indices & Hrun & Hout & Hnodup & [more Hmore] & Hlength).
      { apply Forall2_app; [exact Hsel | constructor; [exact Hc | constructor]]. }
      { rewrite <- Hperm, <- app_assoc. apply Permutation_app_head. cbn.
        apply list_remove_perm, Hin. }
      { lia. }
      exists out, indices. split; [exact Hrun|]. split; [exact Hout|].
      split; [exact Hnodup|].
      split; [exists (i :: more); rewrite Hmore, <- app_assoc; reflexivity|].
      rewrite length_app in Hlength. cbn [length] in Hlength. rewrite Hlength.
      assert (0 < length remaining)%nat by (destruct remaining; [done | cbn; lia]).
      destruct (decide (Z.of_nat (length selected) < k)%Z) as [_|]; [|lia].
      destruct (decide (Z.of_nat (length selected + 1) < k)%Z) as [_|Hstop];
        [reflexivity | lia].
    + exists selected, selected_indices. split; [reflexivity|].
      split; [exact Hsel|].
      split; [apply NoDup_app in Hnd as [H _]; exact H|].
      split; [exists []; rewrite app_nil_r; reflexivity|].
      destruct (decide (Z.of_nat (length selected) < k)%Z) as [Hk|]; [|reflexivity].
      assert (remaining = []) as ->.
      { destruct remaining as [|x l]; [reflexivity|].
        exfalso. apply Hcond. split; [exact Hk | discriminate]. }
      cbn in Hall. lia.
Qed.
End RerankLoop.

Section RerankProperties.
Import similarity.

(** X25: what diversity_reranking selects, whatever the trade-off.  With
    at least one candidate and more candidates than k, and an embedding
    of non-zero norm and one dimension for each, the loop ends and
    returns max(1, k) candidates:
    the first candidate first, then candidates at pairwise different
    positions of the input. *)
Theorem diversity_reranking_selects {A : Type}
    (candidates : list (A * R)) (embeddings : list (list R))
    (lambda_param : R) (k : Z) (fuel : nat) :
  candidates <> [] ->
  rows_well_formed candidates embeddings ->
  (k < Z.of_nat (length candidates))%Z ->
  (length candidates <= fuel)%nat ->
  exists out indices,
    diversity_reranking candidates embeddings lambda_param k fuel = Some (Ok out)
    /\ length out = Z.to_nat (Z.max 1 k)
    /\ Forall2 (fun i c => candidates !! i = Some c) indices out
    /\ NoDup indices
    /\ head indices = Some 0%nat
    /\ head out = head candidates.
Proof.
  intros Hne Hwf Hk Hfuel. unfold diversity_reranking.
  rewrite bool_decide_eq_false_2 by lia.
  destruct candidates as [|c0 rest] eqn:E; [done|].
  rewrite <- E in *.
  assert (Hlen : length candidates = S (length rest)) by (rewrite E; reflexivity).
  rewrite Hlen. rewrite list_remove_head.
  destruct (mmr_loop_selects candidates embeddings lambda_param k Hwf fuel
              [c0] [0%nat] (seq 1 (length rest)))
    as (out & indices & Hrun & Hout & Hnodup & [more Hmore] & Hlength).
  { constructor; [rewrite E; reflexivity | constructor]. }
  { rewrite Hlen. reflexivity. }
  { rewrite length_seq. lia. }
  exists out, indices. split; [exact Hrun|].
  split.
  { rewrite Hlength. destruct (decide _) as [Hd|Hd]; cbn [length] in *; lia. }
  split; [exact Hout|]. split; [exact Hnodup|].
  assert (Hhead : head indices = Some 0%nat) by (rewrite Hmore; reflexivity).
  split; [exact Hhead|].
  destruct Hout as [|i c idxs cs Hic _]; [discriminate|].
  cbn in Hhead. injection Hhead as ->. cbn. rewrite <- Hic.
  rewrite E. reflexivity.
Qed.

(** X26: a zero-norm first embedding.  With 2 <= k < n candidates and
    embeddings of one dimension of which the first has norm zero, every
    combined score is NaN, no index is ever selected after the first, and
    the loop does not end: no amount of fuel yields a result. *)
Theorem diversity_reranking_zero_norm_loops {A : Type}
    (candidates : list (A * R)) (embeddings : list (list R))
    (lambda_param : R) (k : Z) (e0 : list R) :
  (2 <= k < Z.of_nat (length candidates))%Z ->
  (length candidates <= length embeddings)%nat ->
  consistent_dimension embeddings ->
  embeddings !! 0%nat = Some e0 -> dot e0 e0 = 0 ->
  forall fuel,
    diversity_reranking candidates embeddings lambda_param k fuel = None.
Proof.
  intros Hk Hrows Hdim He0 Hzero fuel. unfold diversity_reranking.
  rewrite bool_decide_eq_false_2 by lia.
  destruct candidates as [|c0 rest] eqn:E; [cbn in Hk; lia|].
  rewrite <- E in *.
  assert (Hlen : length candidates = S (length rest)) by (rewrite E; reflexivity).
  rewrite Hlen, list_remove_head.
  assert (Hnan : forall idx, In idx (seq 1 (length rest)) ->
            mmr_score candidates embeddings lambda_param [0%nat] idx = Ok NaN).
  { intros idx Hidx. apply in_seq in Hidx. unfold mmr_score.
    destruct (lookup_lt_is_Some_2 candidates idx ltac:(lia)) as [[a rel] Hc].
    rewrite Hc.
    destruct (lookup_lt_is_Some_2 embeddings idx ltac:(lia)) as [e He].
    cbn [traverse]. unfold row. rewrite He, He0. cbn.
    rewrite cosine_similarity_zero_norm.
    - reflexivity.
    - apply Hdim; apply list_elem_of_In; eapply list_elem_of_lookup_2; eassumption.
    - right. exact Hzero. }
  assert (Hscan : scan candidates embeddings lambda_param [0%nat]
                    (seq 1 (length rest)) None = Ok None)
    by (apply scan_all_nan; exact Hnan).
  assert (Hcond : (Z.of_nat (length [c0]) < k)%Z /\ seq 1 (length rest) <> []).
  { split; [cbn; lia|]. destruct rest; [cbn in Hlen; lia | discriminate]. }
  induction fuel as [|fuel IH]; cbn [mmr_loop];
    rewrite bool_decide_eq_true_2 by exact Hcond; [reflexivity|].
  rewrite Hscan. exact IH.
Qed.
End RerankProperties.

Section RerankPropertiesWitness.
Import similarity samples.

Lemma diversity_reranking_selects_witness :
  exists out,
    diversity_reranking ranked ranked_rows 0.5 2 3 = Some (Ok out)
    /\ length out = 2%nat
    /\ head out = Some ("a", 0.9).
Proof.
  destruct (diversity_reranking_selects ranked ranked_rows 0.5 2 3
              ltac:(discriminate) ranked_rows_well_formed
              ltac:(cbn; lia) ltac:(cbn; lia))
    as (out & indices & Hrun & Hlen & _ & _ & _ & Hhead).
  exists out. split; [exact Hrun|]. split; [exact Hlen | exact Hhead].
Defined.

Lemma zero_first_rows_consistent :
  consistent_dimension [[0; 0]; [0; 1]; [1; 1]].
Proof.
  intros r1 r2 H1 H2. cbn in H1, H2.
  destruct H1 as [<- | [<- | [<- | []]]], H2 as [<- | [<- | [<- | []]]];
    reflexivity.
Qed.

Lemma diversity_reranking_zero_norm_loops_witness :
  consistent_dimension [[0; 0]; [0; 1]; [1; 1]]
  /\ diversity_reranking ranked [[0; 0]; [0; 1]; [1; 1]] 0.5 2 1000 = None.
Proof.
  split; [exact zero_first_rows_consistent|].
  apply (diversity_reranking_zero_norm_loops ranked [[0; 0]; [0; 1]; [1; 1]]
           0.5 2 [0; 0]).
  - cbn. lia.
  - cbn. lia.
  - exact zero_first_rows_consistent.
  - reflexivity.
  - cbn. lra.
Defined.
End RerankPropertiesWitness.
